(** * The multi-agent task coordinator of J.A.R.V.I.S.

    A shallow embedding of [src/services/multiAgentCoordinator.js]
    (class [MultiAgentCoordinator]) and the properties of its registry,
    priority queue, step executor, result aggregator and retention sweep,
    of its start-up, shutdown and event handlers, and of the threat
    detector that stands behind the security agent's [analyzeRequest].

    Conventions of the embedding.
    - JavaScript strings are [string]; the text handled here (agent kinds,
      actions, messages) is ASCII, and [toLowerCase] and the regular
      expressions are given on ASCII code units.
    - Numbers that the code uses as integers (priorities, timeouts,
      millisecond timestamps) are [Z]; counts of array elements are [nat];
      the performance metrics, which take fractional values, are binary64
      floats.
    - A [Map] keyed by strings is a [gmap string _].  Task objects are shared
      between [taskQueue] and [activeTasks]: they live in a store addressed
      by reference, and both containers hold references.
    - An [async] method is a state-passing function that may throw; an
      [await] on a collaborator (an agent) reads the collaborator's answer,
      which tells when the promise settles and how.  Agents settle every
      promise they hand out ("eventually produces a result or fails").
      A method is run from its first statement to its last; what another
      handler of the event loop finds while the dispatcher waits for an
      agent is the state left by the statements before the wait, which are
      a computation of their own ([startDispatch]).
    - Calls that cross the boundary to an agent, and the coordinator's own
      [emit]s, are recorded in a log so that theorems can count them. *)

From stdpp Require Import base option list strings gmap fin_maps pretty sorting.
From Stdlib Require Import ZArith Lia Ascii String Floats.

Open Scope string_scope.
Open Scope list_scope.
Open Scope Z_scope.

(** ** Strings *)

(** [String.prototype.includes]: [sub] occurs somewhere in [s]. *)
Fixpoint includes (s sub : string) : bool :=
  String.prefix sub s ||
  match s with
  | EmptyString => false
  | String _ s' => includes s' sub
  end.

Definition lowerAscii (c : ascii) : ascii :=
  let n := nat_of_ascii c in
  if (Nat.leb 65 n && Nat.leb n 90)%bool then ascii_of_nat (n + 32) else c.

(** [String.prototype.toLowerCase] on ASCII text. *)
Fixpoint toLowerCase (s : string) : string :=
  match s with
  | EmptyString => EmptyString
  | String c s' => String (lowerAscii c) (toLowerCase s')
  end.

(** ** Regular expressions of [containsSensitiveData]

    The five patterns use literals, character classes, [*], [+], [?] on a
    class, counted repetition of a class and the word boundary.  The matcher
    is the backtracking one of the language: a greedy choice first, the
    alternative when the continuation fails. *)

Inductive Regex :=
| RChar (p : ascii -> bool)
| RSeq (r1 r2 : Regex)
| RStar (p : ascii -> bool)
| ROpt (p : ascii -> bool)
| RBoundary
| REmpty.

Definition inRange (lo hi : nat) (c : ascii) : bool :=
  (Nat.leb lo (nat_of_ascii c) && Nat.leb (nat_of_ascii c) hi)%bool.

Definition isDigit (c : ascii) : bool := inRange 48 57 c.

(** The white space of [\s] within ASCII; outside ASCII the class has more
    members, and properties that depend on a character not being white
    space are stated for ASCII characters. *)
Definition isSpace (c : ascii) : bool :=
  (inRange 9 13 c || Nat.eqb (nat_of_ascii c) 32)%bool.

(** A code unit of the ASCII range. *)
Definition isAscii (c : ascii) : bool := (nat_of_ascii c <? 128)%nat.

Definition isWordChar (c : ascii) : bool :=
  (inRange 48 57 c || inRange 65 90 c || inRange 97 122 c
   || Nat.eqb (nat_of_ascii c) 95)%bool.

Definition isWordAt (c : option ascii) : bool :=
  match c with Some c => isWordChar c | None => false end.

Definition firstChar (s : string) : option ascii :=
  match s with String c _ => Some c | EmptyString => None end.

Definition oneOf (cs : string) (c : ascii) : bool :=
  existsb (fun d => Nat.eqb (nat_of_ascii c) (nat_of_ascii d)) (list_ascii_of_string cs).

Definition ignoreCase (d : ascii) (c : ascii) : bool :=
  Nat.eqb (nat_of_ascii (lowerAscii c)) (nat_of_ascii (lowerAscii d)).

Fixpoint starFrom (p : ascii -> bool) (prev : option ascii) (s : string)
  (k : option ascii -> string -> bool) : bool :=
  match s with
  | String c s' => (p c && starFrom p (Some c) s' k) || k prev s
  | EmptyString => k prev s
  end.

Fixpoint matchFrom (r : Regex) (prev : option ascii) (s : string)
  (k : option ascii -> string -> bool) : bool :=
  match r with
  | RChar p =>
      match s with
      | String c s' => p c && k (Some c) s'
      | EmptyString => false
      end
  | RSeq r1 r2 => matchFrom r1 prev s (fun prev' s' => matchFrom r2 prev' s' k)
  | RStar p => starFrom p prev s k
  | ROpt p =>
      match s with
      | String c s' => (p c && k (Some c) s') || k prev s
      | EmptyString => k prev s
      end
  | RBoundary => xorb (isWordAt prev) (isWordAt (firstChar s)) && k prev s
  | REmpty => k prev s
  end.

(** [RegExp.prototype.test] without the [g] flag: a match at some offset. *)
Fixpoint searchFrom (r : Regex) (prev : option ascii) (s : string) : bool :=
  matchFrom r prev s (fun _ _ => true) ||
  match s with
  | String c s' => searchFrom r (Some c) s'
  | EmptyString => false
  end.

Definition test (r : Regex) (s : string) : bool := searchFrom r None s.

Fixpoint literal_i (s : string) : Regex :=
  match s with
  | EmptyString => REmpty
  | String c s' => RSeq (RChar (ignoreCase c)) (literal_i s')
  end.

Fixpoint times (n : nat) (p : ascii -> bool) : Regex :=
  match n with
  | O => REmpty
  | S n' => RSeq (RChar p) (times n' p)
  end.

Definition seqs (rs : list Regex) : Regex := foldr RSeq REmpty rs.

(** [\s*[:=]\s*\S+] *)
Definition assigned : Regex :=
  seqs [RStar isSpace; RChar (oneOf ":="); RStar isSpace;
        RChar (fun c => negb (isSpace c)); RStar (fun c => negb (isSpace c))].

Definition spaceOrDash (c : ascii) : bool := (isSpace c || oneOf "-" c)%bool.

Definition sensitivePatterns : list Regex :=
  [ RSeq (literal_i "password") assigned;
    seqs [literal_i "api"; ROpt (oneOf "_-"); literal_i "key"; assigned];
    RSeq (literal_i "token") assigned;
    seqs [RBoundary; times 4 isDigit; ROpt spaceOrDash; times 4 isDigit;
          ROpt spaceOrDash; times 4 isDigit; ROpt spaceOrDash; times 4 isDigit;
          RBoundary];
    seqs [RBoundary; times 3 isDigit; RChar (oneOf "-"); times 2 isDigit;
          RChar (oneOf "-"); times 4 isDigit; RBoundary] ].

Definition containsSensitiveData (input : string) : bool :=
  existsb (fun pattern => test pattern input) sensitivePatterns.

(** ** Data model *)

(** A thrown value: an [Error] with its [message]. *)
Record Error := mkError { message : string }.

(** What a method gives back: a value, or a thrown error. *)
Inductive Result (A : Type) :=
| Returned (a : A)
| Thrown (e : Error).
Arguments Returned {A} a.
Arguments Thrown {A} e.

(** A promise handed out by a collaborator: the time (in ms) at which it
    settles, and whether it resolves or rejects. *)
Record Awaited (A : Type) := mkAwaited { settles_at : Z; settles_with : Result A }.
Arguments mkAwaited {A} _ _.
Arguments settles_at {A} _.
Arguments settles_with {A} _.

(** A value of [step.parameters]. *)
Inductive JsParam :=
| PString (s : string)
| PNumber (z : Z)
| PBoolean (b : bool)
| PObject.

Record Step := mkStep {
  agent : string;
  action : string;
  parameters : option (list (string * JsParam));
  critical : bool
}.

Record TaskPlan := mkPlan { intent : string; steps : list Step }.

(** [task.context]; [allowPartialFailure] is compared with [false] only. *)
Record Context := mkContext {
  confirmedOperations : option (list string);
  allowPartialFailure : option bool;
  authorizationLevel : option string;
  userEmotion : option string
}.

(** What [agent.execute] resolves to.  [complete] is the truth value of the
    result's own [complete] property, [response] its [response] property. *)
Record AgentResult := mkAgentResult { complete : bool; response : option string }.

(** An element of [results] in [executeTask]: the object literal returned by
    [executeTaskStep], or the one pushed in the [catch] block. *)
Inductive StepOutcome :=
| StepSucceeded (result : AgentResult) (step : Step)
| StepFailed (error : string) (step : Step).

Definition success (r : StepOutcome) : bool :=
  match r with
  | StepSucceeded _ _ => true
  | StepFailed _ _ => false
  end.

(** [stepResult.complete], read in [executeTask] from the object
    [{success, result, step}]: the literal has no such key (the agent's own
    [complete] is under [result]), so the read gives [undefined]. *)
Definition stepResult_complete (r : StepOutcome) : bool := false.

(** The object built by [compileTaskResults]. *)
Record TaskResult := mkTaskResult {
  res_success : bool;
  primaryResult : option AgentResult;
  allResults : list StepOutcome;
  successfulSteps : nat;
  failedSteps : nat;
  unifiedResponse : string;
  executionTime : Z
}.

Inductive Status := Pending | Executing | Completed | Failed.

#[global] Instance Status_eq_dec : EqDecision Status.
Proof. solve_decision. Defined.

Record Task := mkTask {
  task_id : string;
  task_type : string;
  priority : Z;
  input : string;
  context : Context;
  plan : TaskPlan;
  status : Status;
  created : Z;
  task_timeout : Z;
  started : option Z;
  completed : option Z;
  task_result : option TaskResult;
  task_error : option Error
}.

Definition set_status (s : Status) (t : Task) : Task :=
  mkTask (task_id t) (task_type t) (priority t) (input t) (context t) (plan t)
    s (created t) (task_timeout t) (started t) (completed t) (task_result t)
    (task_error t).

Definition set_started (d : Z) (t : Task) : Task :=
  mkTask (task_id t) (task_type t) (priority t) (input t) (context t) (plan t)
    (status t) (created t) (task_timeout t) (Some d) (completed t)
    (task_result t) (task_error t).

Definition set_completed (d : Z) (t : Task) : Task :=
  mkTask (task_id t) (task_type t) (priority t) (input t) (context t) (plan t)
    (status t) (created t) (task_timeout t) (started t) (Some d)
    (task_result t) (task_error t).

Definition set_result (r : TaskResult) (t : Task) : Task :=
  mkTask (task_id t) (task_type t) (priority t) (input t) (context t) (plan t)
    (status t) (created t) (task_timeout t) (started t) (completed t) (Some r)
    (task_error t).

Definition set_error (e : Error) (t : Task) : Task :=
  mkTask (task_id t) (task_type t) (priority t) (input t) (context t) (plan t)
    (status t) (created t) (task_timeout t) (started t) (completed t)
    (task_result t) (Some e).

(** [securityAgent.analyzeRequest] resolves to this. *)
Record SecurityResult := mkSecurityResult {
  threatLevel : string;
  requiresAuthorization : bool
}.

(** The methods the coordinator calls on a registered agent.  A call made at
    time [now] (first argument of the asynchronous ones) answers with the
    promise's fate.  [requestConfirmation] answers with the truth value of
    [confirmation.confirmed], which is all the coordinator reads of it.
    Agents are event emitters, and they leave the coordinator's objects
    alone while they work. *)
Record AgentHandle := mkHandle {
  execute : Z -> string -> option (list (string * JsParam)) -> Context ->
            Awaited AgentResult;
  analyzeRequest : Z -> string -> Context -> Awaited SecurityResult;
  requestConfirmation : Z -> Task -> Step -> Awaited bool;
  analyzeIntent : Z -> string -> Context -> Awaited TaskPlan;
  determineResponseTone : option string -> list StepOutcome -> Result string
}.

(** ** Configuration (constructor) *)

Record AgentConfig := mkConfig {
  cfg_priority : Z;
  capabilities : list string;
  maxConcurrentTasks : Z;
  timeout : Z;
  requiresConfirmation : bool
}.

(** The own properties of [this.agentConfig]. *)
Definition agentConfigTable : list (string * AgentConfig) :=
  [ ("reasoning", mkConfig 1 ["analysis"; "planning"; "decision_making"] 2 30000 false);
    ("planning", mkConfig 2 ["task_decomposition"; "scheduling"; "resource_allocation"] 3 45000 false);
    ("os_control", mkConfig 3 ["system_commands"; "file_management"; "automation"] 1 20000 true);
    ("smart_home", mkConfig 4 ["device_control"; "automation"; "energy_management"] 5 15000 false);
    ("security", mkConfig 0 ["access_control"; "threat_detection"; "privacy_protection"] 1 10000 false);
    ("emotion", mkConfig 5 ["emotion_analysis"; "response_adaptation"; "empathy"] 2 5000 false);
    ("voice", mkConfig 6 ["speech_recognition"; "speech_synthesis"; "wake_word_detection"] 1 8000 false);
    ("face", mkConfig 7 ["face_recognition"; "user_identification"; "access_control"] 1 12000 false) ].

(** [agentConfig] is an ordinary object, so a key it does not own is looked
    up on [Object.prototype]; every member found there is truthy and has
    none of the configuration's properties. *)
Definition objectPrototypeKeys : list string :=
  [ "constructor"; "__defineGetter__"; "__defineSetter__"; "hasOwnProperty";
    "__lookupGetter__"; "__lookupSetter__"; "isPrototypeOf";
    "propertyIsEnumerable"; "toString"; "valueOf"; "__proto__";
    "toLocaleString" ].

Inductive ConfigEntry :=
| OwnConfig (c : AgentConfig)
| Inherited
| Undefined.

Fixpoint assoc {A : Type} (k : string) (l : list (string * A)) : option A :=
  match l with
  | [] => None
  | (k', v) :: l' => if String.eqb k k' then Some v else assoc k l'
  end.

(** [this.agentConfig[agentType]] *)
Definition agentConfig (agentType : string) : ConfigEntry :=
  match assoc agentType agentConfigTable with
  | Some c => OwnConfig c
  | None =>
      if existsb (String.eqb agentType) objectPrototypeKeys then Inherited
      else Undefined
  end.

Definition taskPriorities_security : Z := 1.
Definition taskPriorities_user_request : Z := 2.
Definition maxConcurrentTasks_global : Z := 10.
Definition taskTimeout : Z := 60000.

(** ** Coordinator state *)

(** Calls to collaborators and emitted notifications, in order. *)
Inductive Event :=
| ConfirmationRequested (taskId : string) (s : Step)
| AgentInvoked (kind : string) (act : string)
| AgentSettled (kind : string)
| Emitted_task_completed (taskId : string)
| Emitted_task_failed (taskId : string).

Record Coordinator := mkCoordinator {
  agents : gmap string AgentHandle;
  agentCapabilities : gmap string (option (list string));
  objects : list Task;              (* the task objects, by reference *)
  activeTasks : gmap string nat;
  taskQueue : list nat;
  taskResults : gmap string TaskResult;
  isProcessing : bool;
  clock : Z;                        (* what [Date.now()] reads *)
  log : list Event
}.

Definition set_agents (a : gmap string AgentHandle)
  (c : gmap string (option (list string))) (st : Coordinator) : Coordinator :=
  mkCoordinator a c (objects st) (activeTasks st) (taskQueue st)
    (taskResults st) (isProcessing st) (clock st) (log st).

Definition set_objects (h : list Task) (st : Coordinator) : Coordinator :=
  mkCoordinator (agents st) (agentCapabilities st) h (activeTasks st)
    (taskQueue st) (taskResults st) (isProcessing st) (clock st) (log st).

Definition set_activeTasks (m : gmap string nat) (st : Coordinator) : Coordinator :=
  mkCoordinator (agents st) (agentCapabilities st) (objects st) m
    (taskQueue st) (taskResults st) (isProcessing st) (clock st) (log st).

Definition set_taskQueue (q : list nat) (st : Coordinator) : Coordinator :=
  mkCoordinator (agents st) (agentCapabilities st) (objects st)
    (activeTasks st) q (taskResults st) (isProcessing st) (clock st) (log st).

Definition set_taskResults (m : gmap string TaskResult) (st : Coordinator) : Coordinator :=
  mkCoordinator (agents st) (agentCapabilities st) (objects st)
    (activeTasks st) (taskQueue st) m (isProcessing st) (clock st) (log st).

Definition set_isProcessing (b : bool) (st : Coordinator) : Coordinator :=
  mkCoordinator (agents st) (agentCapabilities st) (objects st)
    (activeTasks st) (taskQueue st) (taskResults st) b (clock st) (log st).

Definition set_clock (t : Z) (st : Coordinator) : Coordinator :=
  mkCoordinator (agents st) (agentCapabilities st) (objects st)
    (activeTasks st) (taskQueue st) (taskResults st) (isProcessing st) t
    (log st).

Definition set_log (l : list Event) (st : Coordinator) : Coordinator :=
  mkCoordinator (agents st) (agentCapabilities st) (objects st)
    (activeTasks st) (taskQueue st) (taskResults st) (isProcessing st)
    (clock st) l.

(** The coordinator as the constructor leaves it, created at time [now]. *)
Definition newCoordinator (now : Z) : Coordinator :=
  mkCoordinator ∅ ∅ [] ∅ [] ∅ false now [].

(** ** Methods as state-passing computations that may throw *)

Definition M (A : Type) : Type := Coordinator -> Result A * Coordinator.

Definition ret {A : Type} (a : A) : M A := fun st => (Returned a, st).

Definition throw {A : Type} (msg : string) : M A :=
  fun st => (Thrown (mkError msg), st).

Definition rethrow {A : Type} (e : Error) : M A := fun st => (Thrown e, st).

Definition bind {A B : Type} (c : M A) (k : A -> M B) : M B :=
  fun st =>
    match c st with
    | (Returned a, st') => k a st'
    | (Thrown e, st') => (Thrown e, st')
    end.

Definition try_catch {A : Type} (c : M A) (handler : Error -> M A) : M A :=
  fun st =>
    match c st with
    | (Returned a, st') => (Returned a, st')
    | (Thrown e, st') => handler e st'
    end.

Notation "'let*' x := c 'in' k" := (bind c (fun x => k))
  (at level 10, x name, c at level 100, k at level 200).
Notation "'run' c 'in' k" := (bind c (fun _ => k))
  (at level 10, c at level 100, k at level 200).

Definition gets {A : Type} (f : Coordinator -> A) : M A :=
  fun st => (Returned (f st), st).

Definition modify (f : Coordinator -> Coordinator) : M unit :=
  fun st => (Returned tt, f st).

Definition emit (e : Event) : M unit :=
  modify (fun st => set_log (log st ++ [e]) st).

(** [await p]: execution resumes when [p] settles. *)
Definition await {A : Type} (p : Awaited A) : M A :=
  fun st => (settles_with p, set_clock (Z.max (clock st) (settles_at p)) st).

(** Reading a task object through its reference.  References are created
    by [newObject] only, so the error case is outside JavaScript. *)
Definition deref (r : nat) : M Task :=
  fun st =>
    match objects st !! r with
    | Some t => (Returned t, st)
    | None => (Thrown (mkError "dangling reference"), st)
    end.

Definition updateTask (r : nat) (f : Task -> Task) : M unit :=
  modify (fun st => set_objects (alter f r (objects st)) st).

(** An object literal: a fresh task object. *)
Definition newObject (t : Task) : M nat :=
  fun st => (Returned (List.length (objects st)), set_objects (objects st ++ [t]) st).

Definition typeError (property : string) : Error :=
  mkError ("Cannot read properties of undefined (reading '" +:+ property +:+ "')").

(** ** registerAgent *)

Definition capabilitiesOf (e : ConfigEntry) : option (list string) :=
  match e with
  | OwnConfig c => Some (capabilities c)
  | _ => None
  end.

(** The three [agentInstance.on] subscriptions change the agent, not the
    coordinator, and are not part of the state. *)
Definition registerAgent (agentType : string) (agentInstance : AgentHandle) : M unit :=
  match agentConfig agentType with
  | Undefined => throw ("Unknown agent type: " +:+ agentType)
  | entry =>
      modify (fun st =>
        set_agents (<[agentType := agentInstance]> (agents st))
                   (<[agentType := capabilitiesOf entry]> (agentCapabilities st))
                   st)
  end.

(** ** The pending queue *)

Definition priorityOf (h : list Task) (r : nat) : Z :=
  match h !! r with
  | Some t => priority t
  | None => 0
  end.

(** [Array.prototype.sort] is stable (ECMAScript 2019): elements that the
    comparator calls equal keep their order.  With a comparator that orders
    by a numeric key there is one such arrangement, and inserting the
    elements one by one from the right computes it. *)
Fixpoint insertSorted (cmp : nat -> nat -> Z) (x : nat) (l : list nat) : list nat :=
  match l with
  | [] => [x]
  | y :: l' => if cmp x y <=? 0 then x :: y :: l' else y :: insertSorted cmp x l'
  end.

Definition sort (cmp : nat -> nat -> Z) (l : list nat) : list nat :=
  foldr (insertSorted cmp) [] l.

(** The comparator [(a, b) => key(a) - key(b)]. *)
Definition byKey (key : nat -> Z) (a b : nat) : Z := key a - key b.

Definition addTask (task : nat) : M unit :=
  let* t := deref task in
  modify (fun st =>
    let pushed := taskQueue st ++ [task] in
    set_activeTasks (<[task_id t := task]> (activeTasks st))
      (set_taskQueue (sort (byKey (priorityOf (objects st))) pushed) st)).

(** [this.taskQueue.shift()] *)
Definition shift : M (option nat) :=
  fun st =>
    match taskQueue st with
    | [] => (Returned None, st)
    | r :: q => (Returned (Some r), set_taskQueue q st)
    end.

(** ** Capacity *)

(** [Array.from(this.activeTasks.values())]; the map is listed in the order
    of its keys, which the code never observes: it only takes the length of
    a filtered copy. *)
Definition storedTasks (st : Coordinator) : list Task :=
  omap (fun kv : string * nat => objects st !! kv.2) (map_to_list (activeTasks st)).

Definition isExecuting (t : Task) : bool := bool_decide (status t = Executing).

Definition usesAgent (agentType : string) (t : Task) : bool :=
  existsb (fun s => String.eqb (agent s) agentType) (steps (plan t)).

Definition getAgentActiveTasks (agentType : string) (st : Coordinator) : nat :=
  List.length (List.filter (fun t => isExecuting t && usesAgent agentType t) (storedTasks st)).

Definition getActiveTaskCount (st : Coordinator) : nat :=
  List.length (List.filter isExecuting (storedTasks st)).

Definition isAgentAvailable (agentType : string) : M bool :=
  fun st =>
    match agents st !! agentType with
    | None => (Returned false, st)
    | Some _ =>
        match agentConfig agentType with
        | OwnConfig config =>
            (Returned (Z.of_nat (getAgentActiveTasks agentType st)
                       <? maxConcurrentTasks config), st)
        | Inherited => (Returned false, st)
        | Undefined => (Thrown (typeError "maxConcurrentTasks"), st)
        end
    end.

(** ** The step executor *)

Definition sensitiveActions : list string :=
  [ "format"; "delete"; "shutdown"; "restart"; "kill";
    "uninstall"; "remove"; "disable"; "grant_access" ].

Definition isSensitiveOperation (step : Step) : bool :=
  existsb (fun act =>
    includes (toLowerCase (action step)) act ||
    match parameters step with
    | Some ps =>
        existsb (fun param =>
          match param with
          | PString s => existsb (fun act' => includes (toLowerCase s) act') sensitiveActions
          | _ => false
          end) (map snd ps)
    | None => false
    end) sensitiveActions.

(** [task.context.confirmedOperations &&
     task.context.confirmedOperations.includes(step.action)] *)
Definition alreadyConfirmed (t : Task) (step : Step) : bool :=
  match confirmedOperations (context t) with
  | Some ops => existsb (String.eqb (action step)) ops
  | None => false
  end.

Definition confirmSensitiveOperation (task : nat) (step : Step) : M bool :=
  let* t := deref task in
  if alreadyConfirmed t step then ret true
  else
    let* securityAgent := gets (fun st => agents st !! "security") in
    match securityAgent with
    | Some sec =>
        let* now := gets clock in
        run emit (ConfirmationRequested (task_id t) step) in
        await (requestConfirmation sec now t step)
    | None => ret false
    end.

(** [Promise.race] of the agent's promise against a timer of [ms].  The
    timer is set after the agent has been called: a promise that settles
    when the timer is due settles first, and wins the race. *)
Definition withTimeout {A : Type} (promise : Awaited A) (ms : Z) (msg : string) : M A :=
  fun st =>
    if settles_at promise <=? clock st + ms then await promise st
    else (Thrown (mkError msg), set_clock (clock st + ms) st).

(** [this.agentConfig[step.agent].timeout]; a timer set with [undefined]
    fires after 1 ms. *)
Definition configuredTimeout (agentType : string) : M Z :=
  match agentConfig agentType with
  | OwnConfig config => ret (timeout config)
  | Inherited => ret 1
  | Undefined => rethrow (typeError "timeout")
  end.

(** The last statements of [executeTaskStep]: the call of the agent, raced
    against the timer.  The log brackets the time the call is in flight:
    from the call until the coordinator stops waiting for it, because the
    promise has settled or the timer has fired. *)
Definition invokeAgent (handle : AgentHandle) (task : nat) (step : Step) : M StepOutcome :=
  let* ms := configuredTimeout (agent step) in
  let* t := deref task in
  let* now := gets clock in
  run emit (AgentInvoked (agent step) (action step)) in
  let stepPromise := execute handle now (action step) (parameters step) (context t) in
  let* result :=
    try_catch (withTimeout stepPromise ms ("Step timeout: " +:+ action step))
      (fun e => run emit (AgentSettled (agent step)) in rethrow e) in
  run emit (AgentSettled (agent step)) in
  ret (StepSucceeded result step).

Definition executeTaskStep (task : nat) (step : Step) : M StepOutcome :=
  let* found := gets (fun st => agents st !! agent step) in
  match found with
  | None => throw ("Agent not available: " +:+ agent step)
  | Some handle =>
      let* available := isAgentAvailable (agent step) in
      if negb available then throw ("Agent " +:+ agent step +:+ " is busy")
      else
        let* confirmed :=
          (if isSensitiveOperation step then confirmSensitiveOperation task step
           else ret true) in
        if negb confirmed then throw "Sensitive operation requires confirmation"
        else invokeAgent handle task step
  end.

Definition canContinueOnError (task : nat) (step : Step) (error : Error) : M bool :=
  if critical step then ret false
  else if includes (message error) "Security" || includes (message error) "Authorization"
  then ret false
  else
    let* t := deref task in
    ret (negb (bool_decide (allowPartialFailure (context t) = Some false))).

(** The body of [for (const step of task.plan.steps)] in [executeTask],
    with the array [results] threaded through. *)
Fixpoint runSteps (task : nat) (plan_steps : list Step) (results : list StepOutcome)
  : M (list StepOutcome) :=
  match plan_steps with
  | [] => ret results
  | step :: rest =>
      fun st =>
        match executeTaskStep task step st with
        | (Returned stepResult, st1) =>
            let results1 := results ++ [stepResult] in
            if stepResult_complete stepResult then (Returned results1, st1)
            else runSteps task rest results1 st1
        | (Thrown error, st1) =>
            let results1 := results ++ [StepFailed (message error) step] in
            (let* continue := canContinueOnError task step error in
             if negb continue then rethrow error
             else runSteps task rest results1) st1
        end
  end.

(** ** The result aggregator *)

Definition truthy (s : option string) : option string :=
  match s with
  | Some "" => None
  | other => other
  end.

Definition generateSuccessResponse (results : list StepOutcome) : Result string :=
  match last results with
  | None => Thrown (typeError "result")
  | Some (StepSucceeded r _) =>
      match truthy (response r) with
      | Some text => Returned text
      | None => Returned "Task completed successfully, Sir."
      end
  | Some (StepFailed _ _) => Returned "Task completed successfully, Sir."
  end.

Definition generatePartialSuccessResponse (results : list StepOutcome) : string :=
  let successfulCount := List.length (List.filter success results) in
  let totalCount := List.length results in
  "Task partially completed. " +:+ pretty successfulCount +:+ " of "
    +:+ pretty totalCount +:+ " steps succeeded, Sir.".

Definition generateFailureResponse (results : list StepOutcome) : string :=
  match List.find (fun r => negb (success r)) results with
  | Some (StepFailed err _) =>
      match truthy (Some err) with
      | Some text => "Unable to complete the task. " +:+ text +:+ ", Sir."
      | None => "Task failed to complete, Sir."
      end
  | _ => "Task failed to complete, Sir."
  end.

(** The three-way branch of [generateUnifiedResponse]. *)
Inductive Classification := ClassSuccess | ClassPartial | ClassFailure.

Definition classify (results : list StepOutcome) : Classification :=
  if forallb success results then ClassSuccess
  else if existsb success results then ClassPartial
  else ClassFailure.

Definition generateUnifiedResponse (task : nat) (results : list StepOutcome) : M string :=
  let* t := deref task in
  let* emotionAgent := gets (fun st => agents st !! "emotion") in
  let* tone :=
    match emotionAgent with
    | Some emo =>
        match determineResponseTone emo (userEmotion (context t)) results with
        | Returned tone => ret tone
        | Thrown e => rethrow e
        end
    | None => ret "professional"
    end in
  match classify results with
  | ClassSuccess =>
      match generateSuccessResponse results with
      | Returned text => ret text
      | Thrown e => rethrow e
      end
  | ClassPartial => ret (generatePartialSuccessResponse results)
  | ClassFailure => ret (generateFailureResponse results)
  end.

Definition resultOf (r : StepOutcome) : option AgentResult :=
  match r with
  | StepSucceeded res _ => Some res
  | StepFailed _ _ => None
  end.

Definition compileTaskResults (task : nat) (results : list StepOutcome) : M TaskResult :=
  let successfulResults := List.filter success results in
  let failedResults := List.filter (fun r => negb (success r)) results in
  let primary :=
    match last successfulResults with
    | Some r => resultOf r
    | None => None
    end in
  let* response := generateUnifiedResponse task results in
  let* t := deref task in
  let* now := gets clock in
  match started t with
  | Some since =>
      ret (mkTaskResult (0 <? List.length successfulResults)%nat primary results
             (List.length successfulResults) (List.length failedResults)
             response (now - since))
  | None => rethrow (typeError "getTime")
  end.

(** ** executeTask and the dispatcher *)

(** The first two assignments of [executeTask]. *)
Definition beginTask (task : nat) : M unit :=
  let* now := gets clock in
  updateTask task (fun t => set_started now (set_status Executing t)).

Definition executeTask (task : nat) : M TaskResult :=
  run beginTask task in
  let* t := deref task in
  let* results := runSteps task (steps (plan t)) [] in
  let* finalResult := compileTaskResults task results in
  let* now := gets clock in
  run updateTask task
        (fun t => set_result finalResult (set_completed now (set_status Completed t))) in
  run modify (fun st => set_taskResults (<[task_id t := finalResult]> (taskResults st)) st) in
  run emit (Emitted_task_completed (task_id t)) in
  ret finalResult.

Definition markFailed (error : Error) (now : Z) (t : Task) : Task :=
  set_completed now (set_error error (set_status Failed t)).

Definition handleTaskError (task : nat) (error : Error) : M unit :=
  let* now := gets clock in
  run updateTask task (markFailed error now) in
  let* t := deref task in
  emit (Emitted_task_failed (task_id t)).

(** Reached from an agent's [task_failed] event. *)
Definition handleTaskFailure (taskId : string) (error : Error) : M unit :=
  let* found := gets (fun st => activeTasks st !! taskId) in
  match found with
  | Some task =>
      let* now := gets clock in
      run updateTask task (markFailed error now) in
      emit (Emitted_task_failed taskId)
  | None => ret tt
  end.

(** One round of the [while] loop of [processTasks]. *)
Definition dispatchNext (task : nat) : M unit :=
  try_catch (run executeTask task in ret tt) (fun error => handleTaskError task error).

(** The condition of the [while] loop. *)
Definition canDispatch (st : Coordinator) : bool :=
  (0 <? List.length (taskQueue st))%nat
  && (Z.of_nat (getActiveTaskCount st) <? maxConcurrentTasks_global).

Fixpoint dispatchLoop (fuel : nat) : M unit :=
  match fuel with
  | O => ret tt
  | S fuel' =>
      fun st =>
        if canDispatch st
        then
          (let* next := shift in
           match next with
           | Some task => run dispatchNext task in dispatchLoop fuel'
           | None => ret tt
           end) st
        else (Returned tt, st)
  end.

(** Each round removes one task from the queue and nothing in a round adds
    one, so the length of the queue bounds the number of rounds. *)
Definition processTasks : M unit :=
  fun st =>
    if isProcessing st || (List.length (taskQueue st) =? 0)%nat
    then (Returned tt, st)
    else
      (run modify (set_isProcessing true) in
       run dispatchLoop (List.length (taskQueue st)) in
       modify (set_isProcessing false)) st.

(** [processTasks] as far as the store is concerned up to the point where
    it first waits for an agent: the guard, the flag, the first [shift],
    and the first statements of [executeTask].  This is the state that the
    other handlers of the event loop find while the task is executed. *)
Definition startDispatch : M unit :=
  fun st =>
    if isProcessing st || (List.length (taskQueue st) =? 0)%nat
    then (Returned tt, st)
    else
      (run modify (set_isProcessing true) in
       fun st1 =>
         if canDispatch st1
         then
           (let* next := shift in
            match next with
            | Some task => beginTask task
            | None => ret tt
            end) st1
         else modify (set_isProcessing false) st1) st.

(** ** The retention sweep *)

Definition maxAge : Z := 5 * 60 * 1000.

(** [task.completed && (now - task.completed.getTime()) > maxAge] *)
Definition expired (now : Z) (t : Task) : bool :=
  match completed t with
  | Some at_ => maxAge <? now - at_
  | None => false
  end.

Definition sweepEntry (now : Z) (entry : string * nat) (st : Coordinator) : Coordinator :=
  match objects st !! entry.2 with
  | Some t =>
      if expired now t
      then set_taskResults (delete entry.1 (taskResults st))
             (set_activeTasks (delete entry.1 (activeTasks st)) st)
      else st
  | None => st
  end.

Definition cleanupCompletedTasks : M unit :=
  modify (fun st => foldr (sweepEntry (clock st)) st (map_to_list (activeTasks st))).

(** Time passing between two handlers of the event loop. *)
Definition advanceClock (now : Z) : M unit :=
  modify (fun st => set_clock (Z.max (clock st) now) st).

(** ** processUserRequest *)

Definition classifyError (error : Error) : string :=
  if includes (message error) "Security" then "security"
  else if includes (message error) "Authorization" then "authorization"
  else if includes (message error) "Timeout" then "timeout"
  else if includes (message error) "Network" then "network"
  else "unknown".

(** [this.agentConfig[step.agent]?.timeout || 10000] *)
Definition timeoutOr10000 (agentType : string) : Z :=
  match agentConfig agentType with
  | OwnConfig config => if timeout config =? 0 then 10000 else timeout config
  | _ => 10000
  end.

Definition estimateTaskTime (taskPlan : TaskPlan) : Z :=
  Z.min (fold_left (fun total step => total + timeoutOr10000 (agent step)) (steps taskPlan) 0)
        taskTimeout.

(** [`task_${Date.now()}_${Math.random().toString(36).substr(2, 9)}`]; the
    random suffix is an argument. *)
Definition generateTaskId (random : string) : M string :=
  let* now := gets clock in
  ret ("task_" +:+ pretty now +:+ "_" +:+ random).

Definition performSecurityCheck (userInput : string) (ctx : Context) : M unit :=
  let* securityAgent := gets (fun st => agents st !! "security") in
  run
    match securityAgent with
    | Some sec =>
        let* now := gets clock in
        let* securityResult := await (analyzeRequest sec now userInput ctx) in
        if String.eqb (threatLevel securityResult) "high"
        then throw "Security threat detected"
        else if requiresAuthorization securityResult
                && bool_decide (authorizationLevel ctx = Some "guest")
        then throw "Authorization required"
        else ret tt
    | None => ret tt
    end in
  if containsSensitiveData userInput then throw "Sensitive data detected"
  else ret tt.

Definition fallbackPlan : TaskPlan :=
  mkPlan "unknown"
    [ mkStep "voice" "respond"
        (Some [("message", PString "I need more information to help with that.")])
        false ].

Definition createTaskPlan (userInput : string) (ctx : Context) : M TaskPlan :=
  let* reasoningAgent := gets (fun st => agents st !! "reasoning") in
  match reasoningAgent with
  | Some reasoning =>
      let* now := gets clock in
      await (analyzeIntent reasoning now userInput ctx)
  | None => ret fallbackPlan
  end.

(** The object returned to the caller. *)
Inductive Response :=
| Accepted (taskId : string) (msg : string) (estimatedTime : Z)
| Rejected (taskId : string) (error : string) (reason : string).

(** The statements of the [try] block before [addTask]. *)
Definition checkAndPlan (userInput : string) (ctx : Context) : M TaskPlan :=
  run performSecurityCheck userInput ctx in
  createTaskPlan userInput ctx.

(** [processTasks()] is called without [await]: what it throws, if anything,
    rejects its own promise and does not reach the caller. *)
Definition detached (c : M unit) : M unit :=
  fun st => (Returned tt, snd (c st)).

Definition processUserRequest (userInput : string) (ctx : Context) (random : string)
  : M Response :=
  let* taskId := generateTaskId random in
  try_catch
    (let* taskPlan := checkAndPlan userInput ctx in
     let* now := gets clock in
     let* mainTask :=
       newObject (mkTask taskId "user_request" taskPriorities_user_request userInput
                    ctx taskPlan Pending now taskTimeout None None None None) in
     run addTask mainTask in
     run detached processTasks in
     ret (Accepted taskId "Request received and being processed"
            (estimateTaskTime taskPlan)))
    (fun error =>
       ret (Rejected taskId (message error) (classifyError error))).

(** ** Composite operations *)

(** The state that [c] leaves when run from [st]. *)
Definition after {A : Type} (c : M A) (st : Coordinator) : Coordinator := (c st).2.

(** The task object is created and handed to [addTask]. *)
Definition submit (t : Task) : M unit :=
  let* task := newObject t in addTask task.

(** ** Vocabulary of the properties *)

(** [c] relates every state to the state it leaves. *)
Definition Keeps (R : relation Coordinator) {A : Type} (c : M A) : Prop :=
  forall st, R st (c st).2.

(** The state after an exchange with an agent: the events are logged and
    the clock reads the time at which execution resumes. *)
Definition resumed (events : list Event) (t : Z) (st : Coordinator) : Coordinator :=
  set_log (log st ++ events) (set_clock t st).

(** [quiet st st']: only the clock and the log differ, and the log has only
    grown.  Everything the step executor does is quiet: it reads the store
    and talks to agents. *)
Definition quiet (st st' : Coordinator) : Prop :=
  exists (t : Z) (events : list Event), st' = resumed events t st.

(** The capacity check as [executeTaskStep] makes it. *)
Definition hasCapacity (agentType : string) (st : Coordinator) : Prop :=
  exists config,
    agentConfig agentType = OwnConfig config
    /\ Z.of_nat (getAgentActiveTasks agentType st) < maxConcurrentTasks config.

(** [error.message.includes('Security') ||
     error.message.includes('Authorization')] *)
Definition securityClassified (e : Error) : bool :=
  includes (message e) "Security" || includes (message e) "Authorization".

(** The response text that goes with each branch of
    [generateUnifiedResponse]. *)
Definition responseFor (rs : list StepOutcome) (text : string) : Prop :=
  match classify rs with
  | ClassSuccess => generateSuccessResponse rs = Returned text
  | ClassPartial => text = generatePartialSuccessResponse rs
  | ClassFailure => text = generateFailureResponse rs
  end.

(** Whether the sweep at time [now] removes this entry of the store. *)
Definition sweeps (now : Z) (st : Coordinator) (entry : string * nat) : bool :=
  match objects st !! entry.2 with
  | Some t => expired now t
  | None => false
  end.

(** [maxConcurrentTasks] of a kind; a kind without a configuration of its
    own has none. *)
Definition capacity (agentType : string) : Z :=
  match agentConfig agentType with
  | OwnConfig config => maxConcurrentTasks config
  | _ => 0
  end.

Definition isCall (e : Event) : bool :=
  match e with
  | AgentInvoked _ _ | AgentSettled _ => true
  | _ => false
  end.

(** The number of invocations of [agentType] that a log shows as started
    and not yet settled. *)
Fixpoint inFlight (agentType : string) (events : list Event) : Z :=
  match events with
  | [] => 0
  | AgentInvoked kind _ :: rest =>
      (if String.eqb kind agentType then 1 else 0) + inFlight agentType rest
  | AgentSettled kind :: rest =>
      inFlight agentType rest - (if String.eqb kind agentType then 1 else 0)
  | _ :: rest => inFlight agentType rest
  end.

(** A log in which every invocation is settled before anything else
    happens, and is made of a kind that has capacity. *)
Inductive sequential : list Event -> Prop :=
| sequential_nil : sequential []
| sequential_call kind act rest :
    0 < capacity kind -> sequential rest ->
    sequential (AgentInvoked kind act :: AgentSettled kind :: rest)
| sequential_other e rest :
    isCall e = false -> sequential rest -> sequential (e :: rest).

(** [steady st st']: the queue, the registry, the number of task objects
    and their priorities are the same, and the log has grown by a
    sequential piece. *)
Definition steady (st st' : Coordinator) : Prop :=
  taskQueue st' = taskQueue st
  /\ agents st' = agents st
  /\ List.length (objects st') = List.length (objects st)
  /\ (forall r, priorityOf (objects st') r = priorityOf (objects st) r)
  /\ exists events, log st' = log st ++ events /\ sequential events.

(** What the event loop runs, one after the other: a task is submitted,
    [processTasks] runs to its end, [processTasks] starts and is left
    waiting for an agent, the retention sweep runs, an agent reports a task
    as failed, or time passes. *)
Inductive QueueOp :=
| Submit (t : Task)
| Dispatch
| StartDispatch
| Sweep
| AgentFailed (taskId : string) (error : Error)
| Tick (now : Z).

Definition applyOp (op : QueueOp) : M unit :=
  match op with
  | Submit t => submit t
  | Dispatch => processTasks
  | StartDispatch => startDispatch
  | Sweep => cleanupCompletedTasks
  | AgentFailed taskId error => handleTaskFailure taskId error
  | Tick now => advanceClock now
  end.

(** Each operation is a handler of its own: whatever one of them throws
    does not keep the later ones from running. *)
Definition history (ops : list QueueOp) (st : Coordinator) : Coordinator :=
  fold_left (fun st op => after (applyOp op) st) ops st.

(** The tasks submitted by a history, in order of submission. *)
Fixpoint submitted (ops : list QueueOp) : list Task :=
  match ops with
  | [] => []
  | Submit t :: rest => t :: submitted rest
  | _ :: rest => submitted rest
  end.

(** [a] goes before [b]: smaller key, or the same key and the smaller
    number. *)
Definition keyedBefore (key : nat -> Z) (a b : nat) : Prop :=
  key a < key b \/ (key a = key b /\ (a < b)%nat).

(** Task [a] goes before task [b]: lower priority value, or the same
    priority and submitted earlier.  Tasks are named by their position in
    the sequence of submissions. *)
Definition servedBefore (tasks : list Task) (a b : nat) : Prop :=
  keyedBefore (priorityOf tasks) a b.

(** [drained st st']: as [steady], except that tasks may have been taken
    off the front of the queue. *)
Definition drained (st st' : Coordinator) : Prop :=
  (exists n, taskQueue st' = drop n (taskQueue st))
  /\ agents st' = agents st
  /\ List.length (objects st') = List.length (objects st)
  /\ (forall r, priorityOf (objects st') r = priorityOf (objects st) r)
  /\ exists events, log st' = log st ++ events /\ sequential events.

(** The queue of [st] is in serving order with respect to the submitted
    [tasks], which are the task objects of [st] as far as priorities go. *)
Definition ordered (tasks : list Task) (st : Coordinator) : Prop :=
  List.length (objects st) = List.length tasks
  /\ (forall r, priorityOf (objects st) r = priorityOf tasks r)
  /\ Forall (fun r => (r < List.length tasks)%nat) (taskQueue st)
  /\ StronglySorted (servedBefore tasks) (taskQueue st).

(** Every task that is still pending waits in the queue, and the queue
    holds references of the store. *)
Definition pendingQueued (st : Coordinator) : Prop :=
  Forall (fun r => (r < List.length (objects st))%nat) (taskQueue st)
  /\ forall r t, objects st !! r = Some t -> status t = Pending -> r ∈ taskQueue st.




(** ** Sample agents and tasks for the examples *)

(** An agent that answers [text] after [latency] ms, finds no threat, plans
    with the fallback plan, and grants confirmations iff [grants]. *)
Definition sampleAgent (text : string) (latency : Z) (grants : bool) : AgentHandle :=
  mkHandle
    (fun now _ _ _ => mkAwaited (now + latency) (Returned (mkAgentResult false (Some text))))
    (fun now _ _ => mkAwaited now (Returned (mkSecurityResult "low" false)))
    (fun now _ _ => mkAwaited now (Returned grants))
    (fun now _ _ => mkAwaited now (Returned fallbackPlan))
    (fun _ _ => Returned "professional").

Definition plainContext : Context := mkContext None None None None.

Definition sampleTask (id : string) (p : Z) (plan_steps : list Step) : Task :=
  mkTask id "user_request" p "request" plainContext (mkPlan "unknown" plan_steps)
    Pending 0 taskTimeout None None None None.

(** An agent whose results carry a truthy [complete]. *)
Definition completingAgent : AgentHandle :=
  mkHandle
    (fun now _ _ _ => mkAwaited (now + 5) (Returned (mkAgentResult true (Some "all done"))))
    (fun now _ _ => mkAwaited now (Returned (mkSecurityResult "low" false)))
    (fun now _ _ => mkAwaited now (Returned true))
    (fun now _ _ => mkAwaited now (Returned fallbackPlan))
    (fun _ _ => Returned "professional").

(** A coordinator created at time 0 with the given registrations. *)
Definition withAgents (registrations : list (string * AgentHandle)) : Coordinator :=
  foldr (fun reg st => after (registerAgent reg.1 reg.2) st) (newCoordinator 0) registrations.

Definition deleteScene : Step := mkStep "smart_home" "delete_scene" None false.
Definition lightsOn : Step := mkStep "smart_home" "lights_on" None false.
Definition lightsOff : Step := mkStep "smart_home" "lights_off" None false.
Definition runBackup : Step := mkStep "automation" "run_backup" None false.
Definition analyze : Step := mkStep "reasoning" "analyze" None false.
Definition deleteCache : Step := mkStep "reasoning" "delete_cache" None false.
Definition speak : Step := mkStep "voice" "respond" None false.

(** The security agent refuses; the first step needs confirmation. *)
Definition refusedStore : Coordinator :=
  history [Submit (sampleTask "t1" 2 [deleteScene; lightsOn])]
    (withAgents [("security", sampleAgent "no" 1 false);
                 ("smart_home", sampleAgent "done" 5 false)]).

(** [automation] has no configuration entry and is never registered. *)
Definition unregisteredStore : Coordinator :=
  history [Submit (sampleTask "t1" 2 [runBackup; analyze])]
    (withAgents [("reasoning", sampleAgent "analysed" 5 false)]).

(** No security agent is registered; the step is sensitive, and its task
    has just been started. *)
Definition noGateStore : Coordinator :=
  history [Submit (sampleTask "t1" 2 [deleteCache]); StartDispatch]
    (withAgents [("reasoning", sampleAgent "analysed" 5 false)]).

(** A security agent that grants; the step is sensitive, and its task has
    just been started. *)
Definition grantedStore : Coordinator :=
  history [Submit (sampleTask "t1" 2 [deleteCache]); StartDispatch]
    (withAgents [("security", sampleAgent "yes" 1 true);
                 ("reasoning", sampleAgent "analysed" 5 false)]).

(** Every result of the agent says [complete]. *)
Definition completingStore : Coordinator :=
  history [Submit (sampleTask "t1" 2 [lightsOn; lightsOff])]
    (withAgents [("smart_home", completingAgent)]).

(** A three-step task whose second step meets an agent at capacity. *)
Definition partialStore : Coordinator :=
  history [Submit (sampleTask "t1" 2 [lightsOn; speak; lightsOff])]
    (withAgents [("voice", sampleAgent "spoken" 5 false);
                 ("smart_home", sampleAgent "done" 5 false)]).

(** A task that finished at time 5, looked at five minutes later. *)
Definition finishedStore : Coordinator :=
  history [Submit (sampleTask "t1" 2 [lightsOn]); Dispatch; Tick 300006]
    (withAgents [("smart_home", sampleAgent "done" 5 false)]).

(** An agent whose calls are rejected with [reason]. *)
Definition rejectingAgent (reason : string) : AgentHandle :=
  mkHandle
    (fun now _ _ _ => mkAwaited (now + 5) (Thrown (mkError reason)))
    (fun now _ _ => mkAwaited now (Returned (mkSecurityResult "low" false)))
    (fun now _ _ => mkAwaited now (Returned false))
    (fun now _ _ => mkAwaited now (Returned fallbackPlan))
    (fun _ _ => Returned "professional").

Definition rejectingStore : Coordinator :=
  history [Submit (sampleTask "t1" 2 [lightsOn; lightsOff])]
    (withAgents [("smart_home", rejectingAgent "Security policy violation")]).

(** The dispatcher has taken a task with one [voice] step and started it;
    [executeTaskStep] is about to make its capacity check. *)
Definition voiceCheckStore : Coordinator :=
  history [Submit (sampleTask "t1" 2 [speak]); StartDispatch]
    (withAgents [("voice", sampleAgent "spoken" 5 false)]).

(** A single step that is critical and sensitive; the security agent
    refuses. *)
Definition criticalRefusedStore : Coordinator :=
  history [Submit (sampleTask "t1" 2 [mkStep "smart_home" "delete_scene" None true])]
    (withAgents [("security", sampleAgent "no" 1 false);
                 ("smart_home", sampleAgent "done" 5 false)]).

(** ** Events from agents

    [registerAgent] subscribes the coordinator to each agent's
    [task_completed] and [task_failed] events; the handlers are the
    methods below ([handleTaskFailure] is above, with the dispatcher). *)

(** [getStepResult] is a stub: it answers [null] for every step. *)
Definition getStepResult (taskId : string) (step : Step) : option StepOutcome := None.

Definition completeTask (taskId : string) : M unit :=
  let* found := gets (fun st => activeTasks st !! taskId) in
  match found with
  | Some task =>
      let* now := gets clock in
      run updateTask task (fun t => set_completed now (set_status Completed t)) in
      emit (Emitted_task_completed taskId)
  | None => ret tt
  end.

(** [stepResult && stepResult.success] *)
Definition stepDone (taskId : string) (step : Step) : bool :=
  match getStepResult taskId step with
  | Some stepResult => success stepResult
  | None => false
  end.

Definition checkTaskCompletion (taskId : string) : M unit :=
  let* found := gets (fun st => activeTasks st !! taskId) in
  match found with
  | None => ret tt
  | Some task =>
      let* t := deref task in
      if negb (isExecuting t) then ret tt
      else
        let requiredAgents : gset string := list_to_set (map agent (steps (plan t))) in
        let completedAgents : gset string :=
          list_to_set (map agent (List.filter (stepDone taskId) (steps (plan t)))) in
        if bool_decide (size completedAgents = size requiredAgents)
        then completeTask taskId
        else ret tt
  end.

(** ** System state and performance metrics

    The three metrics are JavaScript numbers that take fractional values:
    they are binary64 floats. *)

Record PerformanceMetrics := mkMetrics {
  taskCompletionRate : float;
  averageResponseTime : float;
  errorRate : float
}.

Record SystemState := mkSystemState {
  currentMode : string;
  sys_userEmotion : string;
  sys_authorizationLevel : string;
  activeServices : gset string;
  performanceMetrics : PerformanceMetrics
}.

(** [this.systemState] as the constructor leaves it. *)
Definition newSystemState : SystemState :=
  mkSystemState "monitoring" "neutral" "guest" ∅ (mkMetrics 0 0 0).

(** [Math.min] of two numbers: [NaN] if either is, and [-0] below [+0]. *)
Definition Math_min (a b : float) : float :=
  if (PrimFloat.is_nan a || PrimFloat.is_nan b)%bool then PrimFloat.nan
  else if PrimFloat.ltb a b then a
  else if PrimFloat.ltb b a then b
  else if (PrimFloat.is_zero a && PrimFloat.get_sign a)%bool then a
  else b.

(** A number in a condition: every number but [0], [-0] and [NaN]. *)
Definition truthyNumber (x : float) : bool :=
  negb (PrimFloat.is_nan x || PrimFloat.is_zero x).

(** [0.01] and [0.02] as JavaScript reads them: the nearest binary64. *)
Definition completionStep : float := 0x1.47ae147ae147bp-7.
Definition errorStep : float := 0x1.47ae147ae147bp-6.

(** [data] is the payload of the agent's event as far as the method reads
    it: its [executionTime], when it has one (a number). *)
Definition updatePerformanceMetrics (succeeded : bool) (data : option float)
  (metrics : PerformanceMetrics) : PerformanceMetrics :=
  if succeeded then
    let rate := Math_min 1 (PrimFloat.add (taskCompletionRate metrics) completionStep) in
    let currentAvg := averageResponseTime metrics in
    let avg :=
      match data with
      | Some executionTime =>
          if truthyNumber executionTime
          then if PrimFloat.eqb currentAvg 0 then executionTime
               else PrimFloat.div (PrimFloat.add currentAvg executionTime) 2
          else currentAvg
      | None => currentAvg
      end in
    mkMetrics rate avg (errorRate metrics)
  else
    mkMetrics (taskCompletionRate metrics) (averageResponseTime metrics)
      (Math_min 1 (PrimFloat.add (errorRate metrics) errorStep)).

Definition updateSystemState (agentType : string) (status_ : string) (data : option float)
  (sys : SystemState) : SystemState :=
  let metrics :=
    if String.eqb status_ "completed"
    then updatePerformanceMetrics true data (performanceMetrics sys)
    else if String.eqb status_ "failed"
    then updatePerformanceMetrics false data (performanceMetrics sys)
    else performanceMetrics sys in
  mkSystemState (currentMode sys) (sys_userEmotion sys) (sys_authorizationLevel sys)
    ({[agentType]} ∪ activeServices sys) metrics.

(** The two handlers work on [this.systemState] and on the tasks; the
    system state is threaded beside the coordinator's. *)
Definition handleAgentTaskCompleted (agentType taskId : string) (result : option float)
  (sys : SystemState) : M SystemState :=
  let sys' := updateSystemState agentType "completed" result sys in
  run checkTaskCompletion taskId in
  ret sys'.

Definition handleAgentTaskFailed (agentType taskId : string) (error : Error)
  (sys : SystemState) : M SystemState :=
  let sys' := updateSystemState agentType "failed" None sys in
  run handleTaskFailure taskId error in
  ret sys'.

(** ** The simulated reasoning and planning agents *)

(** Calling a method that the object does not have. *)
Definition notAFunction (callee : string) : Error :=
  mkError (callee +:+ " is not a function").

(** The keywords of [intents], in the order of [Object.entries]. *)
Definition intents : list (string * string) :=
  [ ("lights", "smart_home"); ("temperature", "smart_home");
    ("music", "entertainment"); ("weather", "information");
    ("time", "information"); ("help", "assistance") ].

Definition detectedIntent (userInput : string) : string :=
  match List.find (fun entry => includes (toLowerCase userInput) entry.1) intents with
  | Some entry => entry.2
  | None => "unknown"
  end.

(** What the simulated [analyzeIntent] resolves to ([confidence], a
    constant, is not read by the coordinator). *)
Definition simulatedPlan (userInput : string) : TaskPlan :=
  let detected := detectedIntent userInput in
  mkPlan detected
    [ mkStep (if String.eqb detected "smart_home" then "smart_home" else "voice")
        "respond"
        (Some [("message",
                PString ("I understand you want " +:+ detected +:+ ". Let me help with that."))])
        false ].

(** A plain [EventEmitter] with [analyzeIntent] added; it has none of the
    other methods, and calling one of them throws. *)
Definition reasoningAgent : AgentHandle :=
  mkHandle
    (fun now _ _ _ => mkAwaited now (Thrown (notAFunction "agent.execute")))
    (fun now _ _ => mkAwaited now (Thrown (notAFunction "securityAgent.analyzeRequest")))
    (fun now _ _ => mkAwaited now (Thrown (notAFunction "securityAgent.requestConfirmation")))
    (fun now userInput _ => mkAwaited now (Returned (simulatedPlan userInput)))
    (fun _ _ => Thrown (notAFunction "emotionAgent.determineResponseTone")).

(** A plain [EventEmitter] with [planTask] added, a method that the
    coordinator never calls. *)
Definition planningAgent : AgentHandle :=
  mkHandle
    (fun now _ _ _ => mkAwaited now (Thrown (notAFunction "agent.execute")))
    (fun now _ _ => mkAwaited now (Thrown (notAFunction "securityAgent.analyzeRequest")))
    (fun now _ _ => mkAwaited now (Thrown (notAFunction "securityAgent.requestConfirmation")))
    (fun now _ _ => mkAwaited now (Thrown (notAFunction "reasoningAgent.analyzeIntent")))
    (fun _ _ => Thrown (notAFunction "emotionAgent.determineResponseTone")).

Definition createReasoningAgent : M unit := registerAgent "reasoning" reasoningAgent.

Definition createPlanningAgent : M unit := registerAgent "planning" planningAgent.

(** ** initialize *)

Definition availableAgents : list string :=
  [ "security"; "face"; "voice"; "emotion";
    "automation"; "smart_home"; "reasoning"; "planning" ].

(** The body of the [for] loop: [services[agentType]], when there is one,
    is registered, and what [registerAgent] throws is logged and dropped. *)
Definition registerService (services : gmap string AgentHandle) (agentType : string) : M unit :=
  match services !! agentType with
  | Some service => try_catch (registerAgent agentType service) (fun _ => ret tt)
  | None => ret tt
  end.

Fixpoint forEach {A : Type} (body : A -> M unit) (l : list A) : M unit :=
  match l with
  | [] => ret tt
  | x :: rest => run body x in forEach body rest
  end.

(** [this.services] is kept for [setupServiceListeners] and
    [getServiceStatus] only; [setupServiceListeners] subscribes handlers to
    the services and changes nothing of the coordinator;
    [coordinator_initialized] is not one of the notifications that the log
    keeps. *)
Definition initialize (services : gmap string AgentHandle) : M unit :=
  run forEach (registerService services) availableAgents in
  run createReasoningAgent in
  createPlanningAgent.

(** ** handleSecurityAlert *)

Record Alert := mkAlert { level : string; alert_message : string }.

(** [{ alert: alert }]: none of the properties that the coordinator reads
    of a context. *)
Definition alertContext : Context := mkContext None None None None.

(** The plan of a security task has no [intent]; nothing reads it. *)
Definition alertPlan : TaskPlan :=
  mkPlan "" [ mkStep "security" "handle_alert" (Some [("alert", PObject)]) false ].

Definition handleSecurityAlert (alert : Alert) (random : string) : M unit :=
  if String.eqb (level alert) "high" then
    let* id := generateTaskId random in
    let* now := gets clock in
    let* securityTask :=
      newObject (mkTask id "security" taskPriorities_security
                   ("Security alert: " +:+ alert_message alert) alertContext alertPlan
                   Pending now 10000 None None None None) in
    addTask securityTask
  else ret tt.

(** ** destroy

    The listeners go, the queue and both maps are emptied; the registry and
    the two timers of the constructor stay. *)
Definition destroy : M unit :=
  modify (fun st => set_taskResults ∅ (set_activeTasks ∅ (set_taskQueue [] st))).

(** ** Further vocabulary of the properties *)

(** A task that the dispatcher is done with. *)
Definition settled (t : Task) : Prop :=
  (status t = Completed \/ status t = Failed) /\ is_Some (completed t).

(** [untouched r st st']: every task object but the one at [r] is the same. *)
Definition untouched (r : nat) (st st' : Coordinator) : Prop :=
  forall r', r' <> r -> objects st' !! r' = objects st !! r'.

(** What a task is, as opposed to how far it has got. *)
Definition sameTask (t t' : Task) : Prop :=
  task_id t' = task_id t /\ task_type t' = task_type t /\ priority t' = priority t
  /\ input t' = input t /\ context t' = context t /\ plan t' = plan t
  /\ created t' = created t /\ task_timeout t' = task_timeout t.

(** [evolved st st']: the same tasks are stored under the same ids, no task
    object has appeared or changed what it is, and the registry is the
    same. *)
Definition evolved (st st' : Coordinator) : Prop :=
  activeTasks st' = activeTasks st
  /\ agents st' = agents st
  /\ List.length (objects st') = List.length (objects st)
  /\ (forall r t, objects st !! r = Some t ->
        exists t', objects st' !! r = Some t' /\ sameTask t t').

(** The task at [r] is one that the dispatcher is done with. *)
Definition settledAt (st : Coordinator) (r : nat) : Prop :=
  exists t, objects st !! r = Some t /\ settled t.

(** The sum that [estimateTaskTime] caps. *)
Definition plannedTime (plan_steps : list Step) : Z :=
  fold_left (fun total step => total + timeoutOr10000 (agent step)) plan_steps 0.

(** A step that [executeTaskStep] runs without asking for confirmation. *)
Definition needsNoConfirmation (t : Task) (step : Step) : Prop :=
  isSensitiveOperation step = false \/ alreadyConfirmed t step = true.

(** The step of an outcome. *)
Definition stepOf (r : StepOutcome) : Step :=
  match r with
  | StepSucceeded _ step => step
  | StepFailed _ step => step
  end.

(** All 256 characters. *)
Definition allAscii : list ascii := map ascii_of_nat (seq 0 256).

(** Every match of [r] consumes at least one character of the class [P]. *)
Fixpoint consumes (P : ascii -> bool) (r : Regex) : bool :=
  match r with
  | RChar p => forallb (fun c => implb (p c) (P c)) allAscii
  | RSeq r1 r2 => consumes P r1 || consumes P r2
  | _ => false
  end.

(** The characters without which no pattern of [containsSensitiveData]
    matches: a digit, a colon or an equals sign. *)
Definition telltale (c : ascii) : bool := (isDigit c || oneOf ":=" c)%bool.

Fixpoint allChars (P : ascii -> bool) (s : string) : bool :=
  match s with
  | EmptyString => true
  | String c s' => P c && allChars P s'
  end.

(** The metrics after a sequence of agent events, each a success or a
    failure with its payload. *)
Definition metricsAfter (events : list (bool * option float)) : PerformanceMetrics :=
  fold_left (fun metrics event => updatePerformanceMetrics event.1 event.2 metrics)
    events (performanceMetrics newSystemState).

(** The words after which the privacy check looks for an assignment, in
    any letter case: [password], [token], and [api] and [key] written
    together or joined by [_] or [-]. *)
Definition credentialWord (w : string) : Prop :=
  toLowerCase w = "password" \/ toLowerCase w = "token"
  \/ exists a joint k,
       w = a +:+ joint +:+ k /\ toLowerCase a = "api" /\ toLowerCase k = "key"
       /\ (joint = "" \/ joint = "_" \/ joint = "-").

(** What the security agent, if one is registered, answers to
    [analyzeRequest] for a request made in [st]. *)
Definition securityVerdict (st : Coordinator) (userInput : string) (ctx : Context)
  : option (Result SecurityResult) :=
  match agents st !! "security" with
  | Some sec => Some (settles_with (analyzeRequest sec (clock st) userInput ctx))
  | None => None
  end.

(** The task object that [processUserRequest] creates. *)
Definition mainTask (taskId userInput : string) (ctx : Context) (taskPlan : TaskPlan)
  (now : Z) : Task :=
  mkTask taskId "user_request" taskPriorities_user_request userInput ctx taskPlan
    Pending now taskTimeout None None None None.

(** The registry with [services[kind]] put under [kind], when there is
    such a service. *)
Definition withService (services : gmap string AgentHandle) (kind : string)
  (registry : gmap string AgentHandle) : gmap string AgentHandle :=
  match services !! kind with
  | Some service => <[kind := service]> registry
  | None => registry
  end.

(** The task object that [handleSecurityAlert] creates. *)
Definition securityTask (taskId : string) (alert : Alert) (now : Z) : Task :=
  mkTask taskId "security" taskPriorities_security
    ("Security alert: " +:+ alert_message alert) alertContext alertPlan
    Pending now 10000 None None None None.

(** No task object is being executed. *)
Definition noneExecuting (st : Coordinator) : Prop :=
  Forall (fun t => status t <> Executing) (objects st).

(** ** The threat detector behind the security agent

    [SecurityManager.analyzeRequest] takes the threat level of a request
    from [ThreatDetectionSystem.analyze] (both in the security service).
    The detector's patterns are regular expressions with the [g] flag, used
    through [test]: such an expression keeps [lastIndex], the index at
    which its next search starts.  Every pattern of the detector is a fixed
    sequence of character tests. *)

Module ThreatDetectionSystem.

Definition Pattern : Type := list (ascii -> bool).

Definition exactly (d c : ascii) : bool := Nat.eqb (nat_of_ascii c) (nat_of_ascii d).

(** A literal, and a literal under the [i] flag. *)
Definition chars (s : string) : Pattern := map exactly (list_ascii_of_string s).
Definition chars_i (s : string) : Pattern := map ignoreCase (list_ascii_of_string s).

(** [[a-z]] under the [i] flag. *)
Definition isLetter (c : ascii) : bool := (inRange 65 90 c || inRange 97 122 c)%bool.

Definition threatPatterns : list Pattern :=
  [ chars "rm -rf /";
    chars_i "format " ++ [isLetter] ++ chars_i ":";
    chars_i "shutdown -s";
    chars_i "del *.*";
    chars_i "system32";
    chars_i "etc/passwd" ].

Definition suspiciousPatterns : list Pattern :=
  [ chars_i "select * from"; chars_i "drop table"; chars_i "exec(";
    chars_i "eval("; chars_i "javascript:"; chars_i "<script" ].

Fixpoint matchesAt (p : Pattern) (text : list ascii) : bool :=
  match p, text with
  | [], _ => true
  | _ :: _, [] => false
  | accepts :: p', c :: text' => accepts c && matchesAt p' text'
  end.

(** The first index at which [p] matches, for [text] that starts at
    index [i] of the input. *)
Fixpoint findFrom (p : Pattern) (text : list ascii) (i : nat) : option nat :=
  if matchesAt p text then Some i
  else match text with
       | [] => None
       | _ :: text' => findFrom p text' (S i)
       end.

(** The first match of [p] in [input] at or after index [from]. *)
Definition occurs (p : Pattern) (input : string) (from : nat) : option nat :=
  findFrom p (drop from (list_ascii_of_string input)) from.

Record GlobalRegExp := mkGlobal { source : Pattern; lastIndex : nat }.

(** [RegExp.prototype.test] of an expression with the [g] flag: the search
    starts at [lastIndex]; a match moves [lastIndex] to its end, a failure
    sets it back to 0. *)
Definition test (r : GlobalRegExp) (input : string) : bool * GlobalRegExp :=
  if (String.length input <? lastIndex r)%nat then (false, mkGlobal (source r) 0)
  else match occurs (source r) input (lastIndex r) with
       | Some i => (true, mkGlobal (source r) (i + List.length (source r)))
       | None => (false, mkGlobal (source r) 0)
       end.

(** A pattern that has not been used, or has just failed. *)
Definition fresh (p : Pattern) : GlobalRegExp := mkGlobal p 0.
Definition reset (r : GlobalRegExp) : GlobalRegExp := mkGlobal (source r) 0.

Record Detector := mkDetector {
  threats : list GlobalRegExp;
  suspicious : list GlobalRegExp
}.

(** The detector as its constructor leaves it. *)
Definition newDetector : Detector :=
  mkDetector (map (fun p => mkGlobal p 0) threatPatterns)
             (map (fun p => mkGlobal p 0) suspiciousPatterns).

(** [for (const pattern of patterns) if (pattern.test(input)) { ...; break; }]:
    whether a pattern matched, and the patterns as the loop leaves them. *)
Fixpoint firstMatch (patterns : list GlobalRegExp) (input : string)
  : bool * list GlobalRegExp :=
  match patterns with
  | [] => (false, [])
  | r :: rest =>
      let (found, r') := test r input in
      if found then (true, r' :: rest)
      else let (later, rest') := firstMatch rest input in (later, r' :: rest')
  end.

(** The [threatLevel] of [analyze]'s result, and the detector afterwards.
    [analyzeBehavior] is a stub that finds nothing unusual, so the third
    check changes nothing. *)
Definition analyze (d : Detector) (input : string) : string * Detector :=
  let (direct, threats') := firstMatch (threats d) input in
  if direct then ("high", mkDetector threats' (suspicious d))
  else
    let (suspect, suspicious') := firstMatch (suspicious d) input in
    (if suspect then "medium" else "low", mkDetector threats' suspicious').

End ThreatDetectionSystem.

(** * Properties *)

(** ** What a computation leaves alone *)

Section Keeps.
Context (R : relation Coordinator) `{!PreOrder R}.

Lemma Keeps_ret {A : Type} (a : A) : Keeps R (ret a).
Proof. intros st. reflexivity. Qed.

Lemma Keeps_throw {A : Type} (msg : string) : Keeps R (@throw A msg).
Proof. intros st. reflexivity. Qed.

Lemma Keeps_rethrow {A : Type} (e : Error) : Keeps R (@rethrow A e).
Proof. intros st. reflexivity. Qed.

Lemma Keeps_gets {A : Type} (f : Coordinator -> A) : Keeps R (gets f).
Proof. intros st. reflexivity. Qed.

Lemma Keeps_deref (r : nat) : Keeps R (deref r).
Proof. intros st. unfold deref. destruct (objects st !! r); reflexivity. Qed.

Lemma Keeps_isAgentAvailable (agentType : string) : Keeps R (isAgentAvailable agentType).
Proof.
  intros st. unfold isAgentAvailable.
  destruct (agents st !! agentType); [|reflexivity].
  destruct (agentConfig agentType); reflexivity.
Qed.

Lemma Keeps_bind {A B : Type} (c : M A) (k : A -> M B) :
  Keeps R c -> (forall a, Keeps R (k a)) -> Keeps R (bind c k).
Proof.
  intros Hc Hk st. unfold bind. specialize (Hc st).
  destruct (c st) as [[a|e] st1]; simpl in *; [|assumption].
  etransitivity; [eassumption|apply Hk].
Qed.

Lemma Keeps_try_catch {A : Type} (c : M A) (h : Error -> M A) :
  Keeps R c -> (forall e, Keeps R (h e)) -> Keeps R (try_catch c h).
Proof.
  intros Hc Hh st. unfold try_catch. specialize (Hc st).
  destruct (c st) as [[a|e] st1]; simpl in *; [assumption|].
  etransitivity; [eassumption|apply Hh].
Qed.

End Keeps.

Create HintDb keeps.
#[export] Hint Resolve Keeps_ret Keeps_throw Keeps_rethrow Keeps_gets Keeps_deref
  Keeps_isAgentAvailable : keeps.

(** Breaks a computation into its statements. *)
Ltac keeps_steps :=
  repeat first
    [ progress auto with keeps typeclass_instances
    | apply Keeps_bind; [try typeclasses eauto .. | intros]
    | apply Keeps_try_catch; [try typeclasses eauto .. | intros]
    | match goal with
      | |- Keeps _ (match ?x with _ => _ end) => destruct x
      | |- Keeps _ (if ?b then _ else _) => destruct b
      end ].

(** *** Quiet computations *)

Lemma resumed_quiet events t st : quiet st (resumed events t st).
Proof. exists t, events. reflexivity. Qed.

#[export] Instance quiet_preorder : PreOrder quiet.
Proof.
  split.
  - intros st. exists (clock st), []. destruct st; unfold resumed, set_log, set_clock; simpl.
    rewrite app_nil_r. reflexivity.
  - intros st1 st2 st3 (t1 & e1 & ->) (t2 & e2 & ->).
    exists t2, (e1 ++ e2). unfold resumed, set_log, set_clock; simpl.
    rewrite app_assoc. reflexivity.
Qed.

Lemma quiet_objects st st' : quiet st st' -> objects st' = objects st.
Proof. intros (t & e & ->). reflexivity. Qed.

Lemma quiet_agents st st' : quiet st st' -> agents st' = agents st.
Proof. intros (t & e & ->). reflexivity. Qed.

Lemma quiet_activeTasks st st' : quiet st st' -> activeTasks st' = activeTasks st.
Proof. intros (t & e & ->). reflexivity. Qed.

Lemma quiet_taskQueue st st' : quiet st st' -> taskQueue st' = taskQueue st.
Proof. intros (t & e & ->). reflexivity. Qed.

Lemma quiet_log st st' : quiet st st' -> exists events, log st' = log st ++ events.
Proof. intros (t & e & ->). exists e. reflexivity. Qed.

Lemma Quiet_emit (e : Event) : Keeps quiet (emit e).
Proof. intros st. exists (clock st), [e]. destruct st; reflexivity. Qed.

Lemma Quiet_await {A : Type} (p : Awaited A) : Keeps quiet (await p).
Proof.
  intros st. exists (Z.max (clock st) (settles_at p)), [].
  destruct st; unfold await, resumed, set_log, set_clock; simpl.
  rewrite app_nil_r. reflexivity.
Qed.

Lemma Quiet_withTimeout {A : Type} (p : Awaited A) (ms : Z) (msg : string) :
  Keeps quiet (withTimeout p ms msg).
Proof.
  intros st. unfold withTimeout.
  destruct (settles_at p <=? clock st + ms); [apply Quiet_await|].
  exists (clock st + ms), []. destruct st; unfold resumed, set_log, set_clock; simpl.
  rewrite app_nil_r. reflexivity.
Qed.

#[export] Hint Resolve Quiet_emit Quiet_await Quiet_withTimeout : keeps.

Lemma Quiet_confirmSensitiveOperation (task : nat) (step : Step) :
  Keeps quiet (confirmSensitiveOperation task step).
Proof. unfold confirmSensitiveOperation. keeps_steps. Qed.

Lemma Quiet_invokeAgent (handle : AgentHandle) (task : nat) (step : Step) :
  Keeps quiet (invokeAgent handle task step).
Proof. unfold invokeAgent, configuredTimeout. keeps_steps. Qed.

#[export] Hint Resolve Quiet_confirmSensitiveOperation Quiet_invokeAgent : keeps.

Lemma Quiet_executeTaskStep (task : nat) (step : Step) :
  Keeps quiet (executeTaskStep task step).
Proof. unfold executeTaskStep. keeps_steps. Qed.

Lemma Quiet_canContinueOnError (task : nat) (step : Step) (error : Error) :
  Keeps quiet (canContinueOnError task step error).
Proof. unfold canContinueOnError. keeps_steps. Qed.

#[export] Hint Resolve Quiet_executeTaskStep Quiet_canContinueOnError : keeps.

(** The loop over a plan relates the states as its steps do. *)
Lemma Keeps_runSteps (R : relation Coordinator) `{!PreOrder R} (task : nat) :
  (forall step, Keeps R (executeTaskStep task step)) ->
  (forall step e, Keeps R (canContinueOnError task step e)) ->
  forall plan_steps results, Keeps R (runSteps task plan_steps results).
Proof.
  intros Hstep Hcan plan_steps.
  induction plan_steps as [|step rest IH]; intros results st; simpl.
  - reflexivity.
  - pose proof (Hstep step st) as H1.
    destruct (executeTaskStep task step st) as [[stepResult|error] st1]; simpl in *.
    + etransitivity; [eassumption|apply IH].
    + etransitivity; [eassumption|].
      apply (Keeps_bind R (canContinueOnError task step error)); [apply Hcan|].
      intros [|]; simpl; [apply IH|apply Keeps_rethrow; assumption].
Qed.

Lemma Quiet_runSteps (task : nat) (plan_steps : list Step) (results : list StepOutcome) :
  Keeps quiet (runSteps task plan_steps results).
Proof. apply Keeps_runSteps; auto with keeps typeclass_instances. Qed.

Lemma Quiet_checkAndPlan (userInput : string) (ctx : Context) :
  Keeps quiet (checkAndPlan userInput ctx).
Proof.
  unfold checkAndPlan, performSecurityCheck, createTaskPlan. keeps_steps.
Qed.

(** ** The registry *)

Lemma registerAgent_known (agentType : string) (h : AgentHandle) (st : Coordinator) :
  agentConfig agentType <> Undefined ->
  registerAgent agentType h st =
    (Returned tt,
     set_agents (<[agentType := h]> (agents st))
       (<[agentType := capabilitiesOf (agentConfig agentType)]> (agentCapabilities st)) st).
Proof.
  intros Hk. unfold registerAgent.
  destruct (agentConfig agentType); try reflexivity. congruence.
Qed.

Lemma registerAgent_unknown (agentType : string) (h : AgentHandle) (st : Coordinator) :
  agentConfig agentType = Undefined ->
  registerAgent agentType h st =
    (Thrown (mkError ("Unknown agent type: " +:+ agentType)), st).
Proof. intros Hk. unfold registerAgent. rewrite Hk. reflexivity. Qed.

(** ** Submission *)

Lemma classifyError_classes (e : Error) :
  In (classifyError e) ["security"; "authorization"; "timeout"; "network"; "unknown"].
Proof.
  unfold classifyError.
  repeat match goal with |- context [if ?b then _ else _] => destruct b end;
    simpl; auto 10.
Qed.

Lemma estimateTaskTime_le (p : TaskPlan) : estimateTaskTime p <= taskTimeout.
Proof. unfold estimateTaskTime. apply Z.le_min_r. Qed.

(** C7.  [processUserRequest] always returns an object and never throws:
    when the checks made before the task is queued (the security check,
    the privacy check, the planning call) throw [e], it returns
    [{taskId, status: 'rejected', error: e.message, reason: classifyError(e)}]
    with the reason one of the five classes, and no task has been created;
    when they pass with plan [p], it returns
    [{taskId, status: 'accepted', message, estimatedTime: estimateTaskTime(p)}]. *)
Theorem processUserRequest_never_throws
  (userInput : string) (ctx : Context) (random : string) (st : Coordinator) :
  let taskId := "task_" +:+ pretty (clock st) +:+ "_" +:+ random in
  match checkAndPlan userInput ctx st with
  | (Thrown e, st1) =>
      processUserRequest userInput ctx random st
        = (Returned (Rejected taskId (message e) (classifyError e)), st1)
      /\ In (classifyError e) ["security"; "authorization"; "timeout"; "network"; "unknown"]
      /\ objects st1 = objects st /\ taskQueue st1 = taskQueue st
      /\ activeTasks st1 = activeTasks st
  | (Returned taskPlan, st1) =>
      exists st2,
        processUserRequest userInput ctx random st
          = (Returned (Accepted taskId "Request received and being processed"
                         (estimateTaskTime taskPlan)), st2)
        /\ estimateTaskTime taskPlan <= taskTimeout
  end.
Proof.
  intros taskId.
  destruct (checkAndPlan userInput ctx st) as [[taskPlan|e] st1] eqn:Hc.
  - eexists. split; [|apply estimateTaskTime_le].
    unfold processUserRequest, generateTaskId, bind, try_catch, gets, ret. simpl.
    rewrite Hc. simpl. unfold newObject, addTask, bind, deref. simpl.
    rewrite list_lookup_middle by reflexivity. simpl.
    unfold modify, detached. simpl. reflexivity.
  - split; [|split; [apply classifyError_classes|]].
    + unfold processUserRequest, generateTaskId, bind, try_catch, gets, ret. simpl.
      rewrite Hc. reflexivity.
    + pose proof (Quiet_checkAndPlan userInput ctx st) as Hq.
      rewrite Hc in Hq. simpl in Hq.
      rewrite (quiet_objects _ _ Hq), (quiet_taskQueue _ _ Hq),
        (quiet_activeTasks _ _ Hq). auto.
Qed.

(** C9, as the code has it.  [registerAgent] has no duplicate check: for a
    kind that is already registered, a second call succeeds whenever the
    kind has an [agentConfig] entry, and the new handle replaces the old one
    (other kinds, the tasks and the queue are untouched); the only failure
    is [Unknown agent type] for a kind without an entry, which leaves the
    coordinator as it was. *)
Theorem registerAgent_again_replaces
  (agentType : string) (old new : AgentHandle) (st : Coordinator) :
  agents st !! agentType = Some old ->
  match agentConfig agentType with
  | Undefined =>
      registerAgent agentType new st
        = (Thrown (mkError ("Unknown agent type: " +:+ agentType)), st)
  | _ =>
      exists st',
        registerAgent agentType new st = (Returned tt, st')
        /\ agents st' !! agentType = Some new
        /\ (forall other, other <> agentType -> agents st' !! other = agents st !! other)
        /\ objects st' = objects st /\ activeTasks st' = activeTasks st
        /\ taskQueue st' = taskQueue st
  end.
Proof.
  intros _.
  destruct (agentConfig agentType) eqn:Hc.
  - eexists. rewrite registerAgent_known by congruence.
    split; [reflexivity|]. simpl. split; [apply lookup_insert_eq|].
    split; [|auto]. intros other Hne. apply lookup_insert_ne. congruence.
  - eexists. rewrite registerAgent_known by congruence.
    split; [reflexivity|]. simpl. split; [apply lookup_insert_eq|].
    split; [|auto]. intros other Hne. apply lookup_insert_ne. congruence.
  - apply registerAgent_unknown. assumption.
Qed.

Lemma registerAgent_again_replaces_witness :
  let st := after (registerAgent "voice" (sampleAgent "first" 5 false)) (newCoordinator 0) in
  agents st !! "voice" = Some (sampleAgent "first" 5 false)
  /\ exists st',
       registerAgent "voice" (sampleAgent "second" 5 false) st = (Returned tt, st')
       /\ agents st' !! "voice" = Some (sampleAgent "second" 5 false).
Proof.
  intros st.
  assert (H : agents st !! "voice" = Some (sampleAgent "first" 5 false))
    by (vm_compute; reflexivity).
  split; [exact H|].
  pose proof (registerAgent_again_replaces "voice" _ (sampleAgent "second" 5 false) st H) as Hr.
  assert (Hc : agentConfig "voice" =
            OwnConfig (mkConfig 6 ["speech_recognition"; "speech_synthesis"; "wake_word_detection"] 1 8000 false))
    by (vm_compute; reflexivity).
  rewrite Hc in Hr. destruct Hr as (st' & H1 & H2 & _).
  exists st'. split; assumption.
Defined.

(** C9, as stated, fails: with [voice] registered, registering [voice]
    again does not throw, and afterwards the registry holds the second
    handle, which is not the first. *)
Lemma registerAgent_duplicate_accepted :
  let first := sampleAgent "first" 5 false in
  let second := sampleAgent "second" 5 false in
  let st := after (registerAgent "voice" first) (newCoordinator 0) in
  agents st !! "voice" = Some first
  /\ (registerAgent "voice" second st).1 = Returned tt
  /\ agents (after (registerAgent "voice" second) st) !! "voice" = Some second
  /\ second <> first.
Proof.
  intros first second st.
  split; [vm_compute; reflexivity|].
  split; [vm_compute; reflexivity|].
  split; [vm_compute; reflexivity|].
  intros Heq.
  apply (f_equal (fun h => settles_with (execute h 0 "" None plainContext))) in Heq.
  vm_compute in Heq. discriminate Heq.
Qed.

(** ** The retention sweep *)

Lemma sweep_fold_frame (now : Z) (st : Coordinator) (l : list (string * nat)) :
  objects (foldr (sweepEntry now) st l) = objects st
  /\ taskQueue (foldr (sweepEntry now) st l) = taskQueue st
  /\ agents (foldr (sweepEntry now) st l) = agents st
  /\ log (foldr (sweepEntry now) st l) = log st
  /\ clock (foldr (sweepEntry now) st l) = clock st.
Proof.
  induction l as [|entry l IH]; simpl; [auto|].
  unfold sweepEntry at 1 3 5 7 9.
  destruct IH as (Ho & Hq & Ha & Hl & Hc).
  destruct (objects (foldr (sweepEntry now) st l) !! entry.2) as [t|]; [|auto].
  destruct (expired now t); simpl; auto.
Qed.

Lemma sweep_fold_lookup (now : Z) (st : Coordinator) (l : list (string * nat)) (id : string) :
  let st' := foldr (sweepEntry now) st l in
  let hit := existsb (fun entry => bool_decide (entry.1 = id) && sweeps now st entry) l in
  activeTasks st' !! id = (if hit then None else activeTasks st !! id)
  /\ taskResults st' !! id = (if hit then None else taskResults st !! id).
Proof.
  induction l as [|entry l IH]; [simpl; auto|].
  cbn [foldr existsb]. cbv zeta in IH. destruct IH as [IHa IHr].
  remember (foldr (sweepEntry now) st l) as acc eqn:Hacc.
  pose proof (proj1 (sweep_fold_frame now st l)) as Ho. rewrite <- Hacc in Ho.
  unfold sweepEntry, sweeps. rewrite Ho.
  destruct (objects st !! entry.2) as [t|]; simpl.
  - destruct (expired now t); simpl.
    + destruct (bool_decide_reflect (entry.1 = id)) as [->|Hne]; simpl.
      * rewrite !lookup_delete_eq. auto.
      * rewrite !lookup_delete_ne by assumption. auto.
    + rewrite andb_false_r. simpl. auto.
  - rewrite andb_false_r. simpl. auto.
Qed.

Lemma sweep_hit (now : Z) (st : Coordinator) (id : string) (r : nat) :
  activeTasks st !! id = Some r ->
  existsb (fun entry => bool_decide (entry.1 = id) && sweeps now st entry)
    (map_to_list (activeTasks st)) = sweeps now st (id, r).
Proof.
  intros Hid.
  destruct (sweeps now st (id, r)) eqn:Hs.
  - apply existsb_exists. exists (id, r). split.
    + apply list_elem_of_In, elem_of_map_to_list. assumption.
    + simpl. rewrite bool_decide_eq_true_2 by reflexivity. assumption.
  - apply not_true_is_false. intros He. apply existsb_exists in He.
    destruct He as ([id' r'] & Hin & Hb). simpl in Hb.
    apply andb_true_iff in Hb. destruct Hb as [Hb1 Hb2].
    apply bool_decide_eq_true_1 in Hb1. subst id'.
    apply list_elem_of_In, elem_of_map_to_list in Hin.
    rewrite Hid in Hin. injection Hin as <-. congruence.
Qed.


(** ** Reading monadic equations *)

Lemma bind_returned {A B : Type} (c : M A) (k : A -> M B) st b st' :
  bind c k st = (Returned b, st') ->
  exists a st1, c st = (Returned a, st1) /\ k a st1 = (Returned b, st').
Proof.
  unfold bind. destruct (c st) as [[a|e] st1]; [eauto|discriminate].
Qed.

Lemma bind_thrown {A B : Type} (c : M A) (k : A -> M B) st e st' :
  bind c k st = (Thrown e, st') ->
  c st = (Thrown e, st')
  \/ exists a st1, c st = (Returned a, st1) /\ k a st1 = (Thrown e, st').
Proof.
  unfold bind. destruct (c st) as [[a|e1] st1]; [eauto|].
  intros H. injection H as <- <-. left. reflexivity.
Qed.

Lemma deref_returned (r : nat) st t st' :
  deref r st = (Returned t, st') -> st' = st /\ objects st !! r = Some t.
Proof.
  unfold deref. destruct (objects st !! r); [|discriminate].
  intros H. injection H as <- <-. auto.
Qed.

Lemma deref_found (r : nat) st t :
  objects st !! r = Some t -> deref r st = (Returned t, st).
Proof. unfold deref. intros ->. reflexivity. Qed.

(** ** The result aggregator *)

Lemma every_success (rs : list StepOutcome) :
  forallb success rs = true <-> Forall (fun r => success r = true) rs.
Proof.
  induction rs as [|r rs IH]; simpl.
  - split; [constructor|reflexivity].
  - rewrite andb_true_iff, IH. split.
    + intros [H1 H2]. constructor; assumption.
    + intros H. inversion H; subst. auto.
Qed.

Lemma some_success (rs : list StepOutcome) :
  existsb success rs = true <-> Exists (fun r => success r = true) rs.
Proof.
  induction rs as [|r rs IH]; simpl.
  - split; [discriminate|]. intros H. inversion H.
  - rewrite orb_true_iff, IH. split.
    + intros [H|H]; [left|right]; assumption.
    + intros H. inversion H; subst; auto.
Qed.

Lemma not_every_success (rs : list StepOutcome) :
  forallb success rs = false <-> Exists (fun r => success r = false) rs.
Proof.
  induction rs as [|r rs IH]; simpl.
  - split; [discriminate|]. intros H. inversion H.
  - rewrite andb_false_iff, IH. split.
    + intros [H|H]; [left|right]; assumption.
    + intros H. inversion H; subst; auto.
Qed.

Lemma no_success (rs : list StepOutcome) :
  existsb success rs = false <-> Forall (fun r => success r = false) rs.
Proof.
  induction rs as [|r rs IH]; simpl.
  - split; [constructor|reflexivity].
  - rewrite orb_false_iff, IH. split.
    + intros [H1 H2]. constructor; assumption.
    + intros H. inversion H; subst. auto.
Qed.

Lemma classify_success (rs : list StepOutcome) :
  classify rs = ClassSuccess <-> Forall (fun r => success r = true) rs.
Proof.
  rewrite <- every_success. unfold classify.
  destruct (forallb success rs); [tauto|].
  destruct (existsb success rs); split; discriminate.
Qed.

Lemma classify_partial (rs : list StepOutcome) :
  classify rs = ClassPartial <->
  Exists (fun r => success r = true) rs /\ Exists (fun r => success r = false) rs.
Proof.
  rewrite <- some_success, <- not_every_success. unfold classify.
  destruct (forallb success rs).
  - split; [discriminate|]. intros [_ H]. discriminate H.
  - destruct (existsb success rs); [tauto|].
    split; [discriminate|]. intros [H _]. discriminate H.
Qed.

Lemma classify_failure (rs : list StepOutcome) :
  rs <> [] ->
  classify rs = ClassFailure <-> Forall (fun r => success r = false) rs.
Proof.
  intros Hne. rewrite <- no_success. unfold classify.
  destruct (forallb success rs) eqn:Hall.
  - split; [discriminate|]. intros Hnone.
    destruct rs as [|r rs]; [congruence|]. simpl in *.
    apply andb_true_iff in Hall. apply orb_false_iff in Hnone.
    destruct Hall, Hnone. congruence.
  - destruct (existsb success rs); [split; discriminate|tauto].
Qed.

Lemma generateUnifiedResponse_returned (task : nat) rs st text st' :
  generateUnifiedResponse task rs st = (Returned text, st') ->
  st' = st /\ rs <> [] /\ responseFor rs text.
Proof.
  unfold generateUnifiedResponse. intros H.
  apply bind_returned in H. destruct H as (t & st1 & Hd & H).
  apply deref_returned in Hd. destruct Hd as [-> _].
  apply bind_returned in H. destruct H as (emo & st1 & Hg & H).
  unfold gets in Hg. injection Hg as <- <-.
  apply bind_returned in H. destruct H as (tone & st1 & Ht & H).
  assert (st1 = st) as ->.
  { destruct (agents st !! "emotion") as [emo|].
    - destruct (determineResponseTone emo (userEmotion (context t)) rs);
        [|discriminate]. injection Ht as <- <-. reflexivity.
    - injection Ht as <- <-. reflexivity. }
  clear Ht. unfold responseFor.
  destruct (classify rs) eqn:Hc.
  - destruct (generateSuccessResponse rs) as [text'|e] eqn:Hs; [|discriminate].
    injection H as <- <-. split; [reflexivity|]. split; [|reflexivity].
    intros ->. discriminate Hs.
  - injection H as <- <-. split; [reflexivity|]. split; [|reflexivity].
    intros ->. discriminate Hc.
  - injection H as <- <-. split; [reflexivity|]. split; [|reflexivity].
    intros ->. discriminate Hc.
Qed.

Lemma compileTaskResults_returned (task : nat) rs st res st' :
  compileTaskResults task rs st = (Returned res, st') ->
  st' = st /\ rs <> [] /\ allResults res = rs
  /\ responseFor rs (unifiedResponse res)
  /\ res_success res = existsb success rs
  /\ successfulSteps res = List.length (List.filter success rs)
  /\ failedSteps res = List.length (List.filter (fun r => negb (success r)) rs).
Proof.
  unfold compileTaskResults. intros H.
  apply bind_returned in H. destruct H as (text & st1 & Hu & H).
  apply generateUnifiedResponse_returned in Hu. destruct Hu as (-> & Hne & Hresp).
  apply bind_returned in H. destruct H as (t & st1 & Hd & H).
  apply deref_returned in Hd. destruct Hd as [-> _].
  apply bind_returned in H. destruct H as (now & st1 & Hg & H).
  unfold gets in Hg. injection Hg as <- <-.
  destruct (started t); [|discriminate].
  injection H as <- <-. simpl.
  repeat split; try assumption; try reflexivity.
  clear. induction rs as [|r rs IH]; simpl; [reflexivity|].
  destruct (success r); simpl; [reflexivity|exact IH].
Qed.

(** ** executeTask *)

Lemma beginTask_spec (task : nat) (st : Coordinator) :
  beginTask task st =
    (Returned tt,
     set_objects (alter (fun t => set_started (clock st) (set_status Executing t)) task
                    (objects st)) st).
Proof. reflexivity. Qed.

Lemma executeTask_returned (task : nat) st res st' :
  executeTask task st = (Returned res, st') ->
  exists t rs st1,
    objects st !! task = Some t
    /\ runSteps task (steps (plan t)) [] (after (beginTask task) st) = (Returned rs, st1)
    /\ compileTaskResults task rs st1 = (Returned res, st1)
    /\ (exists t', objects st' !! task = Some t' /\ status t' = Completed
                   /\ task_result t' = Some res /\ completed t' = Some (clock st1))
    /\ taskResults st' !! task_id t = Some res
    /\ log st' = log st1 ++ [Emitted_task_completed (task_id t)].
Proof.
  unfold executeTask. intros H.
  apply bind_returned in H. destruct H as ([] & st0 & Hb & H).
  rewrite beginTask_spec in Hb. apply (f_equal snd) in Hb. simpl in Hb. subst st0.
  apply bind_returned in H. destruct H as (t1 & st1 & Hd & H).
  apply deref_returned in Hd. destruct Hd as [-> Ht1].
  simpl in Ht1. rewrite list_lookup_alter_eq in Ht1.
  destruct (objects st !! task) as [t|] eqn:Ht; simpl in Ht1; [|discriminate].
  injection Ht1 as <-.
  apply bind_returned in H. destruct H as (rs & st1 & Hr & H).
  cbn [plan set_started set_status steps task_id] in Hr, H.
  apply bind_returned in H. destruct H as (final & st2 & Hc & H).
  pose proof (compileTaskResults_returned _ _ _ _ _ Hc) as (-> & _).
  apply bind_returned in H. destruct H as (now & st2 & Hg & H).
  unfold gets in Hg. injection Hg as <- <-.
  simpl in H. unfold bind, updateTask, modify, emit, ret in H. simpl in H.
  injection H as <- <-.
  exists t, rs, st1. split; [reflexivity|]. split; [exact Hr|]. split; [exact Hc|].
  simpl. split; [|split; [apply lookup_insert_eq|reflexivity]].
  pose proof (Quiet_runSteps task (steps (plan t)) [] (after (beginTask task) st)) as Hq.
  unfold after in Hq. rewrite beginTask_spec in Hq. simpl in Hq.
  rewrite Hr in Hq. simpl in Hq. apply quiet_objects in Hq. simpl in Hq.
  rewrite list_lookup_alter_eq, Hq, list_lookup_alter_eq, Ht. simpl.
  eexists. split; [reflexivity|]. simpl. auto.
Qed.

(** What [executeTaskStep] returns is the object literal of its last
    statement: a success, for the step it was given. *)
Lemma executeTaskStep_returned (task : nat) (step : Step) st r st1 :
  executeTaskStep task step st = (Returned r, st1) ->
  exists result, r = StepSucceeded result step.
Proof.
  unfold executeTaskStep. intros H.
  apply bind_returned in H. destruct H as (found & st2 & _ & H).
  destruct found as [handle|]; [|discriminate H].
  apply bind_returned in H. destruct H as (available & st3 & _ & H).
  destruct available; [|discriminate H]. cbn [negb] in H.
  apply bind_returned in H. destruct H as (confirmed & st4 & _ & H).
  destruct confirmed; [|discriminate H]. cbn [negb] in H.
  unfold invokeAgent in H.
  apply bind_returned in H. destruct H as (ms & st5 & _ & H).
  apply bind_returned in H. destruct H as (t & st6 & _ & H).
  apply bind_returned in H. destruct H as (now & st7 & _ & H).
  apply bind_returned in H. destruct H as ([] & st8 & _ & H).
  apply bind_returned in H. destruct H as (result & st9 & _ & H).
  apply bind_returned in H. destruct H as ([] & st10 & _ & H).
  injection H as <- _. exists result. reflexivity.
Qed.

(** The loop records one outcome for each step, in the order of the plan. *)
Lemma runSteps_outcomes (task : nat) (plan_steps : list Step) :
  forall results st rs st',
    runSteps task plan_steps results st = (Returned rs, st') ->
    map stepOf rs = map stepOf results ++ plan_steps.
Proof.
  induction plan_steps as [|step rest IH]; intros results st rs st' H.
  - simpl in H. injection H as <- <-. rewrite app_nil_r. reflexivity.
  - cbn [runSteps] in H.
    destruct (executeTaskStep task step st) as [[stepResult|error] st1] eqn:Hstep.
    + unfold stepResult_complete in H. apply IH in H.
      apply executeTaskStep_returned in Hstep. destruct Hstep as (result & ->).
      rewrite H, map_app, <- app_assoc. reflexivity.
    + unfold bind in H.
      destruct (canContinueOnError task step error st1) as [[[|]|e] st2];
        simpl in H; try discriminate H.
      apply IH in H. rewrite H, map_app, <- app_assoc. reflexivity.
Qed.

Lemma filter_none_length {A : Type} (f : A -> bool) (l : list A) :
  List.length (List.filter f l) = 0%nat <-> Forall (fun x => f x = false) l.
Proof.
  induction l as [|x l IH]; simpl.
  - split; [constructor|reflexivity].
  - destruct (f x) eqn:Hx; simpl.
    + split; [discriminate|]. intros H. inversion H; subst. congruence.
    + rewrite IH. split; [constructor; assumption|].
      intros H. inversion H; subst. assumption.
Qed.

Lemma filter_some_length {A : Type} (f : A -> bool) (l : list A) :
  (0 < List.length (List.filter f l))%nat <-> Exists (fun x => f x = true) l.
Proof.
  induction l as [|x l IH]; simpl.
  - split; [lia|]. intros H. inversion H.
  - destruct (f x) eqn:Hx; simpl.
    + split; [intros _; left; exact Hx|lia].
    + rewrite IH. split; [intros H; right; exact H|].
      intros H. inversion H; subst; [congruence|assumption].
Qed.

(** C5.  When [executeTask] completes a task, the loop over the plan has
    attempted every step and produced one outcome for each, in the order
    of the plan; the compiled result holds exactly these outcomes, and it
    classifies them as
    - success exactly when every outcome succeeded: no failed step is
      counted, and the response is the one generated for a success;
    - partial exactly when at least one succeeded and at least one failed:
      both counts are positive, and the response is the one that reports
      the partial completion;
    - failure exactly when none succeeded: no successful step is counted,
      the [success] flag is false, and the response is the one that reports
      the failure.
    The counts add up to the number of outcomes, and the task is marked
    [completed] with this result. *)
Theorem completed_task_classification (task : nat) (st st' : Coordinator) (res : TaskResult) :
  executeTask task st = (Returned res, st') ->
  exists t outcomes st1,
    objects st !! task = Some t
    /\ runSteps task (steps (plan t)) [] (after (beginTask task) st) = (Returned outcomes, st1)
    /\ map stepOf outcomes = steps (plan t)
    /\ outcomes <> []
    /\ allResults res = outcomes
    /\ successfulSteps res = List.length (List.filter success outcomes)
    /\ (successfulSteps res + failedSteps res)%nat = List.length outcomes
    /\ (Forall (fun r => success r = true) outcomes <-> failedSteps res = 0%nat)
    /\ (Exists (fun r => success r = true) outcomes
        /\ Exists (fun r => success r = false) outcomes
        <-> (0 < successfulSteps res)%nat /\ (0 < failedSteps res)%nat)
    /\ (Forall (fun r => success r = false) outcomes <-> successfulSteps res = 0%nat)
    /\ (res_success res = true <-> Exists (fun r => success r = true) outcomes)
    /\ (Forall (fun r => success r = true) outcomes ->
        generateSuccessResponse outcomes = Returned (unifiedResponse res))
    /\ (Exists (fun r => success r = true) outcomes ->
        Exists (fun r => success r = false) outcomes ->
        unifiedResponse res = generatePartialSuccessResponse outcomes)
    /\ (Forall (fun r => success r = false) outcomes ->
        unifiedResponse res = generateFailureResponse outcomes)
    /\ exists t', objects st' !! task = Some t' /\ status t' = Completed
                  /\ task_result t' = Some res.
Proof.
  intros H.
  apply executeTask_returned in H.
  destruct H as (t & rs & st1 & Ht & Hrun & Hc & (t' & Ht' & Hs & Hres & _) & _).
  apply compileTaskResults_returned in Hc.
  destruct Hc as (_ & Hne & Hall & Hresp & Hsucc & Hn1 & Hn2).
  exists t, rs, st1.
  split; [exact Ht|]. split; [exact Hrun|].
  split; [apply (runSteps_outcomes _ _ _ _ _ _ Hrun)|].
  split; [exact Hne|]. split; [exact Hall|]. split; [exact Hn1|].
  assert (Hfailed : forall l : list StepOutcome,
            Forall (fun r => negb (success r) = false) l
            <-> Forall (fun r => success r = true) l).
  { intros l. apply Forall_proper; [|reflexivity].
    intros r. destruct (success r); simpl; split; congruence. }
  assert (Hfails : forall l : list StepOutcome,
            Exists (fun r => negb (success r) = true) l
            <-> Exists (fun r => success r = false) l).
  { intros l. apply Exists_proper; [|reflexivity].
    intros r. destruct (success r); simpl; split; congruence. }
  split; [|split; [|split; [|split; [|split]]]].
  - rewrite Hn1, Hn2. clear.
    induction rs as [|r rs IH]; simpl; [reflexivity|].
    destruct (success r); simpl; lia.
  - rewrite Hn2, filter_none_length. symmetry. apply Hfailed.
  - rewrite Hn1, Hn2, !filter_some_length, Hfails. reflexivity.
  - rewrite Hn1, filter_none_length. reflexivity.
  - rewrite Hsucc. apply some_success.
  - unfold responseFor in Hresp.
    split; [|split; [|split]].
    + intros Hall'. apply classify_success in Hall'. rewrite Hall' in Hresp. exact Hresp.
    + intros H1 H2. assert (Hp : classify rs = ClassPartial) by (apply classify_partial; auto).
      rewrite Hp in Hresp. exact Hresp.
    + intros Hnone. apply (classify_failure _ Hne) in Hnone.
      rewrite Hnone in Hresp. exact Hresp.
    + exists t'. auto.
Qed.

(** ** The step executor *)

Lemma executeTaskStep_unregistered (task : nat) (step : Step) (st : Coordinator) :
  agents st !! agent step = None ->
  executeTaskStep task step st =
    (Thrown (mkError ("Agent not available: " +:+ agent step)), st).
Proof.
  intros H. unfold executeTaskStep, bind, gets. simpl. rewrite H. reflexivity.
Qed.

Lemma confirmSensitiveOperation_spec (task : nat) (step : Step) (st : Coordinator) (t : Task) :
  objects st !! task = Some t ->
  confirmSensitiveOperation task step st =
    if alreadyConfirmed t step then (Returned true, st)
    else
      match agents st !! "security" with
      | Some sec =>
          let p := requestConfirmation sec (clock st) t step in
          (settles_with p,
           resumed [ConfirmationRequested (task_id t) step]
             (Z.max (clock st) (settles_at p)) st)
      | None => (Returned false, st)
      end.
Proof.
  intros Ht. unfold confirmSensitiveOperation, bind.
  rewrite (deref_found _ _ _ Ht).
  destruct (alreadyConfirmed t step); [reflexivity|].
  unfold gets. destruct (agents st !! "security") as [sec|]; reflexivity.
Qed.

Lemma invokeAgent_spec (handle : AgentHandle) (task : nat) (step : Step)
  (st : Coordinator) (t : Task) (config : AgentConfig) :
  objects st !! task = Some t ->
  agentConfig (agent step) = OwnConfig config ->
  let p := execute handle (clock st) (action step) (parameters step) (context t) in
  let events := [AgentInvoked (agent step) (action step); AgentSettled (agent step)] in
  invokeAgent handle task step st =
    if settles_at p <=? clock st + timeout config
    then (match settles_with p with
          | Returned r => Returned (StepSucceeded r step)
          | Thrown e => Thrown e
          end,
          resumed events (Z.max (clock st) (settles_at p)) st)
    else (Thrown (mkError ("Step timeout: " +:+ action step)),
          resumed events (clock st + timeout config) st).
Proof.
  intros Ht Hc p events. unfold invokeAgent, configuredTimeout, bind.
  rewrite Hc. unfold ret at 1. rewrite (deref_found _ _ _ Ht).
  unfold gets, emit, modify, try_catch, withTimeout. simpl. fold p.
  destruct (settles_at p <=? clock st + timeout config).
  - unfold await. simpl. destruct (settles_with p) as [r|e]; simpl.
    + unfold resumed, set_log, set_clock. simpl. rewrite <- app_assoc. reflexivity.
    + unfold resumed, rethrow, set_log, set_clock. simpl. rewrite <- app_assoc. reflexivity.
  - unfold resumed, rethrow, set_log, set_clock. simpl. rewrite <- app_assoc. reflexivity.
Qed.

Lemma isAgentAvailable_true (agentType : string) (st : Coordinator) :
  isAgentAvailable agentType st = (Returned true, st) <->
  (exists handle, agents st !! agentType = Some handle) /\ hasCapacity agentType st.
Proof.
  unfold isAgentAvailable, hasCapacity.
  destruct (agents st !! agentType) as [handle|].
  - destruct (agentConfig agentType) as [config| |].
    + destruct (Z.ltb_spec (Z.of_nat (getAgentActiveTasks agentType st))
                  (maxConcurrentTasks config)) as [Hlt|Hge].
      * split; [|reflexivity]. intros _. eauto.
      * split; [discriminate|].
        intros (_ & c & Hc & Hlt). injection Hc as <-. lia.
    + split; [discriminate|]. intros (_ & c & Hc & _). discriminate.
    + split; [discriminate|]. intros (_ & c & Hc & _). discriminate.
  - split; [discriminate|]. intros ((h & Hh) & _). discriminate.
Qed.

Lemma isAgentAvailable_cases (agentType : string) (st : Coordinator) :
  isAgentAvailable agentType st = (Returned true, st)
  \/ isAgentAvailable agentType st = (Returned false, st)
  \/ exists e, isAgentAvailable agentType st = (Thrown e, st).
Proof.
  unfold isAgentAvailable.
  destruct (agents st !! agentType); [|auto].
  destruct (agentConfig agentType); eauto.
  destruct (_ <? _); auto.
Qed.

Lemma executeTaskStep_no_capacity (task : nat) (step : Step) (st : Coordinator) :
  isAgentAvailable (agent step) st <> (Returned true, st) ->
  exists e, executeTaskStep task step st = (Thrown e, st).
Proof.
  intros Hna. unfold executeTaskStep, bind, gets. simpl.
  destruct (agents st !! agent step) as [handle|]; [|eexists; reflexivity].
  destruct (isAgentAvailable_cases (agent step) st) as [H|[H|[e H]]].
  - contradiction.
  - rewrite H. simpl. eexists. reflexivity.
  - rewrite H. eexists. reflexivity.
Qed.

Lemma executeTaskStep_available (task : nat) (step : Step) (st : Coordinator)
  (handle : AgentHandle) :
  agents st !! agent step = Some handle ->
  isAgentAvailable (agent step) st = (Returned true, st) ->
  executeTaskStep task step st =
    (let* confirmed :=
       (if isSensitiveOperation step then confirmSensitiveOperation task step
        else ret true) in
     if negb confirmed then throw "Sensitive operation requires confirmation"
     else invokeAgent handle task step) st.
Proof.
  intros Hh Ha. unfold executeTaskStep at 1. unfold bind at 1. unfold gets at 1.
  simpl. rewrite Hh. unfold bind at 1. rewrite Ha. reflexivity.
Qed.

(** ** The plan loop *)

(** [break] is never taken, so the loop over a plan is the loop over its
    first part followed by the loop over the rest. *)
Lemma runSteps_app (task : nat) (pre post : list Step) :
  forall results st,
    runSteps task (pre ++ post) results st =
      match runSteps task pre results st with
      | (Returned results1, st1) => runSteps task post results1 st1
      | (Thrown e, st1) => (Thrown e, st1)
      end.
Proof.
  induction pre as [|step pre IH]; intros results st; [reflexivity|].
  cbn [app runSteps].
  destruct (executeTaskStep task step st) as [[stepResult|error] st1].
  - unfold stepResult_complete. apply IH.
  - unfold bind.
    destruct (canContinueOnError task step error st1) as [[[|]|e] st2]; simpl;
      [apply IH|reflexivity|reflexivity].
Qed.

Lemma runSteps_step_thrown (task : nat) (step : Step) (rest : list Step)
  (results : list StepOutcome) (st st1 : Coordinator) (e : Error) :
  executeTaskStep task step st = (Thrown e, st1) ->
  runSteps task (step :: rest) results st =
    match canContinueOnError task step e st1 with
    | (Returned true, st2) =>
        runSteps task rest (results ++ [StepFailed (message e) step]) st2
    | (Returned false, st2) => (Thrown e, st2)
    | (Thrown e', st2) => (Thrown e', st2)
    end.
Proof.
  intros H. cbn [runSteps]. rewrite H. unfold bind.
  destruct (canContinueOnError task step e st1) as [[[|]|e'] st2]; reflexivity.
Qed.

Lemma canContinueOnError_spec (task : nat) (step : Step) (e : Error)
  (st : Coordinator) (t : Task) :
  objects st !! task = Some t ->
  canContinueOnError task step e st =
    (Returned (negb (critical step || securityClassified e
                     || bool_decide (allowPartialFailure (context t) = Some false))), st).
Proof.
  intros Ht. unfold canContinueOnError, securityClassified.
  destruct (critical step); [reflexivity|].
  destruct (includes (message e) "Security" || includes (message e) "Authorization");
    [reflexivity|].
  unfold bind. rewrite (deref_found _ _ _ Ht). reflexivity.
Qed.

Lemma canContinueOnError_classified (task : nat) (step : Step) (e : Error) (st : Coordinator) :
  securityClassified e = true ->
  canContinueOnError task step e st = (Returned false, st).
Proof.
  unfold canContinueOnError, securityClassified. intros ->.
  destruct (critical step); reflexivity.
Qed.

(** ** Failing a task *)

Lemma begun_lookup (task : nat) (st : Coordinator) (t : Task) :
  objects st !! task = Some t ->
  objects (after (beginTask task) st) !! task
    = Some (set_started (clock st) (set_status Executing t)).
Proof.
  intros Ht. unfold after. rewrite beginTask_spec. simpl.
  rewrite list_lookup_alter_eq, Ht. reflexivity.
Qed.

Lemma executeTask_steps_thrown (task : nat) (st st2 : Coordinator) (t : Task) (e : Error) :
  objects st !! task = Some t ->
  runSteps task (steps (plan t)) [] (after (beginTask task) st) = (Thrown e, st2) ->
  executeTask task st = (Thrown e, st2).
Proof.
  intros Ht Hr. unfold executeTask, bind. rewrite beginTask_spec.
  pose proof (begun_lookup _ _ _ Ht) as Hb. unfold after in Hb, Hr.
  rewrite beginTask_spec in Hb, Hr. cbn [snd] in Hb, Hr.
  rewrite (deref_found _ _ _ Hb). cbn [plan set_started set_status].
  rewrite Hr. reflexivity.
Qed.

Lemma dispatchNext_thrown (task : nat) (st st2 : Coordinator) (t2 : Task) (e : Error) :
  executeTask task st = (Thrown e, st2) ->
  objects st2 !! task = Some t2 ->
  exists st3,
    dispatchNext task st = (Returned tt, st3)
    /\ objects st3 !! task = Some (markFailed e (clock st2) t2)
    /\ log st3 = log st2 ++ [Emitted_task_failed (task_id t2)].
Proof.
  intros He Ht2. unfold dispatchNext, try_catch, bind. rewrite He.
  unfold handleTaskError, bind, gets, updateTask, modify. simpl.
  unfold deref. simpl. rewrite list_lookup_alter_eq, Ht2. simpl.
  eexists. split; [reflexivity|]. simpl.
  rewrite list_lookup_alter_eq, Ht2. auto.
Qed.

(** An aborted plan: the loop stops in the state the failing step left,
    and the dispatcher marks the task failed with that error. *)
Lemma abort_marks_failed (task : nat) (st st1 st2 : Coordinator) (t : Task)
  (pre rest : list Step) (step : Step) (acc : list StepOutcome) (e : Error) :
  objects st !! task = Some t ->
  steps (plan t) = pre ++ step :: rest ->
  runSteps task pre [] (after (beginTask task) st) = (Returned acc, st1) ->
  executeTaskStep task step st1 = (Thrown e, st2) ->
  canContinueOnError task step e st2 = (Returned false, st2) ->
  runSteps task (steps (plan t)) [] (after (beginTask task) st) = (Thrown e, st2)
  /\ exists st3 t3,
       dispatchNext task st = (Returned tt, st3)
       /\ objects st3 !! task = Some t3
       /\ status t3 = Failed /\ task_error t3 = Some e
       /\ log st3 = log st2 ++ [Emitted_task_failed (task_id t)].
Proof.
  intros Ht Hplan Hpre Hstep Hcan.
  assert (Hrun : runSteps task (steps (plan t)) [] (after (beginTask task) st)
                 = (Thrown e, st2)).
  { rewrite Hplan, runSteps_app, Hpre.
    rewrite (runSteps_step_thrown _ _ _ _ _ _ _ Hstep), Hcan. reflexivity. }
  split; [exact Hrun|].
  pose proof (executeTask_steps_thrown _ _ _ _ _ Ht Hrun) as Hex.
  assert (Hq : quiet (after (beginTask task) st) st2).
  { pose proof (Quiet_runSteps task (steps (plan t)) [] (after (beginTask task) st)) as Hq.
    rewrite Hrun in Hq. exact Hq. }
  pose proof (begun_lookup _ _ _ Ht) as Hb.
  rewrite <- (quiet_objects _ _ Hq) in Hb.
  destruct (dispatchNext_thrown _ _ _ _ _ Hex Hb) as (st3 & Hd & Ho & Hl).
  exists st3. eexists. split; [exact Hd|]. split; [exact Ho|].
  split; [reflexivity|]. split; [reflexivity|]. exact Hl.
Qed.

(** ** Claims about the step executor *)

(** C2, as the code has it.  When a step of a task's plan fails with an
    error whose message contains [Security] or [Authorization], the
    remaining plan is not executed (the loop ends in the state the failing
    step left) and the dispatcher marks the task failed with that error,
    whatever the step's [critical] flag.  The error of a denied
    confirmation, [Sensitive operation requires confirmation], is not of
    that class. *)
Theorem security_failure_aborts_task
  (task : nat) (st st1 st2 : Coordinator) (t : Task)
  (pre rest : list Step) (step : Step) (acc : list StepOutcome) (e : Error) :
  objects st !! task = Some t ->
  steps (plan t) = pre ++ step :: rest ->
  runSteps task pre [] (after (beginTask task) st) = (Returned acc, st1) ->
  executeTaskStep task step st1 = (Thrown e, st2) ->
  includes (message e) "Security" || includes (message e) "Authorization" = true ->
  runSteps task (steps (plan t)) [] (after (beginTask task) st) = (Thrown e, st2)
  /\ (exists st3 t3,
        dispatchNext task st = (Returned tt, st3)
        /\ objects st3 !! task = Some t3
        /\ status t3 = Failed /\ task_error t3 = Some e
        /\ log st3 = log st2 ++ [Emitted_task_failed (task_id t)])
  /\ securityClassified (mkError "Sensitive operation requires confirmation") = false.
Proof.
  intros Ht Hplan Hpre Hstep Hclass.
  split; [|split; [|reflexivity]];
    eapply abort_marks_failed; eauto using canContinueOnError_classified.
Qed.

Lemma security_failure_aborts_task_witness :
  let st := rejectingStore in
  let st1 := after (beginTask 0) st in
  let e := mkError "Security policy violation" in
  let st2 := after (executeTaskStep 0 lightsOn) st1 in
  executeTaskStep 0 lightsOn st1 = (Thrown e, st2)
  /\ runSteps 0 [lightsOn; lightsOff] [] st1 = (Thrown e, st2)
  /\ exists st3 t3,
       dispatchNext 0 st = (Returned tt, st3)
       /\ objects st3 !! 0%nat = Some t3 /\ status t3 = Failed.
Proof.
  intros st st1 e st2.
  assert (Ht : objects st !! 0%nat = Some (sampleTask "t1" 2 [lightsOn; lightsOff]))
    by (vm_compute; reflexivity).
  assert (Hstep : executeTaskStep 0 lightsOn st1 = (Thrown e, st2))
    by (vm_compute; reflexivity).
  destruct (security_failure_aborts_task 0 st st1 st2 _ [] [lightsOff] lightsOn [] e
              Ht eq_refl eq_refl Hstep eq_refl)
    as (Hrun & (st3 & t3 & Hd & Ho & Hs & _) & _).
  split; [exact Hstep|]. split; [exact Hrun|].
  exists st3, t3. auto.
Defined.

(** C2, as stated, fails: the security agent refuses the confirmation of a
    non-critical sensitive step, the step fails with [Sensitive operation
    requires confirmation], and yet the next step is executed and the task
    ends [completed]. *)
Lemma denied_confirmation_does_not_abort :
  let st1 := after startDispatch refusedStore in
  (exists st2, executeTaskStep 0 deleteScene st1
               = (Thrown (mkError "Sensitive operation requires confirmation"), st2)
               /\ log st2 = [ConfirmationRequested "t1" deleteScene])
  /\ critical deleteScene = false
  /\ log (after processTasks refusedStore)
     = [ConfirmationRequested "t1" deleteScene;
        AgentInvoked "smart_home" "lights_on"; AgentSettled "smart_home";
        Emitted_task_completed "t1"]
  /\ status <$> objects (after processTasks refusedStore) !! 0%nat = Some Completed.
Proof.
  intros st1. split; [eexists; split; vm_compute; reflexivity|].
  repeat split; vm_compute; reflexivity.
Qed.

(** C4, as the code has it.  A step whose agent is not registered fails at
    once with [Agent not available: <kind>]: no agent is called and the
    state is unchanged.  The failure ends the task (the remaining plan is
    not executed and the dispatcher marks the task failed) only when the
    step is critical, or [context.allowPartialFailure] is [false], or the
    message contains [Security] or [Authorization]; otherwise the failure is
    recorded as a failed outcome and the loop goes on with the next step. *)
Theorem unregistered_agent_step
  (task : nat) (st st1 : Coordinator) (t : Task)
  (pre rest : list Step) (step : Step) (acc : list StepOutcome) :
  objects st !! task = Some t ->
  steps (plan t) = pre ++ step :: rest ->
  runSteps task pre [] (after (beginTask task) st) = (Returned acc, st1) ->
  agents st !! agent step = None ->
  let e := mkError ("Agent not available: " +:+ agent step) in
  executeTaskStep task step st1 = (Thrown e, st1)
  /\ if critical step || securityClassified e
        || bool_decide (allowPartialFailure (context t) = Some false)
     then
       runSteps task (steps (plan t)) [] (after (beginTask task) st) = (Thrown e, st1)
       /\ exists st3 t3,
            dispatchNext task st = (Returned tt, st3)
            /\ objects st3 !! task = Some t3
            /\ status t3 = Failed /\ task_error t3 = Some e
     else
       runSteps task (steps (plan t)) [] (after (beginTask task) st)
       = runSteps task rest (acc ++ [StepFailed (message e) step]) st1.
Proof.
  intros Ht Hplan Hpre Hag e.
  assert (Hq : quiet (after (beginTask task) st) st1).
  { pose proof (Quiet_runSteps task pre [] (after (beginTask task) st)) as Hq.
    rewrite Hpre in Hq. exact Hq. }
  assert (Hag1 : agents st1 !! agent step = None).
  { rewrite (quiet_agents _ _ Hq). exact Hag. }
  assert (Ht1 : objects st1 !! task = Some (set_started (clock st) (set_status Executing t))).
  { rewrite (quiet_objects _ _ Hq). apply begun_lookup. exact Ht. }
  pose proof (executeTaskStep_unregistered task step st1 Hag1) as Hstep.
  fold e in Hstep. split; [exact Hstep|].
  pose proof (canContinueOnError_spec task step e st1 _ Ht1) as Hcan.
  cbn [context set_started set_status] in Hcan.
  destruct (critical step || securityClassified e
            || bool_decide (allowPartialFailure (context t) = Some false)).
  - destruct (abort_marks_failed _ _ _ _ _ _ _ _ _ _ Ht Hplan Hpre Hstep Hcan)
      as (Hrun & st3 & t3 & Hd & Ho & Hs & He & _).
    split; [exact Hrun|]. exists st3, t3. auto.
  - rewrite Hplan, runSteps_app, Hpre.
    rewrite (runSteps_step_thrown _ _ _ _ _ _ _ Hstep), Hcan. reflexivity.
Qed.

Lemma unregistered_agent_step_witness :
  let st := unregisteredStore in
  let st1 := after (beginTask 0) st in
  let e := mkError "Agent not available: automation" in
  executeTaskStep 0 runBackup st1 = (Thrown e, st1)
  /\ runSteps 0 [runBackup; analyze] [] st1
     = runSteps 0 [analyze] [StepFailed "Agent not available: automation" runBackup] st1.
Proof.
  intros st st1 e.
  assert (Ht : objects st !! 0%nat = Some (sampleTask "t1" 2 [runBackup; analyze]))
    by (vm_compute; reflexivity).
  assert (Hag : agents st !! agent runBackup = None) by (vm_compute; reflexivity).
  pose proof (unregistered_agent_step 0 st st1 _ [] [analyze] runBackup []
                Ht eq_refl eq_refl Hag) as [Hstep Hrest].
  split; [exact Hstep|]. exact Hrest.
Defined.

(** C4, as stated, fails: the first step names the agent [automation],
    which is not registered; the step fails, and yet the second step is
    executed and the task ends [completed]. *)
Lemma unregistered_agent_does_not_fail_task :
  agents unregisteredStore !! "automation" = None
  /\ log (after processTasks unregisteredStore)
     = [AgentInvoked "reasoning" "analyze"; AgentSettled "reasoning";
        Emitted_task_completed "t1"]
  /\ status <$> objects (after processTasks unregisteredStore) !! 0%nat = Some Completed.
Proof. repeat split; vm_compute; reflexivity. Qed.

(** C6, as the code has it.  For a sensitive step whose action is not
    recorded as confirmed in the task's context, [executeTaskStep] does one
    of three things:
    - it asks the security agent once, the confirmation is granted, and
      then, after the request, the agent is invoked;
    - it asks the security agent once, the confirmation is not granted
      (refused, or the request itself fails), and the step fails without
      the agent being invoked;
    - it asks nobody and the step fails without the agent being invoked,
      because the step's agent is not registered, or has no capacity, or no
      security agent is registered.
    So the agent is invoked only after exactly one granted request, and at
    most one request is made. *)
Theorem sensitive_step_confirmation
  (task : nat) (step : Step) (st st' : Coordinator) (t : Task) (out : Result StepOutcome) :
  objects st !! task = Some t ->
  isSensitiveOperation step = true ->
  alreadyConfirmed t step = false ->
  executeTaskStep task step st = (out, st') ->
  let request := ConfirmationRequested (task_id t) step in
  let call := [AgentInvoked (agent step) (action step); AgentSettled (agent step)] in
  (exists sec,
     agents st !! "security" = Some sec
     /\ settles_with (requestConfirmation sec (clock st) t step) = Returned true
     /\ log st' = log st ++ request :: call)
  \/ (exists sec e,
        agents st !! "security" = Some sec
        /\ settles_with (requestConfirmation sec (clock st) t step) <> Returned true
        /\ out = Thrown e
        /\ log st' = log st ++ [request])
  \/ (exists e,
        out = Thrown e /\ log st' = log st
        /\ (agents st !! agent step = None
            \/ isAgentAvailable (agent step) st <> (Returned true, st)
            \/ agents st !! "security" = None)).
Proof.
  intros Ht Hsens Hnot Hrun request call.
  destruct (agents st !! agent step) as [handle|] eqn:Hag.
  2: { right; right. rewrite (executeTaskStep_unregistered _ _ _ Hag) in Hrun.
       injection Hrun as <- <-. eauto 6. }
  destruct (isAgentAvailable_cases (agent step) st) as [Hav|Hnav].
  2: { right; right.
       assert (Hne : isAgentAvailable (agent step) st <> (Returned true, st))
         by (destruct Hnav as [H|[e H]]; rewrite H; discriminate).
       destruct (executeTaskStep_no_capacity task step st Hne) as [e He].
       rewrite He in Hrun. injection Hrun as <- <-. eauto 6. }
  rewrite (executeTaskStep_available _ _ _ _ Hag Hav) in Hrun.
  rewrite Hsens in Hrun. unfold bind in Hrun.
  rewrite (confirmSensitiveOperation_spec _ _ _ _ Ht), Hnot in Hrun.
  destruct (agents st !! "security") as [sec|] eqn:Hsec.
  2: { right; right. simpl in Hrun. injection Hrun as <- <-. eauto 6. }
  cbv zeta in Hrun.
  destruct (settles_with (requestConfirmation sec (clock st) t step))
    as [[|]|e] eqn:Hgrant.
  - left. exists sec. split; [reflexivity|]. split; [exact Hgrant|].
    apply isAgentAvailable_true in Hav. destruct Hav as (_ & config & Hcfg & _).
    cbn [negb] in Hrun.
    unshelve erewrite (invokeAgent_spec handle task step _ t config _ Hcfg) in Hrun;
      [exact Ht|].
    cbv zeta in Hrun.
    destruct (_ <=? _) in Hrun; injection Hrun as <- <-; simpl;
      rewrite <- app_assoc; reflexivity.
  - right; left. exists sec. eexists. split; [reflexivity|].
    split; [rewrite Hgrant; discriminate|]. simpl in Hrun. injection Hrun as <- <-.
    split; reflexivity.
  - right; left. exists sec, e. split; [reflexivity|].
    split; [rewrite Hgrant; discriminate|]. injection Hrun as <- <-. split; reflexivity.
Qed.

Lemma sensitive_step_confirmation_witness :
  let st := grantedStore in
  isSensitiveOperation deleteCache = true
  /\ exists out st',
       executeTaskStep 0 deleteCache st = (out, st')
       /\ log st' = log st ++ [ConfirmationRequested "t1" deleteCache;
                               AgentInvoked "reasoning" "delete_cache";
                               AgentSettled "reasoning"].
Proof.
  intros st.
  assert (Hsens : isSensitiveOperation deleteCache = true) by (vm_compute; reflexivity).
  split; [exact Hsens|].
  destruct (executeTaskStep 0 deleteCache st) as [out st'] eqn:Hrun.
  exists out, st'. split; [reflexivity|].
  assert (Ht : objects st !! 0%nat
               = Some (set_started 0 (set_status Executing (sampleTask "t1" 2 [deleteCache]))))
    by (vm_compute; reflexivity).
  destruct (sensitive_step_confirmation 0 deleteCache st st' _ out Ht Hsens eq_refl Hrun)
    as [(sec & _ & _ & Hlog)|[(sec & e & Hsec & Hno & _)|(e & _ & _ & Hwhy)]].
  - exact Hlog.
  - exfalso. vm_compute in Hsec. injection Hsec as <-. apply Hno. reflexivity.
  - exfalso. destruct Hwhy as [H|[H|H]]; [discriminate H| |discriminate H].
    apply H. vm_compute. reflexivity.
Defined.

(** C6, as stated, fails: the step [delete_cache] is sensitive and not
    confirmed in the context, its agent is registered and has capacity, but
    no security agent is registered: no confirmation request is issued (the
    log stays empty) and the step fails. *)
Lemma no_security_agent_no_request :
  isSensitiveOperation deleteCache = true
  /\ (exists t, objects noGateStore !! 0%nat = Some t /\ alreadyConfirmed t deleteCache = false)
  /\ executeTaskStep 0 deleteCache noGateStore
     = (Thrown (mkError "Sensitive operation requires confirmation"), noGateStore)
  /\ log noGateStore = [].
Proof.
  split; [vm_compute; reflexivity|].
  split; [eexists; split; vm_compute; reflexivity|].
  split; vm_compute; reflexivity.
Qed.

(** C10.  The agent's results carry a truthy [complete], and still every
    step of the plan is executed: [executeTask] reads [complete] from the
    object [{success, result, step}], which has no such property, so the
    [break] of its loop is dead code.  Both steps are invoked and both
    outcomes are in the compiled result. *)
Theorem complete_flag_does_not_stop_plan :
  let final := after processTasks completingStore in
  let done := mkAgentResult true (Some "all done") in
  complete done = true
  /\ log final
     = [AgentInvoked "smart_home" "lights_on"; AgentSettled "smart_home";
        AgentInvoked "smart_home" "lights_off"; AgentSettled "smart_home";
        Emitted_task_completed "t1"]
  /\ (allResults <$> taskResults final !! "t1")
     = Some [StepSucceeded done lightsOn; StepSucceeded done lightsOff]
  /\ status <$> objects final !! 0%nat = Some Completed.
Proof. repeat split; vm_compute; reflexivity. Qed.

(** ** Logs in which calls do not overlap *)

Lemma sequential_app (l1 l2 : list Event) :
  sequential l1 -> sequential l2 -> sequential (l1 ++ l2).
Proof.
  intros H1 H2. induction H1; simpl; [assumption| |].
  - apply sequential_call; assumption.
  - apply sequential_other; assumption.
Qed.

Lemma capacity_nonneg (agentType : string) : 0 <= capacity agentType.
Proof.
  unfold capacity. destruct (agentConfig agentType) as [config| |] eqn:H; try lia.
  unfold agentConfig in H.
  destruct (assoc agentType agentConfigTable) as [c|] eqn:Ha.
  - injection H as <-. unfold agentConfigTable in Ha. simpl in Ha.
    repeat (destruct (String.eqb agentType _) in Ha;
            [injection Ha as <-; simpl; lia|]).
    discriminate.
  - destruct (existsb _ _) in H; discriminate.
Qed.

(** In a sequential log, at any point at most one call is in flight, and
    only of a kind that has capacity. *)
Lemma sequential_prefix_bound (agentType : string) (events : list Event) :
  sequential events ->
  forall p, p `prefix_of` events ->
    0 <= inFlight agentType p <= 1 /\ inFlight agentType p <= capacity agentType.
Proof.
  pose proof (capacity_nonneg agentType) as Hcap.
  intros Hseq. induction Hseq as [|kind act rest Hk Hrest IH|e rest He Hrest IH];
    intros p Hp.
  - apply prefix_nil_inv in Hp. subst p. simpl. lia.
  - destruct p as [|e1 p]; [simpl; lia|].
    apply prefix_cons_inv_1 in Hp as He1. apply prefix_cons_inv_2 in Hp. subst e1.
    destruct p as [|e2 p].
    + simpl. destruct (String.eqb_spec kind agentType) as [->|]; lia.
    + apply prefix_cons_inv_1 in Hp as He2. apply prefix_cons_inv_2 in Hp. subst e2.
      specialize (IH p Hp). simpl.
      destruct (String.eqb kind agentType); lia.
  - destruct p as [|e1 p]; [simpl; lia|].
    apply prefix_cons_inv_1 in Hp as He1. apply prefix_cons_inv_2 in Hp. subst e1.
    specialize (IH p Hp). destruct e; simpl in *; try discriminate; exact IH.
Qed.

(** ** Steady computations *)

#[export] Instance steady_preorder : PreOrder steady.
Proof.
  split.
  - intros st. unfold steady. do 4 (split; [reflexivity|]).
    exists []. rewrite app_nil_r. split; [reflexivity|constructor].
  - intros st1 st2 st3 (Hq1 & Ha1 & Hn1 & Hp1 & e1 & Hl1 & Hs1)
      (Hq2 & Ha2 & Hn2 & Hp2 & e2 & Hl2 & Hs2).
    unfold steady. do 3 (split; [congruence|]). split.
    + intros r. rewrite Hp2. apply Hp1.
    + exists (e1 ++ e2). rewrite Hl2, Hl1, app_assoc.
      split; [reflexivity|apply sequential_app; assumption].
Qed.

(** A quiet transition whose events are sequential is steady. *)
Lemma resumed_steady (events : list Event) (t : Z) (st : Coordinator) :
  sequential events -> steady st (resumed events t st).
Proof.
  intros Hs. unfold steady. simpl. do 4 (split; [reflexivity|]).
  exists events. auto.
Qed.

Lemma Steady_emit (e : Event) : isCall e = false -> Keeps steady (emit e).
Proof.
  intros He st. unfold steady. simpl. do 4 (split; [reflexivity|]).
  exists [e]. split; [reflexivity|]. apply sequential_other; [assumption|constructor].
Qed.

Lemma Steady_modify (f : Coordinator -> Coordinator) :
  (forall st, taskQueue (f st) = taskQueue st /\ agents (f st) = agents st
              /\ objects (f st) = objects st /\ log (f st) = log st) ->
  Keeps steady (modify f).
Proof.
  intros Hf st. destruct (Hf st) as (Hq & Ha & Ho & Hl).
  unfold steady, modify. simpl. rewrite Hq, Ha, Ho, Hl.
  do 4 (split; [reflexivity|]).
  exists []. rewrite app_nil_r. split; [reflexivity|constructor].
Qed.

Lemma priorityOf_alter (f : Task -> Task) (task r : nat) (h : list Task) :
  (forall t, priority (f t) = priority t) ->
  priorityOf (alter f task h) r = priorityOf h r.
Proof.
  intros Hf. unfold priorityOf. rewrite list_lookup_alter.
  destruct (decide (task = r)) as [->|]; [|reflexivity].
  destruct (h !! r); simpl; [apply Hf|reflexivity].
Qed.

Lemma Steady_updateTask (task : nat) (f : Task -> Task) :
  (forall t, priority (f t) = priority t) -> Keeps steady (updateTask task f).
Proof.
  intros Hf st. unfold steady, updateTask, modify. simpl.
  rewrite length_alter. do 3 (split; [reflexivity|]). split.
  - intros r. apply priorityOf_alter. exact Hf.
  - exists []. rewrite app_nil_r. split; [reflexivity|constructor].
Qed.

Lemma deref_dangling (r : nat) (st : Coordinator) :
  objects st !! r = None -> deref r st = (Thrown (mkError "dangling reference"), st).
Proof. unfold deref. intros ->. reflexivity. Qed.

Lemma confirmSensitiveOperation_dangling (task : nat) (step : Step) (st : Coordinator) :
  objects st !! task = None ->
  exists e, confirmSensitiveOperation task step st = (Thrown e, st).
Proof.
  intros H. unfold confirmSensitiveOperation, bind.
  rewrite (deref_dangling _ _ H). eauto.
Qed.

Lemma invokeAgent_dangling (handle : AgentHandle) (task : nat) (step : Step)
  (st : Coordinator) :
  objects st !! task = None ->
  exists e, invokeAgent handle task step st = (Thrown e, st).
Proof.
  intros H. unfold invokeAgent, configuredTimeout, bind.
  destruct (agentConfig (agent step)); simpl; rewrite ?(deref_dangling _ _ H); eauto.
Qed.

(** What one step adds to the log: at most one confirmation request, then
    at most one call of the step's agent, made only when the capacity check
    has passed. *)
Lemma executeTaskStep_events (task : nat) (step : Step) (st : Coordinator) :
  exists (t : Z) (requests call : list Event),
    after (executeTaskStep task step) st = resumed (requests ++ call) t st
    /\ (requests = [] \/ exists id, requests = [ConfirmationRequested id step])
    /\ (call = []
        \/ (call = [AgentInvoked (agent step) (action step); AgentSettled (agent step)]
            /\ hasCapacity (agent step) st)).
Proof.
  assert (Hnone : forall st', st' = st ->
            exists (t : Z) (requests call : list Event),
              st' = resumed (requests ++ call) t st
              /\ (requests = [] \/ exists id, requests = [ConfirmationRequested id step])
              /\ (call = []
                  \/ (call = [AgentInvoked (agent step) (action step);
                              AgentSettled (agent step)]
                      /\ hasCapacity (agent step) st))).
  { intros st' ->. exists (clock st), [], []. split; [|auto].
    destruct st; unfold resumed, set_log, set_clock; simpl.
    rewrite app_nil_r. reflexivity. }
  unfold after.
  destruct (agents st !! agent step) as [handle|] eqn:Hag.
  2: { rewrite (executeTaskStep_unregistered _ _ _ Hag). apply Hnone. reflexivity. }
  destruct (isAgentAvailable_cases (agent step) st) as [Hav|Hnav].
  2: { assert (Hne : isAgentAvailable (agent step) st <> (Returned true, st))
         by (destruct Hnav as [H|[e H]]; rewrite H; discriminate).
       destruct (executeTaskStep_no_capacity task step st Hne) as [e He].
       rewrite He. apply Hnone. reflexivity. }
  rewrite (executeTaskStep_available _ _ _ _ Hag Hav).
  pose proof (proj1 (isAgentAvailable_true _ _) Hav) as [_ Hcap].
  destruct Hcap as (config & Hcfg & Hlt).
  assert (Hcap : hasCapacity (agent step) st) by (exists config; auto).
  destruct (objects st !! task) as [tk|] eqn:Htk.
  2: { (* no such object: the first read of the task throws *)
       destruct (confirmSensitiveOperation_dangling task step st Htk) as [e1 H1].
       destruct (invokeAgent_dangling handle task step st Htk) as [e2 H2].
       unfold bind. destruct (isSensitiveOperation step).
       - rewrite H1. apply Hnone. reflexivity.
       - simpl. rewrite H2. apply Hnone. reflexivity. }
  assert (Hinvoke : forall st1 requests t1,
            st1 = resumed requests t1 st ->
            exists t2 call,
              (invokeAgent handle task step st1).2 = resumed (requests ++ call) t2 st
              /\ call = [AgentInvoked (agent step) (action step); AgentSettled (agent step)]).
  { intros st1 requests t1 ->.
    unshelve erewrite (invokeAgent_spec handle task step _ tk config _ Hcfg);
      [exact Htk|].
    cbv zeta. destruct (_ <=? _); eexists; eexists; (split; [|reflexivity]);
      simpl; unfold resumed, set_log, set_clock; simpl;
      rewrite <- app_assoc; reflexivity. }
  unfold bind.
  destruct (isSensitiveOperation step).
  - rewrite (confirmSensitiveOperation_spec _ _ _ _ Htk).
    destruct (alreadyConfirmed tk step).
    + simpl. destruct (Hinvoke st [] (clock st)) as (t2 & call & Hst & Hcall).
      { destruct st; unfold resumed, set_log, set_clock; simpl.
        rewrite app_nil_r. reflexivity. }
      exists t2, [], call. split; [exact Hst|]. split; [auto|]. right. auto.
    + destruct (agents st !! "security") as [sec|].
      * cbv zeta.
        destruct (settles_with (requestConfirmation sec (clock st) tk step)) as [[|]|e].
        -- simpl.
           destruct (Hinvoke _ [ConfirmationRequested (task_id tk) step]
                       (Z.max (clock st)
                          (settles_at (requestConfirmation sec (clock st) tk step)))
                       eq_refl)
             as (t2 & call & Hst & Hcall).
           exists t2, [ConfirmationRequested (task_id tk) step], call.
           split; [exact Hst|]. split; [eauto|]. right. auto.
        -- simpl. eexists _, [ConfirmationRequested (task_id tk) step], [].
           split; [rewrite app_nil_r; reflexivity|]. split; [eauto|auto].
        -- eexists _, [ConfirmationRequested (task_id tk) step], [].
           split; [rewrite app_nil_r; reflexivity|]. split; [eauto|auto].
      * simpl. apply Hnone. reflexivity.
  - simpl. destruct (Hinvoke st [] (clock st)) as (t2 & call & Hst & Hcall).
    { destruct st; unfold resumed, set_log, set_clock; simpl.
      rewrite app_nil_r. reflexivity. }
    exists t2, [], call. split; [exact Hst|]. split; [auto|]. right. auto.
Qed.

Lemma hasCapacity_positive (agentType : string) (st : Coordinator) :
  hasCapacity agentType st -> 0 < capacity agentType.
Proof.
  intros (config & Hcfg & Hlt). unfold capacity. rewrite Hcfg. lia.
Qed.

Lemma Steady_executeTaskStep (task : nat) (step : Step) :
  Keeps steady (executeTaskStep task step).
Proof.
  intros st.
  destruct (executeTaskStep_events task step st) as (t & requests & call & Hst & Hr & Hc).
  unfold after in Hst. rewrite Hst. apply resumed_steady.
  apply sequential_app.
  - destruct Hr as [->|[id ->]]; [constructor|].
    apply sequential_other; [reflexivity|constructor].
  - destruct Hc as [->|[-> Hcap]]; [constructor|].
    apply sequential_call; [eapply hasCapacity_positive; eassumption|constructor].
Qed.

Lemma Steady_canContinueOnError (task : nat) (step : Step) (e : Error) :
  Keeps steady (canContinueOnError task step e).
Proof. unfold canContinueOnError. keeps_steps. Qed.

Lemma Steady_generateUnifiedResponse (task : nat) (rs : list StepOutcome) :
  Keeps steady (generateUnifiedResponse task rs).
Proof. unfold generateUnifiedResponse. keeps_steps. Qed.

#[export] Hint Resolve Steady_executeTaskStep Steady_canContinueOnError
  Steady_generateUnifiedResponse : keeps.

Lemma Steady_compileTaskResults (task : nat) (rs : list StepOutcome) :
  Keeps steady (compileTaskResults task rs).
Proof. unfold compileTaskResults. keeps_steps. Qed.

Lemma Steady_runSteps (task : nat) (plan_steps : list Step) (results : list StepOutcome) :
  Keeps steady (runSteps task plan_steps results).
Proof. apply Keeps_runSteps; auto with keeps typeclass_instances. Qed.

#[export] Hint Resolve Steady_compileTaskResults Steady_runSteps : keeps.

Lemma Steady_executeTask (task : nat) : Keeps steady (executeTask task).
Proof.
  unfold executeTask, beginTask.
  keeps_steps;
    first [ apply Steady_updateTask; reflexivity
          | apply Steady_emit; reflexivity
          | apply Steady_modify; intros; simpl; auto ].
Qed.

Lemma Steady_handleTaskError (task : nat) (e : Error) :
  Keeps steady (handleTaskError task e).
Proof.
  unfold handleTaskError.
  keeps_steps;
    first [ apply Steady_updateTask; reflexivity | apply Steady_emit; reflexivity ].
Qed.

#[export] Hint Resolve Steady_executeTask Steady_handleTaskError : keeps.

Lemma Steady_dispatchNext (task : nat) : Keeps steady (dispatchNext task).
Proof. unfold dispatchNext. keeps_steps. Qed.

(** ** The dispatcher *)

#[export] Instance drained_preorder : PreOrder drained.
Proof.
  split.
  - intros st. unfold drained. split; [exists 0%nat; reflexivity|].
    do 3 (split; [reflexivity|]).
    exists []. rewrite app_nil_r. split; [reflexivity|constructor].
  - intros st1 st2 st3 ((n1 & Hq1) & Ha1 & Hn1 & Hp1 & e1 & Hl1 & Hs1)
      ((n2 & Hq2) & Ha2 & Hn2 & Hp2 & e2 & Hl2 & Hs2).
    unfold drained. split.
    { exists (n1 + n2)%nat. rewrite Hq2, Hq1, drop_drop. reflexivity. }
    do 2 (split; [congruence|]). split.
    + intros r. rewrite Hp2. apply Hp1.
    + exists (e1 ++ e2). rewrite Hl2, Hl1, app_assoc.
      split; [reflexivity|apply sequential_app; assumption].
Qed.

Lemma steady_drained (st st' : Coordinator) : steady st st' -> drained st st'.
Proof.
  intros (Hq & H). split; [|exact H]. exists 0%nat. rewrite Hq. reflexivity.
Qed.

Lemma Keeps_weaken (R R' : relation Coordinator) {A : Type} (c : M A) :
  (forall st st', R st st' -> R' st st') -> Keeps R c -> Keeps R' c.
Proof. intros HR Hc st. apply HR, Hc. Qed.

Lemma Drained_shift : Keeps drained shift.
Proof.
  intros st. unfold shift. destruct (taskQueue st) as [|r q] eqn:Hq; [reflexivity|].
  unfold drained. simpl. split; [exists 1%nat; rewrite Hq; reflexivity|].
  do 3 (split; [reflexivity|]).
  exists []. rewrite app_nil_r. split; [reflexivity|constructor].
Qed.

Lemma Drained_dispatchNext (task : nat) : Keeps drained (dispatchNext task).
Proof. apply (Keeps_weaken steady); [apply steady_drained|apply Steady_dispatchNext]. Qed.

#[export] Hint Resolve Drained_shift Drained_dispatchNext : keeps.

Lemma Drained_dispatchLoop (fuel : nat) : Keeps drained (dispatchLoop fuel).
Proof.
  induction fuel as [|fuel IH]; simpl; [auto with keeps typeclass_instances|].
  intros st. destruct (canDispatch st); [|reflexivity].
  revert st. keeps_steps.
Qed.

Lemma Drained_processTasks : Keeps drained processTasks.
Proof.
  assert (Hflag : forall b, Keeps drained (modify (set_isProcessing b))).
  { intros b. apply (Keeps_weaken steady); [apply steady_drained|].
    apply Steady_modify. intros; simpl; auto. }
  assert (H : forall n,
            Keeps drained (run modify (set_isProcessing true) in
                           run dispatchLoop n in
                           modify (set_isProcessing false))).
  { intros n. keeps_steps; first [apply Hflag|apply Drained_dispatchLoop]. }
  intros st. unfold processTasks. destruct (_ || _); [reflexivity|]. apply H.
Qed.

Lemma Drained_startDispatch : Keeps drained startDispatch.
Proof.
  assert (Hflag : forall b, Keeps drained (modify (set_isProcessing b))).
  { intros b. apply (Keeps_weaken steady); [apply steady_drained|].
    apply Steady_modify. intros; simpl; auto. }
  assert (Hbegin : forall task, Keeps drained (beginTask task)).
  { intros task. apply (Keeps_weaken steady); [apply steady_drained|].
    unfold beginTask. keeps_steps. apply Steady_updateTask. reflexivity. }
  intros st. unfold startDispatch. destruct (_ || _); [reflexivity|].
  unfold bind, modify. simpl.
  transitivity (set_isProcessing true st); [apply (Hflag true st)|].
  destruct (canDispatch (set_isProcessing true st)).
  - apply (Keeps_bind drained shift); [apply Drained_shift|].
    intros [task|]; [apply Hbegin|apply Keeps_ret; typeclasses eauto].
  - apply (Hflag false).
Qed.

(** The fuel of [dispatchLoop] never runs out: with the length of the queue
    as fuel, more fuel changes nothing. *)
Lemma dispatchLoop_enough_fuel (fuel : nat) :
  forall st, (List.length (taskQueue st) <= fuel)%nat ->
    dispatchLoop fuel st = dispatchLoop (List.length (taskQueue st)) st.
Proof.
  induction fuel as [|fuel IH]; intros st Hlen.
  - replace (List.length (taskQueue st)) with 0%nat by lia. reflexivity.
  - destruct (taskQueue st) as [|r q] eqn:Hq.
    + simpl. unfold canDispatch. rewrite Hq. reflexivity.
    + cbn [List.length dispatchLoop].
      destruct (canDispatch st); [|reflexivity].
      unfold bind, shift. rewrite Hq.
      pose proof (Steady_dispatchNext r (set_taskQueue q st)) as (Hq' & _).
      destruct (dispatchNext r (set_taskQueue q st)) as [[[]|e] st2]; [|reflexivity].
      simpl in Hq'. simpl in Hlen.
      rewrite IH by (rewrite Hq'; lia). rewrite Hq'. reflexivity.
Qed.

(** ** The pending queue *)

Section Insertion.
Variable key : nat -> Z.

Lemma insertSorted_elem (x z : nat) (l : list nat) :
  z ∈ insertSorted (byKey key) x l <-> z = x \/ z ∈ l.
Proof.
  induction l as [|y l IH]; simpl.
  - rewrite list_elem_of_singleton, elem_of_nil. tauto.
  - destruct (byKey key x y <=? 0).
    + rewrite !elem_of_cons. tauto.
    + rewrite !elem_of_cons, IH. tauto.
Qed.

(** Inserting [x] keeps the order, provided [x] wins its ties. *)
Lemma insertSorted_sorted (x : nat) (l : list nat) :
  StronglySorted (keyedBefore key) l ->
  (forall z, z ∈ l -> key x <= key z -> keyedBefore key x z) ->
  StronglySorted (keyedBefore key) (insertSorted (byKey key) x l).
Proof.
  intros Hl. induction Hl as [|y l Hl IH Hy]; intros Hx; simpl.
  - repeat constructor.
  - destruct (Z.leb_spec (byKey key x y) 0) as [Hle|Hgt]; unfold byKey in *.
    + constructor; [constructor; assumption|].
      apply Forall_forall. intros z Hz. apply Hx; [exact Hz|].
      apply elem_of_cons in Hz. destruct Hz as [->|Hz]; [lia|].
      rewrite Forall_forall in Hy. specialize (Hy z Hz).
      unfold keyedBefore in Hy. lia.
    + constructor.
      * apply IH. intros z Hz. apply Hx. apply elem_of_cons. auto.
      * apply Forall_forall. intros z Hz. apply insertSorted_elem in Hz.
        destruct Hz as [->|Hz]; [left; lia|].
        rewrite Forall_forall in Hy. apply Hy. exact Hz.
Qed.

Lemma foldr_insertSorted_elem (x z : nat) (q : list nat) :
  z ∈ foldr (insertSorted (byKey key)) [x] q <-> z = x \/ z ∈ q.
Proof.
  induction q as [|y q IH]; simpl.
  - rewrite list_elem_of_singleton, elem_of_nil. tauto.
  - rewrite insertSorted_elem, IH, elem_of_cons. tauto.
Qed.

(** Pushing a newcomer (a reference above all those of the queue) and
    sorting keeps the serving order. *)
Lemma sort_push_sorted (x : nat) (q : list nat) :
  StronglySorted (keyedBefore key) q ->
  Forall (fun r => (r < x)%nat) q ->
  StronglySorted (keyedBefore key) (sort (byKey key) (q ++ [x])).
Proof.
  unfold sort. rewrite foldr_app. simpl.
  intros Hq. induction Hq as [|y q Hq IH Hy]; intros Hlt; simpl.
  - repeat constructor.
  - apply Forall_cons in Hlt. destruct Hlt as [Hyx Hlt].
    apply insertSorted_sorted; [apply IH; exact Hlt|].
    intros z Hz Hle. apply foldr_insertSorted_elem in Hz.
    destruct Hz as [->|Hz].
    + unfold keyedBefore. lia.
    + rewrite Forall_forall in Hy. apply Hy. exact Hz.
Qed.

Lemma sort_push_elem (x z : nat) (q : list nat) :
  z ∈ sort (byKey key) (q ++ [x]) <-> z = x \/ z ∈ q.
Proof. unfold sort. rewrite foldr_app. simpl. apply foldr_insertSorted_elem. Qed.

End Insertion.

Lemma insertSorted_ext (cmp cmp' : nat -> nat -> Z) (x : nat) (l : list nat) :
  (forall a b, cmp a b = cmp' a b) -> insertSorted cmp x l = insertSorted cmp' x l.
Proof.
  intros H. induction l as [|y l IH]; simpl; [reflexivity|].
  rewrite H, IH. reflexivity.
Qed.

Lemma sort_ext (cmp cmp' : nat -> nat -> Z) (l : list nat) :
  (forall a b, cmp a b = cmp' a b) -> sort cmp l = sort cmp' l.
Proof.
  intros H. unfold sort. induction l as [|y l IH]; simpl; [reflexivity|].
  rewrite IH. apply insertSorted_ext. exact H.
Qed.

Lemma StronglySorted_weaken {A : Type} (R R' : relation A) (l : list A) :
  (forall a b, a ∈ l -> b ∈ l -> R a b -> R' a b) ->
  StronglySorted R l -> StronglySorted R' l.
Proof.
  intros HR Hl. induction Hl as [|x l Hl IH Hx]; constructor.
  - apply IH. intros a b Ha Hb. apply HR; apply elem_of_cons; auto.
  - rewrite Forall_forall in *. intros z Hz.
    apply HR; [apply elem_of_cons; auto|apply elem_of_cons; auto|apply Hx, Hz].
Qed.

Lemma StronglySorted_drop {A : Type} (R : relation A) (n : nat) (l : list A) :
  StronglySorted R l -> StronglySorted R (drop n l).
Proof.
  intros Hl. rewrite <- (take_drop n l) in Hl.
  eapply StronglySorted_app_1_r. exact Hl.
Qed.

Lemma priorityOf_app_old (tasks : list Task) (t : Task) (r : nat) :
  (r < List.length tasks)%nat -> priorityOf (tasks ++ [t]) r = priorityOf tasks r.
Proof. intros Hr. unfold priorityOf. rewrite lookup_app_l by exact Hr. reflexivity. Qed.

Lemma priorityOf_same (h tasks : list Task) (t : Task) :
  List.length h = List.length tasks ->
  (forall r, priorityOf h r = priorityOf tasks r) ->
  forall r, priorityOf (h ++ [t]) r = priorityOf (tasks ++ [t]) r.
Proof.
  intros Hlen Hp r. unfold priorityOf.
  destruct (Nat.lt_ge_cases r (List.length h)) as [Hlt|Hge].
  - rewrite !lookup_app_l by lia. apply Hp.
  - rewrite !lookup_app_r by lia. rewrite Hlen. reflexivity.
Qed.

Lemma submit_spec (t : Task) (st : Coordinator) :
  after (submit t) st =
    let task := List.length (objects st) in
    let h := objects st ++ [t] in
    set_activeTasks (<[task_id t := task]> (activeTasks st))
      (set_taskQueue (sort (byKey (priorityOf h)) (taskQueue st ++ [task]))
         (set_objects h st)).
Proof.
  unfold after, submit, newObject, addTask, bind, deref. simpl.
  rewrite list_lookup_middle by reflexivity. reflexivity.
Qed.

Lemma Steady_cleanupCompletedTasks : Keeps steady cleanupCompletedTasks.
Proof.
  apply Steady_modify. intros st.
  destruct (sweep_fold_frame (clock st) st (map_to_list (activeTasks st)))
    as (Ho & Hq & Ha & Hl & _).
  auto.
Qed.

Lemma Steady_handleTaskFailure (taskId : string) (error : Error) :
  Keeps steady (handleTaskFailure taskId error).
Proof.
  unfold handleTaskFailure.
  keeps_steps;
    first [ apply Steady_updateTask; reflexivity | apply Steady_emit; reflexivity ].
Qed.

Lemma Steady_advanceClock (now : Z) : Keeps steady (advanceClock now).
Proof. apply Steady_modify. intros; simpl; auto. Qed.

(** Every handler but a submission leaves the store as the dispatcher
    does. *)
Lemma Drained_handler (op : QueueOp) :
  (forall t, op <> Submit t) -> Keeps drained (applyOp op).
Proof.
  intros Hop. destruct op as [t| | | |taskId error|now]; simpl.
  - destruct (Hop t). reflexivity.
  - apply Drained_processTasks.
  - apply Drained_startDispatch.
  - apply (Keeps_weaken steady); [apply steady_drained|].
    apply Steady_cleanupCompletedTasks.
  - apply (Keeps_weaken steady); [apply steady_drained|].
    apply Steady_handleTaskFailure.
  - apply (Keeps_weaken steady); [apply steady_drained|].
    apply Steady_advanceClock.
Qed.

(** The log of a history: whatever the handlers, calls do not overlap. *)
Lemma history_log (ops : list QueueOp) :
  forall st, exists events,
    log (history ops st) = log st ++ events /\ sequential events.
Proof.
  induction ops as [|op ops IH]; intros st.
  - exists []. simpl. rewrite app_nil_r. split; [reflexivity|constructor].
  - change (history (op :: ops) st) with (history ops (after (applyOp op) st)).
    destruct (IH (after (applyOp op) st)) as (events2 & Hlog2 & Hseq2).
    assert (H1 : exists events1,
              log (after (applyOp op) st) = log st ++ events1 /\ sequential events1).
    { destruct op as [t| | | |taskId error|now].
      - exists []. simpl. rewrite submit_spec. simpl. rewrite app_nil_r.
        split; [reflexivity|constructor].
      - apply (Drained_handler Dispatch). discriminate.
      - apply (Drained_handler StartDispatch). discriminate.
      - apply (Drained_handler Sweep). discriminate.
      - apply (Drained_handler (AgentFailed taskId error)). discriminate.
      - apply (Drained_handler (Tick now)). discriminate. }
    destruct H1 as (events1 & Hlog1 & Hseq1).
    exists (events1 ++ events2). rewrite Hlog2, Hlog1, app_assoc.
    split; [reflexivity|apply sequential_app; assumption].
Qed.

Lemma ordered_new (now : Z) : ordered [] (newCoordinator now).
Proof.
  unfold ordered. simpl. split; [reflexivity|]. split; [reflexivity|].
  split; constructor.
Qed.

Lemma ordered_submit (tasks : list Task) (t : Task) (st : Coordinator) :
  ordered tasks st -> ordered (tasks ++ [t]) (after (submit t) st).
Proof.
  intros (Hlen & Hp & Hvalid & Hs). rewrite submit_spec. cbv zeta.
  unfold ordered. simpl. rewrite !length_app. simpl.
  split; [lia|]. split; [apply priorityOf_same; assumption|].
  rewrite (sort_ext _ (byKey (priorityOf (tasks ++ [t]))))
    by (intros a b; unfold byKey; rewrite !(priorityOf_same _ _ _ Hlen Hp); reflexivity).
  rewrite Hlen. split.
  - apply Forall_forall. intros z Hz. apply sort_push_elem in Hz.
    rewrite Forall_forall in Hvalid.
    destruct Hz as [->|Hz]; [lia|]. specialize (Hvalid z Hz). lia.
  - apply (sort_push_sorted (priorityOf (tasks ++ [t]))); [|exact Hvalid].
    apply (StronglySorted_weaken (servedBefore tasks)); [|exact Hs].
    intros a b Ha Hb. rewrite Forall_forall in Hvalid.
    unfold servedBefore, keyedBefore.
    rewrite !priorityOf_app_old by (apply Hvalid; assumption). tauto.
Qed.

Lemma ordered_drained (tasks : list Task) (st st' : Coordinator) :
  ordered tasks st -> drained st st' -> ordered tasks st'.
Proof.
  intros (Hlen & Hp & Hvalid & Hs) ((n & Hq) & _ & Hlen' & Hp' & _).
  unfold ordered. rewrite Hq, Hlen'.
  split; [exact Hlen|]. split; [intros r; rewrite Hp'; apply Hp|].
  split; [apply Forall_drop; exact Hvalid|apply StronglySorted_drop; exact Hs].
Qed.

Lemma ordered_applyOp (tasks : list Task) (op : QueueOp) (st : Coordinator) :
  ordered tasks st -> ordered (tasks ++ submitted [op]) (after (applyOp op) st).
Proof.
  intros H. destruct op as [t| | | |taskId error|now]; simpl.
  - apply ordered_submit. exact H.
  - rewrite app_nil_r. apply (ordered_drained _ st); [exact H|].
    apply (Drained_handler Dispatch). discriminate.
  - rewrite app_nil_r. apply (ordered_drained _ st); [exact H|].
    apply (Drained_handler StartDispatch). discriminate.
  - rewrite app_nil_r. apply (ordered_drained _ st); [exact H|].
    apply (Drained_handler Sweep). discriminate.
  - rewrite app_nil_r. apply (ordered_drained _ st); [exact H|].
    apply (Drained_handler (AgentFailed taskId error)). discriminate.
  - rewrite app_nil_r. apply (ordered_drained _ st); [exact H|].
    apply (Drained_handler (Tick now)). discriminate.
Qed.

Lemma submitted_app (ops1 ops2 : list QueueOp) :
  submitted (ops1 ++ ops2) = submitted ops1 ++ submitted ops2.
Proof.
  induction ops1 as [|op ops1 IH]; [reflexivity|].
  destruct op; simpl; rewrite ?IH; reflexivity.
Qed.

Lemma ordered_history (ops : list QueueOp) :
  forall tasks st, ordered tasks st -> ordered (tasks ++ submitted ops) (history ops st).
Proof.
  induction ops as [|op ops IH]; intros tasks st H.
  - simpl. rewrite app_nil_r. exact H.
  - change (history (op :: ops) st) with (history ops (after (applyOp op) st)).
    change (op :: ops) with ([op] ++ ops). rewrite submitted_app, app_assoc.
    apply IH. apply ordered_applyOp. exact H.
Qed.

(** ** Capacity of an agent kind *)

Lemma stored_task (st : Coordinator) (id : string) (r : nat) (t : Task) :
  activeTasks st !! id = Some r -> objects st !! r = Some t ->
  In t (storedTasks st).
Proof.
  intros Hid Ht. apply list_elem_of_In. unfold storedTasks.
  apply list_elem_of_omap. exists (id, r). split; [|exact Ht].
  apply elem_of_map_to_list. exact Hid.
Qed.

(** The count of the capacity check counts tasks: a stored task that is
    executing and has a step for the kind counts for one. *)
Lemma executing_task_counts (st : Coordinator) (agentType : string)
  (id : string) (r : nat) (t : Task) :
  activeTasks st !! id = Some r -> objects st !! r = Some t ->
  status t = Executing -> usesAgent agentType t = true ->
  (1 <= getAgentActiveTasks agentType st)%nat.
Proof.
  intros Hid Ht Hs Hu. unfold getAgentActiveTasks.
  assert (Hin : In t (List.filter (fun t => isExecuting t && usesAgent agentType t)
                        (storedTasks st))).
  { apply filter_In. split; [eapply stored_task; eassumption|].
    unfold isExecuting. rewrite Hu, bool_decide_eq_true_2 by assumption. reflexivity. }
  destruct (List.filter _ _); [destruct Hin|simpl; lia].
Qed.

Lemma filter_length_Permutation {A : Type} (f : A -> bool) (l l' : list A) :
  l ≡ₚ l' -> List.length (List.filter f l) = List.length (List.filter f l').
Proof.
  induction 1 as [|x l l' _ IH|x y l|l l' l'' _ IH1 _ IH2]; simpl.
  - reflexivity.
  - destruct (f x); simpl; rewrite IH; reflexivity.
  - destruct (f x), (f y); reflexivity.
  - rewrite IH1. exact IH2.
Qed.

(** Each entry of the store contributes to the count of the capacity check
    on its own: one if its task is executing and has a step for the kind,
    nothing otherwise. *)
Lemma getAgentActiveTasks_entry (st : Coordinator) (agentType id : string) (r : nat) :
  activeTasks st !! id = Some r ->
  getAgentActiveTasks agentType st
  = ((match objects st !! r with
      | Some t => if isExecuting t && usesAgent agentType t then 1 else 0
      | None => 0
      end)
     + getAgentActiveTasks agentType (set_activeTasks (delete id (activeTasks st)) st))%nat.
Proof.
  intros Hid. unfold getAgentActiveTasks, storedTasks. simpl.
  rewrite <- (filter_length_Permutation _ _ _
                (omap_Permutation _ _ _ (map_to_list_delete (activeTasks st) id r Hid))).
  simpl. destruct (objects st !! r) as [t|]; simpl; [|reflexivity].
  destruct (isExecuting t && usesAgent agentType t); reflexivity.
Qed.

Lemma usesAgent_step (agentType : string) (t : Task) :
  usesAgent agentType t = true
  <-> exists step, In step (steps (plan t)) /\ agent step = agentType.
Proof.
  unfold usesAgent. rewrite existsb_exists.
  split; intros (step & Hin & H); exists step; (split; [exact Hin|]);
    apply String.eqb_eq; exact H.
Qed.

(** C1, as the code has it.  For every agent kind:
    - whatever tasks are submitted and whatever else the event loop runs
      between the runs of the dispatcher, at every point the number of
      calls of that kind that have started and not yet settled is at most
      the kind's [maxConcurrentTasks] (a call is settled, or timed out,
      before the dispatcher does anything else);
    - [executeTaskStep] calls an agent only when [getAgentActiveTasks] of
      its kind is below the kind's [maxConcurrentTasks];
    - what [getAgentActiveTasks] counts is tasks, not calls in flight: the
      count of an empty store is 0, and each entry of the store adds to
      the count of the others exactly one if its task's status is
      [executing] and its plan has a step for the kind, and nothing
      otherwise, whether or not one of its steps is in flight. *)
Theorem calls_in_flight_bounded (st : Coordinator) (agentType : string) :
  (forall ops, exists events,
     log (history ops st) = log st ++ events
     /\ forall p, p `prefix_of` events -> inFlight agentType p <= capacity agentType)
  /\ (forall task step,
        exists events t,
          after (executeTaskStep task step) st = resumed events t st
          /\ forall act,
               In (AgentInvoked agentType act) events ->
               agent step = agentType
               /\ Z.of_nat (getAgentActiveTasks agentType st) < capacity agentType)
  /\ (activeTasks st = ∅ -> getAgentActiveTasks agentType st = 0%nat)
  /\ (forall id r t,
        activeTasks st !! id = Some r -> objects st !! r = Some t ->
        let others := set_activeTasks (delete id (activeTasks st)) st in
        (status t = Executing
         /\ (exists step, In step (steps (plan t)) /\ agent step = agentType) ->
         getAgentActiveTasks agentType st = S (getAgentActiveTasks agentType others))
        /\ (status t <> Executing
            \/ (forall step, In step (steps (plan t)) -> agent step <> agentType) ->
            getAgentActiveTasks agentType st = getAgentActiveTasks agentType others)).
Proof.
  split; [|split; [|split]].
  - intros ops. destruct (history_log ops st) as (events & Hlog & Hseq).
    exists events. split; [exact Hlog|].
    intros p Hp. apply (sequential_prefix_bound agentType events Hseq p Hp).
  - intros task step.
    destruct (executeTaskStep_events task step st)
      as (t & requests & call & Hst & Hr & Hc).
    exists (requests ++ call), t. split; [exact Hst|].
    intros act Hin. apply in_app_or in Hin. destruct Hin as [Hin|Hin].
    + destruct Hr as [->|[id ->]]; [destruct Hin|].
      destruct Hin as [Hin|[]]. discriminate Hin.
    + destruct Hc as [->|[-> (config & Hcfg & Hlt)]]; [destruct Hin|].
      destruct Hin as [Hin|[Hin|[]]]; [|discriminate Hin].
      injection Hin as <- _. split; [reflexivity|].
      unfold capacity. rewrite Hcfg. exact Hlt.
  - intros Hempty. unfold getAgentActiveTasks, storedTasks.
    rewrite Hempty, map_to_list_empty. reflexivity.
  - intros id r t Hid Ht others. subst others.
    rewrite (getAgentActiveTasks_entry st agentType id r Hid), Ht.
    split.
    + intros [Hs Hu]. apply usesAgent_step in Hu.
      unfold isExecuting. rewrite Hu, bool_decide_eq_true_2 by exact Hs. reflexivity.
    + intros Hnot.
      destruct (isExecuting t && usesAgent agentType t) eqn:Hb; [|reflexivity].
      apply andb_true_iff in Hb. destruct Hb as [Hs Hu].
      apply bool_decide_eq_true_1 in Hs. apply usesAgent_step in Hu.
      destruct Hu as (step & Hin & Hag).
      destruct Hnot as [Hnot|Hnot]; [contradiction|]. destruct (Hnot step Hin Hag).
Qed.

Lemma calls_in_flight_bounded_witness :
  (exists events,
     log (history [Dispatch] partialStore) = log partialStore ++ events
     /\ inFlight "smart_home" (take 1 events) <= capacity "smart_home")
  /\ getAgentActiveTasks "voice" voiceCheckStore
     = S (getAgentActiveTasks "voice"
            (set_activeTasks (delete "t1" (activeTasks voiceCheckStore)) voiceCheckStore))
  /\ getAgentActiveTasks "smart_home" voiceCheckStore
     = getAgentActiveTasks "smart_home"
         (set_activeTasks (delete "t1" (activeTasks voiceCheckStore)) voiceCheckStore).
Proof.
  split; [|split].
  - destruct (calls_in_flight_bounded partialStore "smart_home") as (Hlogs & _).
    destruct (Hlogs [Dispatch]) as (events & Hlog & Hbound).
    exists events. split; [exact Hlog|]. apply Hbound, prefix_take.
  - destruct (calls_in_flight_bounded voiceCheckStore "voice") as (_ & _ & _ & Hcount).
    apply (Hcount "t1" 0%nat
             (set_started 0 (set_status Executing (sampleTask "t1" 2 [speak]))));
      [vm_compute; reflexivity|vm_compute; reflexivity|].
    split; [reflexivity|]. exists speak. split; [left; reflexivity|reflexivity].
  - destruct (calls_in_flight_bounded voiceCheckStore "smart_home") as (_ & _ & _ & Hcount).
    apply (Hcount "t1" 0%nat
             (set_started 0 (set_status Executing (sampleTask "t1" 2 [speak]))));
      [vm_compute; reflexivity|vm_compute; reflexivity|].
    right. intros step [<-|[]]. discriminate.
Defined.

(** C1, as stated, fails in its second half.  The dispatcher has started a
    task whose only step is for [voice], and [executeTaskStep] makes its
    capacity check: no call is in flight (none has been made at all), yet
    the count used by the check is 1, the task itself; [voice] allows one
    concurrent task, so the step is refused as busy without any call. *)
Lemma active_count_is_not_calls_in_flight :
  inFlight "voice" (log voiceCheckStore) = 0
  /\ getAgentActiveTasks "voice" voiceCheckStore = 1%nat
  /\ capacity "voice" = 1
  /\ executeTaskStep 0 speak voiceCheckStore
     = (Thrown (mkError "Agent voice is busy"), voiceCheckStore)
  /\ Z.of_nat (getAgentActiveTasks "voice" voiceCheckStore)
     <> inFlight "voice" (log voiceCheckStore).
Proof.
  split; [vm_compute; reflexivity|].
  split; [vm_compute; reflexivity|].
  split; [vm_compute; reflexivity|].
  split; [vm_compute; reflexivity|].
  vm_compute. discriminate.
Qed.

(** ** Worked examples *)

Lemma completed_task_classification_witness :
  exists res st',
    executeTask 0 (after (run shift in ret tt) partialStore) = (Returned res, st')
    /\ map stepOf (allResults res) = [lightsOn; speak; lightsOff]
    /\ map success (allResults res) = [true; false; true]
    /\ (0 < successfulSteps res)%nat /\ (0 < failedSteps res)%nat
    /\ unifiedResponse res = "Task partially completed. 2 of 3 steps succeeded, Sir.".
Proof.
  destruct (executeTask 0 (after (run shift in ret tt) partialStore))
    as [[res|e] st'] eqn:Hrun; [|exfalso; vm_compute in Hrun; discriminate Hrun].
  exists res, st'. split; [reflexivity|].
  destruct (completed_task_classification 0 _ st' res Hrun)
    as (t & outcomes & st1 & Ht & _ & Hsteps & _ & Hall & _ & _ & _ & Hpartial & _ & _
        & _ & Hresponse & _).
  assert (Hplan : steps (plan t) = [lightsOn; speak; lightsOff]).
  { assert (H : (fun t => steps (plan t))
                  <$> objects (after (run shift in ret tt) partialStore) !! 0%nat
                = Some [lightsOn; speak; lightsOff]) by (vm_compute; reflexivity).
    rewrite Ht in H. injection H as H. exact H. }
  assert (Hres : map success (allResults res) = [true; false; true]).
  { assert (H : match executeTask 0 (after (run shift in ret tt) partialStore) with
                | (Returned r, _) => Some (map success (allResults r))
                | _ => None
                end = Some [true; false; true]) by (vm_compute; reflexivity).
    rewrite Hrun in H. injection H as H. exact H. }
  rewrite Hall, Hsteps, Hplan. split; [reflexivity|]. rewrite <- Hall.
  split; [exact Hres|].
  assert (Hsome : Exists (fun r => success r = true) outcomes
                  /\ Exists (fun r => success r = false) outcomes).
  { rewrite <- Hall. destruct (allResults res) as [|r1 [|r2 rs]]; try discriminate Hres.
    injection Hres as H1 H2 _. split; [left; exact H1|right; left; exact H2]. }
  split; [apply Hpartial; exact Hsome|]. split; [apply Hpartial; exact Hsome|].
  rewrite (Hresponse (proj1 Hsome) (proj2 Hsome)).
  unfold generatePartialSuccessResponse.
  assert (Hcount : List.length (List.filter success outcomes) = 2%nat
                   /\ List.length outcomes = 3%nat).
  { rewrite <- Hall. clear -Hres.
    destruct (allResults res) as [|r1 [|r2 [|r3 [|r4 rs]]]]; try discriminate Hres.
    injection Hres as H1 H2 H3. cbn [List.filter]. rewrite H1, H2, H3.
    split; reflexivity. }
  destruct Hcount as [-> ->]. vm_compute. reflexivity.
Defined.

(** Two pending tasks of priority 2 and 0: the one of priority 0 is served
    first, whichever was submitted first; two tasks of the same priority are
    served in the order of their submission. *)
Example priority_then_arrival :
  taskQueue (history [Submit (sampleTask "slow" 2 []); Submit (sampleTask "urgent" 0 [])]
               (newCoordinator 0)) = [1; 0]%nat
  /\ taskQueue (history [Submit (sampleTask "urgent" 0 []); Submit (sampleTask "slow" 2 [])]
                  (newCoordinator 0)) = [0; 1]%nat
  /\ taskQueue (history [Submit (sampleTask "a" 2 []); Submit (sampleTask "b" 1 []);
                         Submit (sampleTask "c" 2 []); Submit (sampleTask "d" 1 [])]
                  (newCoordinator 0)) = [1; 3; 0; 2]%nat.
Proof. repeat split; vm_compute; reflexivity. Qed.

Example includes_examples :
  includes "Authorization required" "Authorization" = true
  /\ includes "Sensitive operation requires confirmation" "Security" = false
  /\ includes "abc" "" = true.
Proof. repeat split; reflexivity. Qed.

Example containsSensitiveData_examples :
  containsSensitiveData "my PassWord = hunter2" = true
  /\ containsSensitiveData "password:" = false
  /\ containsSensitiveData "card 1234 5678-9012 3456." = true
  /\ containsSensitiveData "x1234567890123456" = false
  /\ containsSensitiveData "ssn 123-45-6789" = true
  /\ containsSensitiveData "turn on the lights" = false.
Proof. repeat split; vm_compute; reflexivity. Qed.

(** A request that fails the privacy check is rejected with the reason
    [unknown]; one that passes is accepted with the estimate of its plan. *)
Example processUserRequest_examples :
  (processUserRequest "my password: hunter2" plainContext "x7" (newCoordinator 1000)).1
    = Returned (Rejected "task_1000_x7" "Sensitive data detected" "unknown")
  /\ (processUserRequest "turn on the lights" plainContext "x7" (newCoordinator 1000)).1
     = Returned (Accepted "task_1000_x7" "Request received and being processed" 8000).
Proof. split; vm_compute; reflexivity. Qed.

(** ** Two consequences worth recording *)

(** The loop never leaves early: when it returns, it has an outcome for
    every step of the plan. *)
Lemma runSteps_attempts_every_step (task : nat) (plan_steps : list Step) :
  forall results st rs st',
    runSteps task plan_steps results st = (Returned rs, st') ->
    List.length rs = (List.length results + List.length plan_steps)%nat.
Proof.
  induction plan_steps as [|step rest IH]; intros results st rs st' H.
  - simpl in H. injection H as <- <-. simpl. lia.
  - cbn [runSteps] in H.
    destruct (executeTaskStep task step st) as [[stepResult|error] st1].
    + unfold stepResult_complete in H. apply IH in H.
      rewrite H, length_app. simpl. lia.
    + unfold bind in H.
      destruct (canContinueOnError task step error st1) as [[[|]|e] st2];
        simpl in H; try discriminate H.
      apply IH in H. rewrite H, length_app. simpl. lia.
Qed.

(** At the capacity check of its own step a task is already counted: it is
    in the store, it is executing, and its plan has the step.  For a kind
    that allows one concurrent task the check therefore fails, and the
    agent is not called. *)
Lemma single_slot_agent_is_always_busy
  (task : nat) (step : Step) (st : Coordinator) (id : string) (t : Task) :
  activeTasks st !! id = Some task ->
  objects st !! task = Some t ->
  status t = Executing ->
  In step (steps (plan t)) ->
  capacity (agent step) <= 1 ->
  exists e, executeTaskStep task step st = (Thrown e, st).
Proof.
  intros Hid Ht Hs Hin Hcap.
  apply executeTaskStep_no_capacity. intros Hav.
  apply isAgentAvailable_true in Hav. destruct Hav as (_ & config & Hcfg & Hlt).
  unfold capacity in Hcap. rewrite Hcfg in Hcap.
  assert (Hu : usesAgent (agent step) t = true).
  { unfold usesAgent. apply existsb_exists. exists step.
    split; [exact Hin|apply String.eqb_refl]. }
  pose proof (executing_task_counts st (agent step) id task t Hid Ht Hs Hu). lia.
Qed.

(** A task whose single step is critical and sensitive, confirmation
    refused: the task is marked failed with the error of the refusal, the
    agent is not called, and no result is stored. *)
Example critical_step_refused :
  let final := after processTasks criticalRefusedStore in
  status <$> objects final !! 0%nat = Some Failed
  /\ task_error <$> objects final !! 0%nat
     = Some (Some (mkError "Sensitive operation requires confirmation"))
  /\ log final
     = [ConfirmationRequested "t1" (mkStep "smart_home" "delete_scene" None true);
        Emitted_task_failed "t1"]
  /\ taskResults final !! "t1" = None.
Proof. repeat split; vm_compute; reflexivity. Qed.
(** * Further properties *)

(** ** Text *)

Lemma prefix_app (w rest : string) : String.prefix w (w +:+ rest) = true.
Proof.
  induction w as [|c w IH]; simpl.
  - destruct rest; reflexivity.
  - destruct (ascii_dec c c); [exact IH|congruence].
Qed.

Lemma includes_here (w rest : string) : includes (w +:+ rest) w = true.
Proof.
  destruct w as [|c w]; simpl.
  - destruct rest; reflexivity.
  - destruct (ascii_dec c c); [|congruence].
    rewrite prefix_app. reflexivity.
Qed.

Lemma includes_later (pre s sub : string) :
  includes s sub = true -> includes (pre +:+ s) sub = true.
Proof.
  intros Hs. induction pre as [|c pre IH]; simpl; [exact Hs|].
  rewrite IH. apply orb_true_r.
Qed.

Lemma includes_middle (pre w post : string) : includes (pre +:+ w +:+ post) w = true.
Proof. apply includes_later, includes_here. Qed.

Lemma toLowerCase_app (a b : string) :
  toLowerCase (a +:+ b) = toLowerCase a +:+ toLowerCase b.
Proof. induction a as [|c a IH]; simpl; [reflexivity|]. rewrite IH. reflexivity. Qed.

(** X1: a sensitive word anywhere in the action or in a string parameter,
    in any letter case, makes the step sensitive. *)
Theorem sensitive_word_anywhere
  (step : Step) (text pre word post : string) :
  action step = text
  \/ (exists key ps, parameters step = Some ps /\ In (key, PString text) ps) ->
  text = pre +:+ word +:+ post ->
  In (toLowerCase word) sensitiveActions ->
  isSensitiveOperation step = true.
Proof.
  intros Hwhere -> Hword.
  assert (Hinc : includes (toLowerCase (pre +:+ word +:+ post)) (toLowerCase word) = true).
  { rewrite !toLowerCase_app. apply includes_middle. }
  unfold isSensitiveOperation. apply existsb_exists.
  destruct Hwhere as [Hact | (key & ps & Hps & Hin)].
  - exists (toLowerCase word). split; [exact Hword|].
    rewrite Hact, Hinc. reflexivity.
  - exists (toLowerCase word). split; [exact Hword|].
    rewrite Hps. apply orb_true_iff. right.
    apply existsb_exists. exists (PString (pre +:+ word +:+ post)). split.
    + apply in_map_iff. exists (key, PString (pre +:+ word +:+ post)). split; [reflexivity|exact Hin].
    + apply existsb_exists. exists (toLowerCase word). split; [exact Hword|exact Hinc].
Qed.

Lemma sensitive_word_anywhere_witness :
  isSensitiveOperation
    (mkStep "voice" "respond" (Some [("message", PString "Here is the Information.")]) false)
  = true.
Proof.
  apply (sensitive_word_anywhere _ "Here is the Information." "Here is the In" "format" "ion.").
  - right. exists "message", [("message", PString "Here is the Information.")].
    split; [reflexivity|]. left. reflexivity.
  - reflexivity.
  - vm_compute. tauto.
Defined.

(** ** The simulated reasoning agent *)

(** X2: the plan of the simulated reasoning agent is one non-critical
    [respond] step, for [smart_home] when the request mentions lights or
    temperature and for [voice] otherwise; the step is classified as a
    sensitive operation exactly when the detected intent is [information]
    (the message then contains the letters of "format"). *)
Theorem simulatedPlan_shape (userInput : string) :
  let mentions := includes (toLowerCase userInput) in
  exists step,
    steps (simulatedPlan userInput) = [step]
    /\ action step = "respond" /\ critical step = false
    /\ agent step = (if mentions "lights" || mentions "temperature"
                     then "smart_home" else "voice")
    /\ isSensitiveOperation step
       = negb (mentions "lights" || mentions "temperature" || mentions "music")
         && (mentions "weather" || mentions "time")
    /\ (isSensitiveOperation step = true <-> detectedIntent userInput = "information").
Proof.
  intros mentions. unfold simulatedPlan, detectedIntent, intents. subst mentions. simpl.
  destruct (includes (toLowerCase userInput) "lights");
    [eexists; repeat split; try reflexivity; vm_compute; congruence|].
  destruct (includes (toLowerCase userInput) "temperature");
    [eexists; repeat split; try reflexivity; vm_compute; congruence|].
  destruct (includes (toLowerCase userInput) "music");
    [eexists; repeat split; try reflexivity; vm_compute; congruence|].
  destruct (includes (toLowerCase userInput) "weather");
    [eexists; repeat split; try reflexivity; vm_compute; congruence|].
  destruct (includes (toLowerCase userInput) "time");
    [eexists; repeat split; try reflexivity; vm_compute; congruence|].
  destruct (includes (toLowerCase userInput) "help");
    eexists; repeat split; try reflexivity; vm_compute; congruence.
Qed.

(** ** The patterns of the privacy check *)

Lemma starFrom_dead (p : ascii -> bool) (s : string) :
  forall prev k,
    (forall prev' pre s', s = pre +:+ s' -> k prev' s' = false) ->
    starFrom p prev s k = false.
Proof.
  induction s as [|c s IH]; intros prev k Hk; simpl.
  - apply (Hk prev ""). reflexivity.
  - rewrite (Hk prev "" (String c s) eq_refl), orb_false_r.
    rewrite IH; [apply andb_false_r|].
    intros prev' pre s' ->. apply (Hk prev' (String c pre)). reflexivity.
Qed.

Lemma app_assoc_string (a b c : string) : (a +:+ b) +:+ c = a +:+ (b +:+ c).
Proof.
  induction a as [|x a IH]; [reflexivity|].
  change (String x ((a +:+ b) +:+ c) = String x (a +:+ (b +:+ c))).
  rewrite IH. reflexivity.
Qed.

(** A continuation that fails everywhere makes the match fail. *)
Lemma matchFrom_dead (r : Regex) :
  forall prev s k,
    (forall prev' pre s', s = pre +:+ s' -> k prev' s' = false) ->
    matchFrom r prev s k = false.
Proof.
  induction r as [p|r1 IH1 r2 IH2|p|p| |]; intros prev s k Hk; simpl.
  - destruct s as [|c s]; [reflexivity|].
    rewrite (Hk (Some c) (String c "") s eq_refl). apply andb_false_r.
  - apply IH1. intros prev' pre s' ->. apply IH2.
    intros prev'' pre' s'' ->. apply (Hk prev'' (pre +:+ pre')).
    symmetry. apply app_assoc_string.
  - apply starFrom_dead, Hk.
  - destruct s as [|c s].
    + apply (Hk prev ""). reflexivity.
    + rewrite (Hk (Some c) (String c "") s eq_refl), (Hk prev "" (String c s) eq_refl).
      rewrite andb_false_r. reflexivity.
  - rewrite (Hk prev "" s eq_refl). apply andb_false_r.
  - apply (Hk prev ""). reflexivity.
Qed.

Lemma In_allAscii (c : ascii) : In c allAscii.
Proof.
  unfold allAscii. apply in_map_iff. exists (nat_of_ascii c). split.
  - apply ascii_nat_embedding.
  - apply in_seq. pose proof (nat_ascii_bounded c). lia.
Qed.

Lemma allChars_suffix (P : ascii -> bool) (pre s : string) :
  allChars P (pre +:+ s) = true -> allChars P s = true.
Proof.
  induction pre as [|c pre IH]; simpl; [tauto|].
  intros [_ H]%andb_true_iff. apply IH, H.
Qed.

(** A pattern that needs a character of a class does not match a text
    without one. *)
Lemma matchFrom_consumes (P : ascii -> bool) (r : Regex) :
  consumes P r = true ->
  forall prev s k,
    allChars (fun c => negb (P c)) s = true -> matchFrom r prev s k = false.
Proof.
  induction r as [p|r1 IH1 r2 IH2|p|p| |]; intros Hr; try discriminate Hr.
  - intros prev s k Hs. destruct s as [|c s]; [reflexivity|].
    cbn [allChars] in Hs. apply andb_true_iff in Hs as [Hc _].
    cbn [consumes] in Hr. rewrite forallb_forall in Hr.
    specialize (Hr c (In_allAscii c)). cbn [matchFrom].
    destruct (p c); [|reflexivity]. cbn [implb] in Hr. rewrite Hr in Hc. discriminate.
  - cbn [consumes] in Hr. apply orb_true_iff in Hr as [H1|H2]; intros prev s k Hs.
    + cbn [matchFrom]. apply IH1; assumption.
    + cbn [matchFrom]. apply matchFrom_dead. intros prev' pre s' ->.
      apply IH2; [exact H2|]. eapply allChars_suffix, Hs.
Qed.

Lemma searchFrom_consumes (P : ascii -> bool) (r : Regex) :
  consumes P r = true ->
  forall s prev,
    allChars (fun c => negb (P c)) s = true -> searchFrom r prev s = false.
Proof.
  intros Hr. induction s as [|c s IH]; intros prev Hs; simpl.
  - rewrite (matchFrom_consumes P r Hr) by exact Hs. reflexivity.
  - rewrite (matchFrom_consumes P r Hr) by exact Hs. simpl.
    simpl in Hs. apply andb_true_iff in Hs as [_ Hs]. apply IH, Hs.
Qed.

(** X3: a text without a digit, a colon or an equals sign is never taken
    for sensitive data. *)
Theorem plain_text_is_not_sensitive (userInput : string) :
  allChars (fun c => negb (telltale c)) userInput = true ->
  containsSensitiveData userInput = false.
Proof.
  intros Hplain. unfold containsSensitiveData.
  assert (Hall : forallb (consumes telltale) sensitivePatterns = true)
    by (vm_compute; reflexivity).
  rewrite forallb_forall in Hall.
  destruct (existsb _ sensitivePatterns) eqn:Hex; [|reflexivity].
  apply existsb_exists in Hex as (pattern & Hin & Hmatch).
  unfold test in Hmatch.
  rewrite (searchFrom_consumes telltale pattern (Hall pattern Hin)) in Hmatch by exact Hplain.
  discriminate.
Qed.

Lemma plain_text_is_not_sensitive_witness :
  containsSensitiveData "Turn off the lights, please" = false.
Proof. apply plain_text_is_not_sensitive. vm_compute. reflexivity. Defined.

Lemma starFrom_run (p : ascii -> bool) (gap rest : string) (k : option ascii -> string -> bool) :
  allChars p gap = true ->
  (forall prev, k prev rest = true) ->
  forall prev, starFrom p prev (gap +:+ rest) k = true.
Proof.
  intros Hgap Hk. induction gap as [|c gap IH]; intros prev.
  - change ("" +:+ rest) with rest. destruct rest as [|c rest]; cbn [starFrom].
    + apply Hk.
    + rewrite Hk. apply orb_true_r.
  - cbn [allChars] in Hgap. apply andb_true_iff in Hgap as [Hc Hgap].
    change (String c gap +:+ rest) with (String c (gap +:+ rest)). cbn [starFrom].
    rewrite Hc, (IH Hgap). reflexivity.
Qed.

Lemma starFrom_any (p : ascii -> bool) (s : string) (prev : option ascii) :
  starFrom p prev s (fun _ _ => true) = true.
Proof. destruct s as [|c s]; cbn [starFrom]; [reflexivity|apply orb_true_r]. Qed.

Lemma literal_i_match (lit : string) :
  forall word, toLowerCase word = toLowerCase lit ->
  forall prev rest k, exists prev',
    matchFrom (literal_i lit) prev (word +:+ rest) k = k prev' rest.
Proof.
  induction lit as [|d lit IH]; intros word Hword prev rest k.
  - destruct word; [|discriminate Hword]. exists prev. reflexivity.
  - destruct word as [|c word]; [discriminate Hword|].
    cbn [toLowerCase] in Hword. injection Hword as Hc Hword.
    destruct (IH word Hword (Some c) rest k) as [prev' Hm]. exists prev'.
    change (String c word +:+ rest) with (String c (word +:+ rest)).
    cbn [literal_i matchFrom]. unfold ignoreCase at 1. rewrite Hc, Nat.eqb_refl.
    exact Hm.
Qed.

(** [\s*[:=]\s*\S+] matches at the start of a gap, a separator, a gap and
    a character that is not a space. *)
Lemma assigned_match (gap1 gap2 rest : string) (sep v : ascii) :
  allChars isSpace gap1 = true -> oneOf ":=" sep = true ->
  allChars isSpace gap2 = true -> isSpace v = false ->
  forall prev,
    matchFrom assigned prev (gap1 +:+ String sep (gap2 +:+ String v rest))
      (fun _ _ => true) = true.
Proof.
  intros Hgap1 Hsep Hgap2 Hv prev. unfold assigned, seqs. cbn [foldr matchFrom].
  apply starFrom_run; [exact Hgap1|]. intros prev1. rewrite Hsep. cbn [andb].
  apply starFrom_run; [exact Hgap2|]. intros prev2. rewrite Hv. cbn [negb andb].
  apply starFrom_any.
Qed.

Lemma searchFrom_later (r : Regex) (s : string) :
  (forall prev, matchFrom r prev s (fun _ _ => true) = true) ->
  forall pre prev, searchFrom r prev (pre +:+ s) = true.
Proof.
  intros Hs. induction pre as [|c pre IH]; intros prev.
  - change ("" +:+ s) with s. destruct s; cbn [searchFrom]; rewrite Hs; reflexivity.
  - change (String c pre +:+ s) with (String c (pre +:+ s)). cbn [searchFrom].
    rewrite IH. apply orb_true_r.
Qed.

Lemma literal_i_then (lit word rest : string) (k : option ascii -> string -> bool) :
  toLowerCase word = toLowerCase lit ->
  (forall prev, k prev rest = true) ->
  forall prev, matchFrom (literal_i lit) prev (word +:+ rest) k = true.
Proof.
  intros Hword Hk prev.
  destruct (literal_i_match lit word Hword prev rest k) as [prev' ->]. apply Hk.
Qed.

(** X4: a credential word, in any letter case, followed by a colon or an
    equals sign (with or without spaces around it) and a value that
    starts with an ASCII character other than white space, is taken for
    sensitive data wherever it stands in the text. *)
Theorem assigned_credential_is_sensitive
  (pre word gap1 gap2 rest : string) (sep v : ascii) :
  credentialWord word ->
  allChars isSpace gap1 = true -> oneOf ":=" sep = true ->
  allChars isSpace gap2 = true ->
  isAscii v = true -> isSpace v = false ->
  containsSensitiveData
    (pre +:+ word +:+ gap1 +:+ String sep (gap2 +:+ String v rest)) = true.
Proof.
  intros Hword Hgap1 Hsep Hgap2 _ Hv.
  pose proof (assigned_match gap1 gap2 rest sep v Hgap1 Hsep Hgap2 Hv) as Htail.
  set (tail := gap1 +:+ String sep (gap2 +:+ String v rest)) in *.
  unfold containsSensitiveData. apply existsb_exists.
  destruct Hword as [Hw | [Hw | (a & joint & k & -> & Ha & Hk & Hjoint)]].
  - exists (RSeq (literal_i "password") assigned). split; [left; reflexivity|].
    apply searchFrom_later. intros prev. cbn [matchFrom].
    apply literal_i_then; [exact Hw|exact Htail].
  - exists (RSeq (literal_i "token") assigned). split; [do 2 right; left; reflexivity|].
    apply searchFrom_later. intros prev. cbn [matchFrom].
    apply literal_i_then; [exact Hw|exact Htail].
  - exists (seqs [literal_i "api"; ROpt (oneOf "_-"); literal_i "key"; assigned]).
    split; [right; left; reflexivity|].
    rewrite !app_assoc_string. apply searchFrom_later. intros prev.
    unfold seqs. cbn [foldr]. cbn [matchFrom].
    apply literal_i_then; [exact Ha|]. intros prev1.
    destruct Hjoint as [-> | [-> | ->]].
    + change ("" +:+ k +:+ tail) with (k +:+ tail).
      destruct k as [|c k]; [discriminate Hk|].
      change (String c k +:+ tail) with (String c (k +:+ tail)). cbn [matchFrom].
      apply orb_true_iff. right.
      change (String c (k +:+ tail)) with (String c k +:+ tail).
      apply literal_i_then; [exact Hk|exact Htail].
    + change ("_" +:+ k +:+ tail) with (String "_" (k +:+ tail)).
      apply orb_true_iff. left. apply andb_true_iff. split; [reflexivity|].
      apply literal_i_then; [exact Hk|exact Htail].
    + change ("-" +:+ k +:+ tail) with (String "-" (k +:+ tail)).
      apply orb_true_iff. left. apply andb_true_iff. split; [reflexivity|].
      apply literal_i_then; [exact Hk|exact Htail].
Qed.

Lemma assigned_credential_is_sensitive_witness :
  containsSensitiveData "set my API-Key = sk0 now" = true.
Proof.
  apply (assigned_credential_is_sensitive "set my " "API-Key" " " " " "k0 now" "=" "s").
  - do 2 right. exists "API", "-", "Key". repeat split; auto.
  - reflexivity.
  - reflexivity.
  - reflexivity.
  - reflexivity.
  - reflexivity.
Defined.

(** ** What the dispatcher leaves alone *)

#[export] Instance untouched_preorder (r : nat) : PreOrder (untouched r).
Proof.
  split.
  - intros st r' _. reflexivity.
  - intros st1 st2 st3 H1 H2 r' Hr. rewrite (H2 r' Hr). apply H1, Hr.
Qed.

Lemma quiet_untouched (r : nat) (st st' : Coordinator) : quiet st st' -> untouched r st st'.
Proof. intros Hq r' _. rewrite (quiet_objects _ _ Hq). reflexivity. Qed.

Lemma Untouched_modify (r : nat) (f : Coordinator -> Coordinator) :
  (forall st, objects (f st) = objects st) -> Keeps (untouched r) (modify f).
Proof. intros Hf st r' _. unfold modify. simpl. rewrite Hf. reflexivity. Qed.

Lemma Untouched_updateTask (r : nat) (f : Task -> Task) :
  Keeps (untouched r) (updateTask r f).
Proof.
  intros st r' Hr. unfold updateTask, modify. simpl.
  apply list_lookup_alter_ne. congruence.
Qed.

Lemma Untouched_emit (r : nat) (e : Event) : Keeps (untouched r) (emit e).
Proof. apply Untouched_modify. reflexivity. Qed.

Lemma Untouched_runSteps (r task : nat) (plan_steps : list Step) (results : list StepOutcome) :
  Keeps (untouched r) (runSteps task plan_steps results).
Proof.
  apply (Keeps_weaken quiet); [apply quiet_untouched|apply Quiet_runSteps].
Qed.

#[export] Hint Resolve Untouched_updateTask Untouched_emit Untouched_runSteps : keeps.

Lemma Untouched_compileTaskResults (r task : nat) (rs : list StepOutcome) :
  Keeps (untouched r) (compileTaskResults task rs).
Proof. unfold compileTaskResults, generateUnifiedResponse. keeps_steps. Qed.

#[export] Hint Resolve Untouched_compileTaskResults : keeps.

Lemma Untouched_dispatchNext (task : nat) : Keeps (untouched task) (dispatchNext task).
Proof.
  unfold dispatchNext, executeTask, beginTask, handleTaskError.
  keeps_steps. apply Untouched_modify. reflexivity.
Qed.

Lemma sameTask_refl (t : Task) : sameTask t t.
Proof. unfold sameTask. tauto. Qed.

Lemma sameTask_trans (t1 t2 t3 : Task) : sameTask t1 t2 -> sameTask t2 t3 -> sameTask t1 t3.
Proof. unfold sameTask. intuition congruence. Qed.

#[export] Instance evolved_preorder : PreOrder evolved.
Proof.
  split.
  - intros st. unfold evolved. do 3 (split; [reflexivity|]).
    intros r t Ht. exists t. split; [exact Ht|apply sameTask_refl].
  - intros st1 st2 st3 (Ha1 & Hg1 & Hn1 & Ho1) (Ha2 & Hg2 & Hn2 & Ho2).
    unfold evolved. do 3 (split; [congruence|]).
    intros r t Ht. destruct (Ho1 r t Ht) as (t2 & Ht2 & Hs2).
    destruct (Ho2 r t2 Ht2) as (t3 & Ht3 & Hs3).
    exists t3. split; [exact Ht3|eapply sameTask_trans; eassumption].
Qed.

Lemma quiet_evolved (st st' : Coordinator) : quiet st st' -> evolved st st'.
Proof.
  intros (t & events & ->). unfold evolved. simpl. do 3 (split; [reflexivity|]).
  intros r t0 Ht. exists t0. split; [exact Ht|apply sameTask_refl].
Qed.

Lemma Evolved_modify (f : Coordinator -> Coordinator) :
  (forall st, activeTasks (f st) = activeTasks st /\ agents (f st) = agents st
              /\ objects (f st) = objects st) ->
  Keeps evolved (modify f).
Proof.
  intros Hf st. destruct (Hf st) as (Ha & Hg & Ho).
  unfold evolved, modify. simpl. rewrite Ha, Hg, Ho.
  do 3 (split; [reflexivity|]).
  intros r t Ht. exists t. split; [exact Ht|apply sameTask_refl].
Qed.

Lemma Evolved_updateTask (task : nat) (f : Task -> Task) :
  (forall t, sameTask t (f t)) -> Keeps evolved (updateTask task f).
Proof.
  intros Hf st. unfold evolved, updateTask, modify. simpl.
  rewrite length_alter. do 3 (split; [reflexivity|]).
  intros r t Ht. rewrite list_lookup_alter.
  destruct (decide (task = r)) as [->|].
  - rewrite Ht. simpl. exists (f t). split; [reflexivity|apply Hf].
  - exists t. split; [exact Ht|apply sameTask_refl].
Qed.

Lemma Evolved_emit (e : Event) : Keeps evolved (emit e).
Proof. apply Evolved_modify. intros; simpl; auto. Qed.

Lemma Evolved_runSteps (task : nat) (plan_steps : list Step) (results : list StepOutcome) :
  Keeps evolved (runSteps task plan_steps results).
Proof.
  apply (Keeps_weaken quiet); [apply quiet_evolved|apply Quiet_runSteps].
Qed.

#[export] Hint Resolve Evolved_emit Evolved_runSteps : keeps.

Lemma Evolved_compileTaskResults (task : nat) (rs : list StepOutcome) :
  Keeps evolved (compileTaskResults task rs).
Proof. unfold compileTaskResults, generateUnifiedResponse. keeps_steps. Qed.

#[export] Hint Resolve Evolved_compileTaskResults : keeps.

Lemma Evolved_dispatchNext (task : nat) : Keeps evolved (dispatchNext task).
Proof.
  unfold dispatchNext, executeTask, beginTask, handleTaskError.
  keeps_steps;
    first [ apply Evolved_updateTask; intros; unfold sameTask, markFailed; simpl; tauto
          | apply Evolved_modify; intros; simpl; auto ].
Qed.

Lemma Evolved_shift : Keeps evolved shift.
Proof.
  intros st. unfold shift. destruct (taskQueue st); [reflexivity|].
  unfold evolved. simpl. do 3 (split; [reflexivity|]).
  intros r t Ht. exists t. split; [exact Ht|apply sameTask_refl].
Qed.

#[export] Hint Resolve Evolved_dispatchNext Evolved_shift : keeps.

Lemma Evolved_dispatchLoop (fuel : nat) : Keeps evolved (dispatchLoop fuel).
Proof.
  induction fuel as [|fuel IH]; simpl; [auto with keeps typeclass_instances|].
  intros st. destruct (canDispatch st); [|reflexivity].
  revert st. keeps_steps.
Qed.

Lemma Evolved_processTasks : Keeps evolved processTasks.
Proof.
  assert (Hflag : forall b, Keeps evolved (modify (set_isProcessing b))).
  { intros b. apply Evolved_modify. intros; simpl; auto. }
  assert (H : forall n,
            Keeps evolved (run modify (set_isProcessing true) in
                           run dispatchLoop n in
                           modify (set_isProcessing false))).
  { intros n. keeps_steps; first [apply Hflag|apply Evolved_dispatchLoop]. }
  intros st. unfold processTasks. destruct (_ || _); [reflexivity|]. apply H.
Qed.

(** ** The dispatcher settles what it takes *)

Lemma dispatchNext_settles (task : nat) (st : Coordinator) :
  (task < List.length (objects st))%nat ->
  exists st', dispatchNext task st = (Returned tt, st') /\ settledAt st' task.
Proof.
  intros Hvalid.
  destruct (executeTask task st) as [[res|e] st2] eqn:He.
  - exists st2. split.
    + unfold dispatchNext, try_catch, bind. rewrite He. reflexivity.
    + apply executeTask_returned in He
        as (t & rs & st1 & _ & _ & _ & (t' & Ht' & Hst & _ & Hdone) & _).
      exists t'. split; [exact Ht'|]. split; [left; exact Hst|].
      rewrite Hdone. eexists. reflexivity.
  - pose proof (Steady_executeTask task st) as (_ & _ & Hlen & _).
    rewrite He in Hlen. simpl in Hlen.
    destruct (lookup_lt_is_Some_2 (objects st2) task) as [t2 Ht2]; [lia|].
    destruct (dispatchNext_thrown task st st2 t2 e He Ht2) as (st3 & Hd & Ht3 & _).
    exists st3. split; [exact Hd|].
    exists (markFailed e (clock st2) t2). split; [exact Ht3|].
    split; [right; reflexivity|eexists; reflexivity].
Qed.

Lemma dispatchNext_keeps_settled (task r : nat) (st : Coordinator) :
  (task < List.length (objects st))%nat ->
  settledAt st r -> settledAt (after (dispatchNext task) st) r.
Proof.
  intros Hvalid Hr. destruct (decide (r = task)) as [->|Hne].
  - destruct (dispatchNext_settles task st Hvalid) as (st' & Hd & Hs).
    unfold after. rewrite Hd. exact Hs.
  - destruct Hr as (t & Ht & Hs). exists t. split; [|exact Hs].
    rewrite <- Ht. apply (Untouched_dispatchNext task st r Hne).
Qed.

(** The rounds of the loop: [n] tasks are taken off the queue, each is
    settled and stays so, and the loop stops short of its fuel only when
    its condition is false. *)
Lemma dispatchLoop_settles (fuel : nat) :
  forall st,
    Forall (fun r => (r < List.length (objects st))%nat) (taskQueue st) ->
    exists n st',
      dispatchLoop fuel st = (Returned tt, st')
      /\ (n <= fuel)%nat
      /\ taskQueue st' = drop n (taskQueue st)
      /\ evolved st st'
      /\ (forall r, settledAt st r -> settledAt st' r)
      /\ Forall (settledAt st') (take n (taskQueue st))
      /\ ((n < fuel)%nat -> canDispatch st' = false).
Proof.
  induction fuel as [|fuel IH]; intros st Hvalid.
  - exists 0%nat, st. cbn [dispatchLoop take drop].
    split; [reflexivity|]. split; [lia|]. split; [reflexivity|].
    split; [reflexivity|]. split; [auto|]. split; [constructor|lia].
  - cbn [dispatchLoop]. destruct (canDispatch st) eqn:Hcan.
    2:{ exists 0%nat, st. cbn [take drop].
        split; [reflexivity|]. split; [lia|]. split; [reflexivity|].
        split; [reflexivity|]. split; [auto|]. split; [constructor|auto]. }
    destruct (taskQueue st) as [|r q] eqn:Hq.
    { unfold canDispatch in Hcan. rewrite Hq in Hcan. discriminate. }
    unfold bind, shift. rewrite Hq.
    set (st1 := set_taskQueue q st).
    apply Forall_cons in Hvalid as [Hr Hrest].
    destruct (dispatchNext_settles r st1 Hr) as (st2 & Hd & Hs).
    rewrite Hd.
    pose proof (Steady_dispatchNext r st1) as (Hq2 & _ & Hlen2 & _).
    pose proof (Evolved_dispatchNext r st1) as Hev2.
    rewrite Hd in Hq2, Hlen2, Hev2. simpl in Hq2, Hlen2, Hev2.
    destruct (IH st2) as (n & st' & Hloop & Hn & Hq' & Hev' & Hkeep & Htaken & Hstop).
    { rewrite Hq2, Hlen2. exact Hrest. }
    exists (S n), st'. split; [exact Hloop|]. split; [lia|].
    split; [rewrite Hq', Hq2; reflexivity|]. split.
    { transitivity st2; [|exact Hev'].
      exact Hev2. }
    split.
    { intros r' Hr'. apply Hkeep.
      pose proof (dispatchNext_keeps_settled r r' st1 Hr) as Hk.
      unfold after in Hk. rewrite Hd in Hk. apply Hk. exact Hr'. }
    split.
    { cbn [take]. constructor; [apply Hkeep, Hs|].
      rewrite <- Hq2. exact Htaken. }
    intros Hlt. apply Hstop. lia.
Qed.

(** X5: started while no dispatch is in flight, [processTasks] returns
    without throwing and with the flag reset; every task that was waiting
    in the queue is afterwards settled (completed or failed, with its
    completion time) or still waits; and the dispatcher stops only when
    the queue is empty or ten stored tasks are executing. *)
Theorem processTasks_settles_what_it_takes (st : Coordinator) :
  isProcessing st = false ->
  Forall (fun r => (r < List.length (objects st))%nat) (taskQueue st) ->
  exists st',
    processTasks st = (Returned tt, st')
    /\ isProcessing st' = false
    /\ Forall (fun r => settledAt st' r \/ r ∈ taskQueue st') (taskQueue st)
    /\ (taskQueue st' = []
        \/ maxConcurrentTasks_global <= Z.of_nat (getActiveTaskCount st')).
Proof.
  intros Hidle Hvalid. unfold processTasks. rewrite Hidle. cbn [orb].
  destruct (taskQueue st) as [|r q] eqn:Hq.
  { exists st. simpl. rewrite Hq. repeat split; auto. }
  rewrite <- Hq in *.
  replace (List.length (taskQueue st) =? 0)%nat with false
    by (rewrite Hq; reflexivity).
  unfold bind at 1. unfold modify at 1. cbn [fst snd].
  set (st1 := set_isProcessing true st).
  destruct (dispatchLoop_settles (List.length (taskQueue st)) st1 Hvalid)
    as (n & st2 & Hloop & Hn & Hq2 & _ & _ & Htaken & Hstop).
  unfold bind. rewrite Hloop. unfold modify.
  exists (set_isProcessing false st2).
  split; [reflexivity|]. split; [reflexivity|]. split.
  - change (taskQueue st1) with (taskQueue st) in Hq2, Htaken.
    rewrite <- (take_drop n (taskQueue st)) at 1.
    apply Forall_app. split.
    + eapply Forall_impl; [exact Htaken|]. intros r0 Hr0. left. exact Hr0.
    + apply Forall_forall. intros r0 Hr0. right. simpl. rewrite Hq2. exact Hr0.
  - destruct (decide (n = List.length (taskQueue st))) as [->|Hne].
    + left. simpl. rewrite Hq2. apply drop_all.
    + specialize (Hstop ltac:(lia)). unfold canDispatch in Hstop.
      apply andb_false_iff in Hstop as [Hempty|Hfull].
      * left. simpl. destruct (taskQueue st2); [reflexivity|discriminate].
      * right. apply Z.ltb_ge in Hfull. exact Hfull.
Qed.

Lemma processTasks_settles_what_it_takes_witness :
  exists st',
    processTasks partialStore = (Returned tt, st')
    /\ isProcessing st' = false
    /\ Forall (fun r => settledAt st' r \/ r ∈ taskQueue st') (taskQueue partialStore)
    /\ (taskQueue st' = []
        \/ maxConcurrentTasks_global <= Z.of_nat (getActiveTaskCount st')).
Proof.
  apply processTasks_settles_what_it_takes.
  - reflexivity.
  - vm_compute. repeat constructor.
Defined.

(** ** Kinds with a single slot *)

Lemma executeTask_thrown (task : nat) (st st2 : Coordinator) (e : Error) (t : Task) :
  objects st !! task = Some t ->
  executeTask task st = (Thrown e, st2) ->
  let st1 := after (beginTask task) st in
  runSteps task (steps (plan t)) [] st1 = (Thrown e, st2)
  \/ exists rs st3,
       runSteps task (steps (plan t)) [] st1 = (Returned rs, st3)
       /\ compileTaskResults task rs st3 = (Thrown e, st2).
Proof.
  intros Ht He st1. unfold executeTask in He.
  apply bind_thrown in He as [He | (u & st1' & Hb & He)].
  { rewrite beginTask_spec in He. discriminate He. }
  assert (st1' = st1) as -> by (unfold st1, after; rewrite Hb; reflexivity).
  apply bind_thrown in He as [He | (t1 & st1' & Hd & He)].
  { pose proof (begun_lookup task st t Ht) as Hl. fold st1 in Hl.
    rewrite (deref_found _ _ _ Hl) in He. discriminate He. }
  apply deref_returned in Hd as [-> Hl].
  pose proof (begun_lookup task st t Ht) as Hl'. fold st1 in Hl'.
  rewrite Hl' in Hl. injection Hl as <-. cbn [plan set_started set_status] in He.
  apply bind_thrown in He as [He | (rs & st3 & Hrun & He)]; [left; exact He|].
  right. exists rs, st3. split; [exact Hrun|].
  apply bind_thrown in He as [He | (res & st4 & Hc & He)]; [exact He|].
  exfalso. unfold bind, gets, updateTask, modify, emit, modify, ret in He.
  discriminate He.
Qed.

Lemma Quiet_compileTaskResults_state (task : nat) (rs : list StepOutcome) (st : Coordinator) :
  (compileTaskResults task rs st).2 = st.
Proof.
  assert (H : Keeps (fun a b => b = a) (compileTaskResults task rs)).
  { assert (PreOrder (fun a b : Coordinator => b = a)).
    { split; [intros x; reflexivity|intros x y z -> ->; reflexivity]. }
    unfold compileTaskResults, generateUnifiedResponse. keeps_steps. }
  apply H.
Qed.

Lemma runSteps_nothing_runs (task : nat) (t : Task) (st : Coordinator) :
  objects st !! task = Some t ->
  forall plan_steps results,
    Forall (fun step => exists e, executeTaskStep task step st = (Thrown e, st)) plan_steps ->
    Forall (fun r => success r = false) results ->
    (exists rs, runSteps task plan_steps results st = (Returned rs, st)
                /\ Forall (fun r => success r = false) rs)
    \/ exists e, runSteps task plan_steps results st = (Thrown e, st).
Proof.
  intros Ht. induction plan_steps as [|step rest IH]; intros results Hbusy Hfailed.
  - left. exists results. split; [reflexivity|exact Hfailed].
  - apply Forall_cons in Hbusy as [(e & He) Hrest].
    rewrite (runSteps_step_thrown task step rest results st st e He).
    rewrite (canContinueOnError_spec task step e st t Ht).
    destruct (negb _).
    + apply IH; [exact Hrest|].
      apply Forall_app. split; [exact Hfailed|]. constructor; [reflexivity|constructor].
    + right. exists e. reflexivity.
Qed.

(** A task every step of which fails on the spot ends without a call to
    an agent: failed, or completed with every step failed. *)
Lemma dispatchNext_nothing_runs (task : nat) (t : Task) (st : Coordinator) :
  objects st !! task = Some t ->
  Forall (fun step =>
            exists e, executeTaskStep task step (after (beginTask task) st)
                      = (Thrown e, after (beginTask task) st))
    (steps (plan t)) ->
  exists st' t',
    dispatchNext task st = (Returned tt, st')
    /\ objects st' !! task = Some t'
    /\ ((status t' = Failed
         /\ log st' = log st ++ [Emitted_task_failed (task_id t)])
        \/ (status t' = Completed
            /\ log st' = log st ++ [Emitted_task_completed (task_id t)]
            /\ exists res,
                 task_result t' = Some res /\ res_success res = false
                 /\ Forall (fun r => success r = false) (allResults res)
                 /\ List.length (allResults res) = List.length (steps (plan t)))).
Proof.
  intros Ht Hbusy.
  set (t1 := set_started (clock st) (set_status Executing t)).
  remember (after (beginTask task) st) as st1 eqn:Hst1.
  assert (Ht1 : objects st1 !! task = Some t1)
    by (rewrite Hst1; apply (begun_lookup task st t Ht)).
  assert (Hlog1 : log st1 = log st) by (rewrite Hst1; reflexivity).
  pose proof (runSteps_nothing_runs task t1 st1 Ht1 (steps (plan t)) [] Hbusy
                ltac:(constructor)) as Hrun.
  destruct (executeTask task st) as [[res|e] st2] eqn:He.
  - pose proof He as He'.
    apply executeTask_returned in He'
      as (t0 & rs & st1' & Ht0 & Hrun' & Hcomp & (t' & Ht' & Hst & Hres & _) & _ & Hlog).
    rewrite Ht in Ht0. injection Ht0 as <-. rewrite <- Hst1 in Hrun'.
    destruct Hrun as [(rs0 & Hrs0 & Hfailed) | (e & Hthrown)];
      [|rewrite Hthrown in Hrun'; discriminate Hrun'].
    rewrite Hrs0 in Hrun'. injection Hrun' as <- <-.
    exists st2, t'. split.
    { unfold dispatchNext, try_catch, bind. rewrite He. reflexivity. }
    split; [exact Ht'|]. right. split; [exact Hst|].
    split; [rewrite Hlog, Hlog1; reflexivity|].
    exists res. split; [exact Hres|].
    apply compileTaskResults_returned in Hcomp as (_ & _ & Hall & _ & Hsucc & _).
    rewrite Hall. split; [|split; [exact Hfailed|]].
    + rewrite Hsucc. apply no_success. exact Hfailed.
    + apply (runSteps_attempts_every_step _ _ _ _ _ _ Hrs0).
  - assert (Hst2 : st2 = st1).
    { destruct (executeTask_thrown task st st2 e t Ht He)
        as [Hthrown | (rs & st3 & Hrs & Hcomp)]; rewrite <- Hst1 in *.
      - destruct Hrun as [(rs0 & Hrs0 & _) | (e0 & He0)].
        + rewrite Hrs0 in Hthrown. discriminate Hthrown.
        + rewrite He0 in Hthrown. injection Hthrown as _ E. symmetry. exact E.
      - destruct Hrun as [(rs0 & Hrs0 & _) | (e0 & He0)].
        + rewrite Hrs0 in Hrs. injection Hrs as <- <-.
          pose proof (Quiet_compileTaskResults_state task rs0 st1) as Hsame.
          rewrite Hcomp in Hsame. simpl in Hsame. exact Hsame.
        + rewrite He0 in Hrs. discriminate Hrs. }
    subst st2.
    destruct (dispatchNext_thrown task st st1 t1 e He Ht1) as (st3 & Hd & Ht3 & Hlog3).
    exists st3, (markFailed e (clock st1) t1). split; [exact Hd|].
    split; [exact Ht3|]. left. split; [reflexivity|].
    rewrite Hlog3, Hlog1. reflexivity.
Qed.

(** Once its task is started and stored under its id, a step for a kind
    with at most one slot finds the kind busy or missing. *)
Lemma single_slot_steps_fail (task : nat) (id : string) (t : Task) (st : Coordinator) :
  activeTasks st !! id = Some task ->
  objects st !! task = Some t ->
  Forall (fun step => capacity (agent step) <= 1) (steps (plan t)) ->
  Forall (fun step =>
            exists e, executeTaskStep task step (after (beginTask task) st)
                      = (Thrown e, after (beginTask task) st))
    (steps (plan t)).
Proof.
  intros Hid Ht Hslots.
  set (t1 := set_started (clock st) (set_status Executing t)).
  pose proof (begun_lookup task st t Ht) as Ht1. fold t1 in Ht1.
  apply Forall_forall. intros step Hin.
  rewrite Forall_forall in Hslots.
  apply (single_slot_agent_is_always_busy task step (after (beginTask task) st) id t1);
    [exact Hid|exact Ht1|reflexivity|apply list_elem_of_In; exact Hin
    |apply Hslots; exact Hin].
Qed.

(** X6: a task whose steps are all for kinds with at most one slot (voice,
    os_control, security, face, and every kind without a configuration)
    never reaches an agent: with the task stored under its id, each step
    finds its kind busy or missing, no confirmation is requested and no
    agent is invoked, and the task ends failed, or completed with every
    step failed. *)
Theorem single_slot_plan_reaches_no_agent
  (task : nat) (id : string) (t : Task) (st : Coordinator) :
  activeTasks st !! id = Some task ->
  objects st !! task = Some t ->
  Forall (fun step => capacity (agent step) <= 1) (steps (plan t)) ->
  exists st' t',
    dispatchNext task st = (Returned tt, st')
    /\ objects st' !! task = Some t'
    /\ ((status t' = Failed
         /\ log st' = log st ++ [Emitted_task_failed (task_id t)])
        \/ (status t' = Completed
            /\ log st' = log st ++ [Emitted_task_completed (task_id t)]
            /\ exists res,
                 task_result t' = Some res /\ res_success res = false
                 /\ Forall (fun r => success r = false) (allResults res)
                 /\ List.length (allResults res) = List.length (steps (plan t)))).
Proof.
  intros Hid Ht Hslots.
  apply (dispatchNext_nothing_runs task t st Ht).
  apply (single_slot_steps_fail task id t st Hid Ht Hslots).
Qed.

Lemma single_slot_plan_reaches_no_agent_witness :
  let t := set_started 0 (set_status Executing (sampleTask "t1" 2 [speak])) in
  exists st' t',
    dispatchNext 0 voiceCheckStore = (Returned tt, st')
    /\ objects st' !! 0%nat = Some t'
    /\ ((status t' = Failed
         /\ log st' = log voiceCheckStore ++ [Emitted_task_failed (task_id t)])
        \/ (status t' = Completed
            /\ log st' = log voiceCheckStore ++ [Emitted_task_completed (task_id t)]
            /\ exists res,
                 task_result t' = Some res /\ res_success res = false
                 /\ Forall (fun r => success r = false) (allResults res)
                 /\ List.length (allResults res) = List.length (steps (plan t)))).
Proof.
  intros t. apply (single_slot_plan_reaches_no_agent 0%nat "t1" t voiceCheckStore).
  - reflexivity.
  - reflexivity.
  - constructor; [vm_compute; discriminate|constructor].
Defined.

(** ** Time spent on a task *)

Lemma own_timeout_positive (agentType : string) (config : AgentConfig) :
  agentConfig agentType = OwnConfig config -> 0 < timeout config.
Proof.
  intros H. unfold agentConfig in H.
  destruct (assoc agentType agentConfigTable) as [c|] eqn:Ha.
  - injection H as <-. unfold agentConfigTable in Ha. simpl in Ha.
    repeat (destruct (String.eqb agentType _) in Ha;
            [injection Ha as <-; simpl; lia|]).
    discriminate.
  - destruct (existsb _ _) in H; discriminate.
Qed.

Lemma timeoutOr10000_own (agentType : string) (config : AgentConfig) :
  agentConfig agentType = OwnConfig config -> timeoutOr10000 agentType = timeout config.
Proof.
  intros H. pose proof (own_timeout_positive _ _ H) as Hpos.
  unfold timeoutOr10000. rewrite H.
  destruct (timeout config =? 0) eqn:E; [|reflexivity].
  apply Z.eqb_eq in E. lia.
Qed.

Lemma timeoutOr10000_bounds (agentType : string) : 5000 <= timeoutOr10000 agentType <= 45000.
Proof.
  unfold timeoutOr10000. destruct (agentConfig agentType) as [config| |] eqn:H; try lia.
  unfold agentConfig in H.
  destruct (assoc agentType agentConfigTable) as [c|] eqn:Ha.
  - injection H as <-. unfold agentConfigTable in Ha. simpl in Ha.
    repeat (destruct (String.eqb agentType _) in Ha;
            [injection Ha as <-; simpl; lia|]).
    discriminate.
  - destruct (existsb _ _) in H; discriminate.
Qed.

Lemma fold_planned (plan_steps : list Step) (start : Z) :
  fold_left (fun total step => total + timeoutOr10000 (agent step)) plan_steps start
  = start + plannedTime plan_steps.
Proof.
  unfold plannedTime. revert start.
  induction plan_steps as [|step rest IH]; intros start; simpl; [lia|].
  rewrite IH, (IH (0 + timeoutOr10000 (agent step))). lia.
Qed.

Lemma plannedTime_cons (step : Step) (rest : list Step) :
  plannedTime (step :: rest) = timeoutOr10000 (agent step) + plannedTime rest.
Proof.
  unfold plannedTime at 1. simpl. apply fold_planned.
Qed.

Lemma plannedTime_app (pre post : list Step) :
  plannedTime (pre ++ post) = plannedTime pre + plannedTime post.
Proof.
  induction pre as [|step pre IH]; [reflexivity|].
  change ((step :: pre) ++ post) with (step :: (pre ++ post)).
  rewrite !plannedTime_cons, IH. lia.
Qed.

Lemma plannedTime_length (plan_steps : list Step) :
  5000 * Z.of_nat (List.length plan_steps) <= plannedTime plan_steps.
Proof.
  induction plan_steps as [|step rest IH]; [reflexivity|].
  rewrite plannedTime_cons. pose proof (timeoutOr10000_bounds (agent step)).
  cbn [List.length]. lia.
Qed.

Lemma estimateTaskTime_planned (p : TaskPlan) :
  estimateTaskTime p = Z.min (plannedTime (steps p)) taskTimeout.
Proof. reflexivity. Qed.

(** A step that asks for no confirmation takes no longer than the timeout
    of its kind. *)
Lemma executeTaskStep_clock (task : nat) (t : Task) (step : Step) (st : Coordinator) :
  objects st !! task = Some t -> needsNoConfirmation t step ->
  let st' := after (executeTaskStep task step) st in
  clock st <= clock st' <= clock st + timeoutOr10000 (agent step).
Proof.
  intros Ht Hfree st'. subst st'. unfold after.
  pose proof (timeoutOr10000_bounds (agent step)) as Hb.
  destruct (agents st !! agent step) as [handle|] eqn:Hagent.
  2:{ rewrite (executeTaskStep_unregistered task step st Hagent). simpl. lia. }
  destruct (isAgentAvailable_cases (agent step) st) as [Hav | Hno].
  2:{ destruct (executeTaskStep_no_capacity task step st) as (e & ->).
      - destruct Hno as [Hno | (e & Hno)]; rewrite Hno; congruence.
      - simpl. lia. }
  rewrite (executeTaskStep_available task step st handle Hagent Hav).
  apply isAgentAvailable_true in Hav as (_ & config & Hcfg & _).
  assert (Hconfirmed :
            (if isSensitiveOperation step then confirmSensitiveOperation task step
             else ret true) st = (Returned true, st)).
  { destruct (isSensitiveOperation step) eqn:Hs; [|reflexivity].
    destruct Hfree as [Hfree | Hdone]; [congruence|].
    rewrite (confirmSensitiveOperation_spec task step st t Ht), Hdone. reflexivity. }
  unfold bind. rewrite Hconfirmed. cbn [negb].
  rewrite (invokeAgent_spec handle task step st t config Ht Hcfg).
  rewrite (timeoutOr10000_own _ _ Hcfg).
  pose proof (own_timeout_positive _ _ Hcfg) as Hpos.
  destruct (_ <=? _) eqn:Hlate; simpl.
  - apply Z.leb_le in Hlate. lia.
  - lia.
Qed.

Lemma runSteps_clock (task : nat) (t : Task) (plan_steps : list Step) :
  Forall (needsNoConfirmation t) plan_steps ->
  forall results st,
    objects st !! task = Some t ->
    let st' := after (runSteps task plan_steps results) st in
    clock st <= clock st' <= clock st + plannedTime plan_steps.
Proof.
  induction plan_steps as [|step rest IH]; intros Hfree results st Ht st'; subst st'.
  - unfold after, plannedTime. simpl. lia.
  - apply Forall_cons in Hfree as [Hstep Hrest].
    rewrite plannedTime_cons.
    pose proof (executeTaskStep_clock task t step st Ht Hstep) as Hc.
    pose proof (Quiet_executeTaskStep task step st) as Hq.
    unfold after in *. cbn [runSteps].
    destruct (executeTaskStep task step st) as [[r|e] st1]; cbn [snd] in Hc, Hq.
    + cbn [stepResult_complete].
      assert (Ht1 : objects st1 !! task = Some t)
        by (rewrite (quiet_objects _ _ Hq); exact Ht).
      pose proof (IH Hrest (results ++ [r]) st1 Ht1) as Hi. cbn zeta in Hi. lia.
    + assert (Ht1 : objects st1 !! task = Some t)
        by (rewrite (quiet_objects _ _ Hq); exact Ht).
      unfold bind. rewrite (canContinueOnError_spec task step e st1 t Ht1).
      destruct (negb (critical step || _ || _)); cbn [negb].
      * pose proof (IH Hrest (results ++ [StepFailed (message e) step]) st1 Ht1) as Hi.
        cbn zeta in Hi. lia.
      * unfold rethrow. cbn [snd]. pose proof (plannedTime_length rest). lia.
Qed.

Lemma compileTaskResults_time (task : nat) rs st res st' :
  compileTaskResults task rs st = (Returned res, st') ->
  exists t since,
    objects st !! task = Some t /\ started t = Some since
    /\ executionTime res = clock st - since.
Proof.
  unfold compileTaskResults. intros H.
  apply bind_returned in H. destruct H as (text & st1 & Hu & H).
  apply generateUnifiedResponse_returned in Hu. destruct Hu as (-> & _ & _).
  apply bind_returned in H. destruct H as (t & st1 & Hd & H).
  apply deref_returned in Hd. destruct Hd as [-> Ht].
  apply bind_returned in H. destruct H as (now & st1 & Hg & H).
  unfold gets in Hg. injection Hg as <- <-.
  destruct (started t) as [since|] eqn:Hs; [|discriminate].
  injection H as <- <-. exists t, since. auto.
Qed.

(** X7: a completed task none of whose steps has to ask for confirmation
    took no longer than the timeouts of its steps add up to; when that sum
    is within the cap of 60 s, the estimate given to the user was an upper
    bound of the time the task took. *)
Theorem execution_time_within_plan
  (task : nat) (t : Task) (st st' : Coordinator) (res : TaskResult) :
  objects st !! task = Some t ->
  Forall (needsNoConfirmation t) (steps (plan t)) ->
  executeTask task st = (Returned res, st') ->
  0 <= executionTime res <= plannedTime (steps (plan t))
  /\ (plannedTime (steps (plan t)) <= taskTimeout ->
      executionTime res <= estimateTaskTime (plan t)).
Proof.
  intros Ht Hfree He.
  apply executeTask_returned in He as (t0 & rs & st1 & Ht0 & Hrun & Hcomp & _).
  rewrite Ht in Ht0. injection Ht0 as <-.
  set (t1 := set_started (clock st) (set_status Executing t)).
  assert (Hnow : clock (after (beginTask task) st) = clock st) by reflexivity.
  pose proof (begun_lookup task st t Ht) as Ht1. fold t1 in Ht1.
  remember (after (beginTask task) st) as st0 eqn:Hst0.
  assert (Hfree1 : Forall (needsNoConfirmation t1) (steps (plan t))).
  { eapply Forall_impl; [exact Hfree|]. intros step Hs. exact Hs. }
  pose proof (runSteps_clock task t1 (steps (plan t)) Hfree1 [] st0 Ht1) as Hclock.
  cbn zeta in Hclock. unfold after in Hclock. rewrite Hrun in Hclock.
  cbn [snd] in Hclock.
  pose proof (Quiet_runSteps task (steps (plan t)) [] st0) as Hq.
  rewrite Hrun in Hq. cbn [snd] in Hq.
  apply compileTaskResults_time in Hcomp as (t2 & since & Ht2 & Hsince & Htime).
  rewrite (quiet_objects _ _ Hq), Ht1 in Ht2. injection Ht2 as <-.
  cbn in Hsince. injection Hsince as <-.
  rewrite Htime. split; [lia|].
  intros Hcap. rewrite estimateTaskTime_planned. lia.
Qed.

Lemma execution_time_within_plan_witness :
  let t := sampleTask "t1" 2 [lightsOn; speak; lightsOff] in
  let st := after (run shift in ret tt) partialStore in
  exists res st',
    executeTask 0 st = (Returned res, st')
    /\ 0 <= executionTime res <= plannedTime (steps (plan t))
    /\ executionTime res <= estimateTaskTime (plan t).
Proof.
  intros t st.
  destruct (executeTask 0 st) as [[res|e] st'] eqn:He; [|vm_compute in He; discriminate He].
  exists res, st'. split; [reflexivity|].
  destruct (execution_time_within_plan 0%nat t st st' res) as [Hb Hcap].
  - reflexivity.
  - repeat constructor.
  - exact He.
  - split; [exact Hb|]. apply Hcap. vm_compute. discriminate.
Defined.

(** ** Requests *)

Lemma processUserRequest_accepted (userInput : string) (ctx : Context) (random : string)
  (st st1 : Coordinator) (taskPlan : TaskPlan) :
  checkAndPlan userInput ctx st = (Returned taskPlan, st1) ->
  let taskId := "task_" +:+ pretty (clock st) +:+ "_" +:+ random in
  processUserRequest userInput ctx random st
  = (Returned (Accepted taskId "Request received and being processed"
                 (estimateTaskTime taskPlan)),
     after processTasks
       (after (submit (mainTask taskId userInput ctx taskPlan (clock st1))) st1)).
Proof.
  intros Hc taskId. rewrite submit_spec. cbn zeta. unfold after.
  unfold processUserRequest, generateTaskId, bind, try_catch, gets, ret. simpl.
  rewrite Hc. simpl. unfold newObject, addTask, bind, deref. simpl.
  rewrite list_lookup_middle by reflexivity. simpl.
  unfold modify, detached. simpl. reflexivity.
Qed.

(** X8: an accepted request is stored under the id that the caller gets:
    the store maps that id, and no other new one, to a new task object
    that carries the input, the context, the plan and priority 2. *)
Theorem accepted_request_is_stored
  (userInput : string) (ctx : Context) (random : string)
  (st st1 : Coordinator) (taskPlan : TaskPlan) :
  checkAndPlan userInput ctx st = (Returned taskPlan, st1) ->
  let taskId := "task_" +:+ pretty (clock st) +:+ "_" +:+ random in
  let task := List.length (objects st) in
  exists st2 t,
    processUserRequest userInput ctx random st
    = (Returned (Accepted taskId "Request received and being processed"
                   (estimateTaskTime taskPlan)), st2)
    /\ activeTasks st2 = <[taskId := task]> (activeTasks st)
    /\ List.length (objects st2) = S (List.length (objects st))
    /\ objects st2 !! task = Some t
    /\ sameTask (mainTask taskId userInput ctx taskPlan (clock st1)) t.
Proof.
  intros Hc taskId task.
  pose proof (Quiet_checkAndPlan userInput ctx st) as Hq.
  rewrite Hc in Hq. cbn [snd] in Hq. destruct Hq as (now & events & Hst1).
  rewrite (processUserRequest_accepted userInput ctx random st st1 taskPlan Hc).
  fold taskId.
  set (new := mainTask taskId userInput ctx taskPlan (clock st1)).
  set (st3 := after (submit new) st1).
  assert (Hobj : objects st3 = objects st ++ [new])
    by (unfold st3; rewrite submit_spec, Hst1; reflexivity).
  assert (Hact : activeTasks st3 = <[taskId := task]> (activeTasks st))
    by (unfold st3; rewrite submit_spec, Hst1; reflexivity).
  pose proof (Evolved_processTasks st3) as (Ha & _ & Hl & Ho).
  fold (after processTasks st3) in Ha, Hl, Ho.
  destruct (Ho task new) as (t & Ht & Hsame).
  { rewrite Hobj. apply list_lookup_middle. reflexivity. }
  exists (after processTasks st3), t. split; [reflexivity|].
  split; [rewrite Ha; exact Hact|]. split.
  { rewrite Hl, Hobj, length_app. simpl. lia. }
  split; [exact Ht|exact Hsame].
Qed.

Lemma accepted_request_is_stored_witness :
  let st := newCoordinator 1000 in
  exists st2 t,
    processUserRequest "turn on the lights" plainContext "x7" st
    = (Returned (Accepted "task_1000_x7" "Request received and being processed"
                   (estimateTaskTime fallbackPlan)), st2)
    /\ activeTasks st2 = <["task_1000_x7" := 0%nat]> (activeTasks st)
    /\ List.length (objects st2) = 1%nat
    /\ objects st2 !! 0%nat = Some t
    /\ sameTask (mainTask "task_1000_x7" "turn on the lights" plainContext fallbackPlan 1000) t.
Proof.
  intros st.
  apply (accepted_request_is_stored "turn on the lights" plainContext "x7" st st fallbackPlan).
  reflexivity.
Defined.

Lemma performSecurityCheck_outcome (userInput : string) (ctx : Context) (st : Coordinator) :
  let privacy :=
    if containsSensitiveData userInput
    then Thrown (mkError "Sensitive data detected") else Returned tt in
  (performSecurityCheck userInput ctx st).1
  = match securityVerdict st userInput ctx with
    | Some (Thrown e) => Thrown e
    | Some (Returned verdict) =>
        if String.eqb (threatLevel verdict) "high"
        then Thrown (mkError "Security threat detected")
        else if requiresAuthorization verdict
                && bool_decide (authorizationLevel ctx = Some "guest")
        then Thrown (mkError "Authorization required")
        else privacy
    | None => privacy
    end.
Proof.
  cbv beta iota zeta delta [performSecurityCheck securityVerdict bind gets await throw ret].
  destruct (agents st !! "security") as [sec|].
  - destruct (settles_with (analyzeRequest sec (clock st) userInput ctx)) as [verdict|e];
      [|reflexivity].
    destruct (String.eqb (threatLevel verdict) "high"); [reflexivity|].
    destruct (requiresAuthorization verdict && _); [reflexivity|].
    destruct (containsSensitiveData userInput); reflexivity.
  - destruct (containsSensitiveData userInput); reflexivity.
Qed.

Lemma processUserRequest_rejected (userInput : string) (ctx : Context) (random : string)
  (st : Coordinator) (e : Error) :
  (performSecurityCheck userInput ctx st).1 = Thrown e ->
  (processUserRequest userInput ctx random st).1
  = Returned (Rejected ("task_" +:+ pretty (clock st) +:+ "_" +:+ random)
                (message e) (classifyError e)).
Proof.
  intros H.
  cbv beta iota zeta delta [processUserRequest generateTaskId try_catch checkAndPlan
                            bind gets ret].
  destruct (performSecurityCheck userInput ctx st) as [[[]|e'] st1]; cbn [fst] in H.
  - discriminate H.
  - injection H as ->. reflexivity.
Qed.

(** X9: what the security check says of a request, in the order of its
    tests: a threat of level [high], then a missing authorization (only for
    a context that says [guest]), then sensitive data; and the reason that
    the rejected caller is given, which for sensitive data is [unknown]. *)
Theorem rejected_request_reasons
  (userInput : string) (ctx : Context) (random : string) (st : Coordinator) :
  let taskId := "task_" +:+ pretty (clock st) +:+ "_" +:+ random in
  let response := (processUserRequest userInput ctx random st).1 in
  let rejected msg reason := response = Returned (Rejected taskId msg reason) in
  let privacy :=
    if containsSensitiveData userInput
    then rejected "Sensitive data detected" "unknown"
    else (performSecurityCheck userInput ctx st).1 = Returned tt in
  match securityVerdict st userInput ctx with
  | Some (Thrown e) => rejected (message e) (classifyError e)
  | Some (Returned verdict) =>
      if String.eqb (threatLevel verdict) "high"
      then rejected "Security threat detected" "security"
      else if requiresAuthorization verdict
              && bool_decide (authorizationLevel ctx = Some "guest")
      then rejected "Authorization required" "authorization"
      else privacy
  | None => privacy
  end.
Proof.
  intros taskId response rejected privacy.
  pose proof (performSecurityCheck_outcome userInput ctx st) as Hout. cbn zeta in Hout.
  pose proof (processUserRequest_rejected userInput ctx random st) as Hrej.
  subst privacy rejected response taskId. cbv beta.
  destruct (securityVerdict st userInput ctx) as [[verdict|e]|].
  - destruct (String.eqb (threatLevel verdict) "high"); [apply (Hrej _ Hout)|].
    destruct (requiresAuthorization verdict && _); [apply (Hrej _ Hout)|].
    destruct (containsSensitiveData userInput); [apply (Hrej _ Hout)|exact Hout].
  - apply (Hrej _ Hout).
  - destruct (containsSensitiveData userInput); [apply (Hrej _ Hout)|exact Hout].
Qed.

(** X10: the estimate lies between 0 and the cap of 60 s, grows with the
    plan, and is the cap itself for every plan of twelve or more steps. *)
Theorem estimateTaskTime_capped (p : TaskPlan) (more : list Step) :
  0 <= estimateTaskTime p <= 60000
  /\ estimateTaskTime p <= estimateTaskTime (mkPlan (intent p) (steps p ++ more))
  /\ (steps p = [] -> estimateTaskTime p = 0)
  /\ ((12 <= List.length (steps p))%nat -> estimateTaskTime p = 60000).
Proof.
  rewrite !estimateTaskTime_planned. cbn [steps]. rewrite plannedTime_app.
  pose proof (plannedTime_length (steps p)) as Hp.
  pose proof (plannedTime_length more) as Hm.
  unfold taskTimeout. repeat split; try lia.
  intros ->. reflexivity.
Qed.

(** ** Events from agents *)

Lemma filter_stepDone (taskId : string) (l : list Step) :
  List.filter (stepDone taskId) l = [].
Proof. induction l as [|step l IH]; [reflexivity|exact IH]. Qed.

(** X11: an agent's [task_completed] event never completes a task that has
    a plan: the lookup of step results is a stub, so the handler counts no
    agent as done, and for a stored task with at least one step it leaves
    the coordinator as it is (the metrics of the system state apart). *)
Theorem completion_event_completes_no_planned_task
  (agentType taskId : string) (result : option float) (sys : SystemState)
  (st : Coordinator) (task : nat) (t : Task) :
  activeTasks st !! taskId = Some task ->
  objects st !! task = Some t ->
  steps (plan t) <> [] ->
  handleAgentTaskCompleted agentType taskId result sys st
  = (Returned (updateSystemState agentType "completed" result sys), st).
Proof.
  intros Hid Ht Hsteps.
  assert (Hcheck : checkTaskCompletion taskId st = (Returned tt, st)).
  { unfold checkTaskCompletion, bind, gets. rewrite Hid.
    rewrite (deref_found _ _ _ Ht).
    destruct (isExecuting t); [|reflexivity]. cbn [negb].
    rewrite filter_stepDone. cbn [map].
    destruct (steps (plan t)) as [|step rest]; [congruence|].
    rewrite bool_decide_eq_false_2; [reflexivity|].
    cbn [map list_to_set]. rewrite size_empty. intros Hsize. symmetry in Hsize.
    apply size_empty_iff, leibniz_equiv in Hsize.
    assert (Hin : agent step ∈ ({[agent step]} ∪ list_to_set (map agent rest) : gset string))
      by (apply elem_of_union_l, elem_of_singleton_2; reflexivity).
    rewrite Hsize in Hin. exact (not_elem_of_empty _ Hin). }
  unfold handleAgentTaskCompleted, bind. rewrite Hcheck. reflexivity.
Qed.

Lemma completion_event_completes_no_planned_task_witness :
  handleAgentTaskCompleted "voice" "t1" None newSystemState voiceCheckStore
  = (Returned (updateSystemState "voice" "completed" None newSystemState), voiceCheckStore).
Proof.
  apply (completion_event_completes_no_planned_task "voice" "t1" None newSystemState
           voiceCheckStore 0%nat
           (set_started 0 (set_status Executing (sampleTask "t1" 2 [speak])))).
  - reflexivity.
  - reflexivity.
  - discriminate.
Defined.

(** ** Performance metrics *)

Lemma metricsAfter_app (events : list (bool * option float)) (event : bool * option float) :
  metricsAfter (events ++ [event])
  = updatePerformanceMetrics event.1 event.2 (metricsAfter events).
Proof. unfold metricsAfter. rewrite fold_left_app. reflexivity. Qed.

Lemma rates_after (events : list (bool * option float)) :
  forall metrics,
    let final :=
      fold_left (fun metrics event => updatePerformanceMetrics event.1 event.2 metrics)
        events metrics in
    taskCompletionRate final
    = Nat.iter (List.length (List.filter fst events))
        (fun rate => Math_min 1 (PrimFloat.add rate completionStep))
        (taskCompletionRate metrics)
    /\ errorRate final
       = Nat.iter (List.length (List.filter (fun event => negb event.1) events))
           (fun rate => Math_min 1 (PrimFloat.add rate errorStep))
           (errorRate metrics).
Proof.
  induction events as [|[[] data] events IH]; intros metrics; cbn zeta.
  - split; reflexivity.
  - cbn [fold_left List.filter fst snd negb List.length].
    destruct (IH (updatePerformanceMetrics true data metrics)) as [Hc He].
    cbn zeta in Hc, He. rewrite Hc, He. rewrite Nat.iter_succ_r. split; reflexivity.
  - cbn [fold_left List.filter fst snd negb List.length].
    destruct (IH (updatePerformanceMetrics false data metrics)) as [Hc He].
    cbn zeta in Hc, He. rewrite Hc, He. rewrite Nat.iter_succ_r. split; reflexivity.
Qed.

(** A counter that starts at 0, grows by [step] and is cut at 1 stays
    between 0 and 1, never goes down, and is at 1 from the [full]-th
    increment on. *)
Lemma saturating_counter (step : float) (full : nat) :
  let next rate := Math_min 1 (PrimFloat.add rate step) in
  forallb (fun n =>
             PrimFloat.leb 0 (Nat.iter n next 0%float)
             && PrimFloat.leb (Nat.iter n next 0%float) 1
             && PrimFloat.leb (Nat.iter n next 0%float) (Nat.iter n next 0%float)
             && PrimFloat.leb (Nat.iter n next 0%float) (Nat.iter (S n) next 0%float))
    (seq 0 (S full)) = true ->
  Nat.iter full next 0%float = 1%float ->
  next 1%float = 1%float ->
  forall n,
    PrimFloat.leb 0 (Nat.iter n next 0%float) = true
    /\ PrimFloat.leb (Nat.iter n next 0%float) 1 = true
    /\ PrimFloat.leb (Nat.iter n next 0%float) (Nat.iter n next 0%float) = true
    /\ PrimFloat.leb (Nat.iter n next 0%float) (Nat.iter (S n) next 0%float) = true
    /\ ((full <= n)%nat -> Nat.iter n next 0%float = 1%float).
Proof.
  intros next Htable Hfull Hfix.
  assert (Hsat : forall n, (full <= n)%nat -> Nat.iter n next 0%float = 1%float).
  { intros n Hn. induction Hn as [|n Hn IH]; [exact Hfull|].
    change (Nat.iter (S n) next 0%float) with (next (Nat.iter n next 0%float)).
    rewrite IH. exact Hfix. }
  intros n. destruct (le_lt_dec full n) as [Hge|Hlt].
  - rewrite (Hsat n Hge), (Hsat (S n)) by lia. repeat split; reflexivity.
  - rewrite forallb_forall in Htable.
    specialize (Htable n ltac:(apply in_seq; lia)).
    apply andb_true_iff in Htable as [Htable H4].
    apply andb_true_iff in Htable as [Htable H3].
    apply andb_true_iff in Htable as [H1 H2].
    repeat split; try assumption. intros Hge. lia.
Qed.

(** X12: the completion rate and the error rate are counters, not rates:
    from the constructor's zeros, each stays between 0 and 1 and never
    goes down, whatever events follow; the completion rate is exactly 1
    from the 100th completion on, and the error rate from the 50th
    failure on. *)
Theorem performance_metrics_saturate
  (events : list (bool * option float)) (event : bool * option float) :
  let completions := List.length (List.filter fst events) in
  let failures := List.length (List.filter (fun e => negb e.1) events) in
  let before := metricsAfter events in
  let afterwards := metricsAfter (events ++ [event]) in
  PrimFloat.leb 0 (taskCompletionRate before) = true
  /\ PrimFloat.leb (taskCompletionRate before) 1 = true
  /\ PrimFloat.leb (taskCompletionRate before) (taskCompletionRate afterwards) = true
  /\ ((100 <= completions)%nat -> taskCompletionRate before = 1%float)
  /\ PrimFloat.leb 0 (errorRate before) = true
  /\ PrimFloat.leb (errorRate before) 1 = true
  /\ PrimFloat.leb (errorRate before) (errorRate afterwards) = true
  /\ ((50 <= failures)%nat -> errorRate before = 1%float).
Proof.
  intros completions failures before afterwards.
  pose proof (saturating_counter completionStep 100
                ltac:(vm_compute; reflexivity) ltac:(vm_compute; reflexivity)
                ltac:(vm_compute; reflexivity)) as Hc.
  pose proof (saturating_counter errorStep 50
                ltac:(vm_compute; reflexivity) ltac:(vm_compute; reflexivity)
                ltac:(vm_compute; reflexivity)) as He.
  cbn zeta in Hc, He.
  destruct (rates_after events (performanceMetrics newSystemState)) as [Hrate Herr].
  destruct (rates_after (events ++ [event]) (performanceMetrics newSystemState))
    as [Hrate' Herr'].
  cbn zeta in Hrate, Herr, Hrate', Herr'.
  fold (metricsAfter events) in Hrate, Herr.
  fold (metricsAfter (events ++ [event])) in Hrate', Herr'.
  fold before in Hrate, Herr. fold afterwards in Hrate', Herr'.
  rewrite !List.filter_app, !length_app in Hrate', Herr'.
  change (taskCompletionRate (performanceMetrics newSystemState)) with 0%float in *.
  change (errorRate (performanceMetrics newSystemState)) with 0%float in *.
  fold completions in Hrate, Hrate'. fold failures in Herr, Herr'.
  rewrite Hrate, Herr, Hrate', Herr'.
  destruct (Hc completions) as (C1 & C2 & C3 & C4 & C5).
  destruct (He failures) as (E1 & E2 & E3 & E4 & E5).
  destruct event as [[] data]; cbn [List.filter fst negb List.length];
    rewrite ?Nat.add_0_r, ?Nat.add_1_r; repeat split; assumption.
Qed.

(** ** Start-up *)

Lemma registerService_spec (services : gmap string AgentHandle) (kind : string)
  (st : Coordinator) :
  exists st',
    registerService services kind st = (Returned tt, st')
    /\ agents st' = match agentConfig kind with
                    | Undefined => agents st
                    | _ => withService services kind (agents st)
                    end
    /\ objects st' = objects st /\ activeTasks st' = activeTasks st
    /\ taskQueue st' = taskQueue st /\ taskResults st' = taskResults st
    /\ isProcessing st' = isProcessing st /\ clock st' = clock st /\ log st' = log st.
Proof.
  unfold registerService, withService. destruct (services !! kind) as [service|].
  - unfold try_catch. destruct (agentConfig kind) as [config| |] eqn:Hcfg.
    + rewrite registerAgent_known by (rewrite Hcfg; discriminate).
      eexists. split; [reflexivity|]. simpl. tauto.
    + rewrite registerAgent_known by (rewrite Hcfg; discriminate).
      eexists. split; [reflexivity|]. simpl. tauto.
    + rewrite registerAgent_unknown by exact Hcfg.
      eexists. split; [reflexivity|]. tauto.
  - exists st. split; [reflexivity|]. destruct (agentConfig kind); tauto.
Qed.

Lemma lookup_withService (services : gmap string AgentHandle) (kind other : string)
  (registry : gmap string AgentHandle) :
  withService services kind registry !! other
  = if decide (kind = other)
    then match services !! kind with
         | Some service => Some service
         | None => registry !! kind
         end
    else registry !! other.
Proof.
  unfold withService. destruct (decide (kind = other)) as [<-|Hne].
  - destruct (services !! kind); [apply lookup_insert_eq|reflexivity].
  - destruct (services !! kind); [apply lookup_insert_ne; exact Hne|reflexivity].
Qed.

(** The registry after [initialize]: the services of the five kinds that
    have a configuration of their own, then the two simulated agents. *)
Lemma initialize_spec (services : gmap string AgentHandle) (st : Coordinator) :
  exists st',
    initialize services st = (Returned tt, st')
    /\ agents st'
       = <["planning" := planningAgent]>
           (<["reasoning" := reasoningAgent]>
              (withService services "planning"
                 (withService services "reasoning"
                    (withService services "smart_home"
                       (withService services "emotion"
                          (withService services "voice"
                             (withService services "face"
                                (withService services "security" (agents st)))))))))
    /\ objects st' = objects st /\ activeTasks st' = activeTasks st
    /\ taskQueue st' = taskQueue st /\ taskResults st' = taskResults st
    /\ isProcessing st' = isProcessing st /\ clock st' = clock st /\ log st' = log st.
Proof.
  unfold initialize, availableAgents. cbn [forEach]. unfold bind.
  destruct (registerService_spec services "security" st)
    as (s1 & -> & A1 & O1 & T1 & Q1 & R1 & P1 & C1 & L1).
  destruct (registerService_spec services "face" s1)
    as (s2 & -> & A2 & O2 & T2 & Q2 & R2 & P2 & C2 & L2).
  destruct (registerService_spec services "voice" s2)
    as (s3 & -> & A3 & O3 & T3 & Q3 & R3 & P3 & C3 & L3).
  destruct (registerService_spec services "emotion" s3)
    as (s4 & -> & A4 & O4 & T4 & Q4 & R4 & P4 & C4 & L4).
  destruct (registerService_spec services "automation" s4)
    as (s5 & -> & A5 & O5 & T5 & Q5 & R5 & P5 & C5 & L5).
  destruct (registerService_spec services "smart_home" s5)
    as (s6 & -> & A6 & O6 & T6 & Q6 & R6 & P6 & C6 & L6).
  destruct (registerService_spec services "reasoning" s6)
    as (s7 & -> & A7 & O7 & T7 & Q7 & R7 & P7 & C7 & L7).
  destruct (registerService_spec services "planning" s7)
    as (s8 & -> & A8 & O8 & T8 & Q8 & R8 & P8 & C8 & L8).
  cbn [ret]. unfold createReasoningAgent, createPlanningAgent.
  rewrite registerAgent_known by (vm_compute; discriminate).
  rewrite registerAgent_known by (vm_compute; discriminate).
  eexists. split; [reflexivity|]. cbn [agents set_agents objects activeTasks taskQueue
                                      taskResults isProcessing clock log].
  split.
  { rewrite A8, A7, A6, A5, A4, A3, A2, A1. reflexivity. }
  repeat split; congruence.
Qed.

(** X13: after [initialize], whatever the services: [reasoning] and
    [planning] are the two simulated agents, also when the services bring
    agents of these kinds; a service under [security], [face], [voice],
    [emotion] or [smart_home] is registered under that name; nothing else
    is registered, so not a service under [automation] or [smartHome];
    and the tasks are as before. *)
Theorem initialize_registry (services : gmap string AgentHandle) (st : Coordinator) :
  exists st',
    initialize services st = (Returned tt, st')
    /\ agents st' !! "reasoning" = Some reasoningAgent
    /\ agents st' !! "planning" = Some planningAgent
    /\ (forall kind,
          In kind ["security"; "face"; "voice"; "emotion"; "smart_home"] ->
          agents st' !! kind
          = match services !! kind with
            | Some service => Some service
            | None => agents st !! kind
            end)
    /\ (forall kind,
          ~ In kind ["security"; "face"; "voice"; "emotion"; "smart_home";
                     "reasoning"; "planning"] ->
          agents st' !! kind = agents st !! kind)
    /\ objects st' = objects st /\ activeTasks st' = activeTasks st
    /\ taskQueue st' = taskQueue st /\ log st' = log st.
Proof.
  destruct (initialize_spec services st)
    as (st' & Hinit & Hagents & Ho & Ha & Hq & _ & _ & _ & Hl).
  exists st'. split; [exact Hinit|]. rewrite Hagents.
  split; [rewrite lookup_insert_ne by discriminate; apply lookup_insert_eq|].
  split; [apply lookup_insert_eq|].
  split.
  { intros kind Hkind. cbn [In] in Hkind.
    destruct Hkind as [<-|[<-|[<-|[<-|[<-|[]]]]]];
      rewrite !lookup_insert_ne by discriminate;
      repeat (rewrite lookup_withService;
              match goal with
              | |- context [decide (?a = ?b)] =>
                  let H := fresh in
                  destruct (decide (a = b)) as [H|H];
                  [try discriminate H|try (exfalso; apply H; reflexivity)]
              end);
      reflexivity. }
  split.
  { intros kind Hkind. cbn [In] in Hkind.
    rewrite !lookup_insert_ne by (intros <-; tauto).
    repeat (rewrite lookup_withService;
            destruct (decide (_ = kind)) as [<-|_]; [exfalso; tauto|]).
    reflexivity. }
  auto.
Qed.

(** ** Where a task goes in the queue *)

Section Position.
Variable key : nat -> Z.

Lemma insertSorted_front (x : nat) (l : list nat) :
  Forall (fun r => key x <= key r) l ->
  insertSorted (byKey key) x l = x :: l.
Proof.
  intros Hl. destruct l as [|y l]; [reflexivity|].
  apply Forall_cons in Hl as [Hy _]. cbn [insertSorted]. unfold byKey.
  destruct (key x - key y <=? 0) eqn:E; [reflexivity|].
  apply Z.leb_gt in E. lia.
Qed.

(** Pushing [x] and sorting puts [x] behind the elements whose key is not
    above its own and before the others, which keep their order. *)
Lemma sort_push_position (x : nat) (q : list nat) :
  StronglySorted (fun a b => key a <= key b) q ->
  exists before behind,
    q = before ++ behind
    /\ sort (byKey key) (q ++ [x]) = before ++ x :: behind
    /\ Forall (fun r => key r <= key x) before
    /\ Forall (fun r => key x < key r) behind.
Proof.
  unfold sort. rewrite foldr_app. cbn [foldr].
  induction q as [|y q IH]; intros Hsorted.
  - exists [], []. repeat split; constructor.
  - apply StronglySorted_inv in Hsorted as [Hq Hy].
    destruct (IH Hq) as (before & behind & -> & Hsort & Hbefore & Hbehind).
    cbn [foldr]. rewrite Hsort.
    apply Forall_app in Hy as [Hy1 Hy2].
    destruct before as [|z before].
    + cbn [app insertSorted].
      destruct (byKey key y x <=? 0) eqn:E; unfold byKey in E.
      * apply Z.leb_le in E. exists [y], behind. repeat split; auto.
        constructor; [lia|constructor].
      * apply Z.leb_gt in E. exists [], (y :: behind).
        rewrite (insertSorted_front y behind Hy2).
        repeat split; auto. constructor; [lia|exact Hbehind].
    + apply Forall_cons in Hy1 as [Hyz Hy1].
      apply Forall_cons in Hbefore as [Hz Hbefore].
      cbn [app insertSorted].
      destruct (byKey key y z <=? 0) eqn:E; unfold byKey in E;
        [|apply Z.leb_gt in E; lia].
      exists (y :: z :: before), behind. repeat split; auto.
      constructor; [lia|]. constructor; assumption.
Qed.

End Position.

(** X14: [addTask] puts a task behind every queued task whose priority value
    is not above its own and before every other one, leaves the rest of the
    queue in its order, and stores the task under its id. *)
Theorem addTask_position (task : nat) (t : Task) (st : Coordinator) :
  objects st !! task = Some t ->
  StronglySorted (fun a b => priorityOf (objects st) a <= priorityOf (objects st) b)
    (taskQueue st) ->
  exists before behind,
    taskQueue st = before ++ behind
    /\ addTask task st
       = (Returned tt,
          set_activeTasks (<[task_id t := task]> (activeTasks st))
            (set_taskQueue (before ++ task :: behind) st))
    /\ Forall (fun r => priorityOf (objects st) r <= priority t) before
    /\ Forall (fun r => priority t < priorityOf (objects st) r) behind.
Proof.
  intros Ht Hsorted.
  destruct (sort_push_position (priorityOf (objects st)) task (taskQueue st) Hsorted)
    as (before & behind & Hq & Hsort & Hbefore & Hbehind).
  assert (Hp : priorityOf (objects st) task = priority t)
    by (unfold priorityOf; rewrite Ht; reflexivity).
  rewrite Hp in Hbefore, Hbehind.
  exists before, behind. split; [exact Hq|]. split; [|auto].
  unfold addTask, bind. rewrite (deref_found _ _ _ Ht). unfold modify.
  rewrite Hsort. reflexivity.
Qed.

Lemma addTask_position_witness :
  let st := after (newObject (sampleTask "urgent" 1 []))
              (history [Submit (sampleTask "a" 0 []); Submit (sampleTask "b" 2 [])]
                 (newCoordinator 0)) in
  exists before behind,
    taskQueue st = before ++ behind
    /\ addTask 2 st
       = (Returned tt,
          set_activeTasks (<["urgent" := 2%nat]> (activeTasks st))
            (set_taskQueue (before ++ 2%nat :: behind) st))
    /\ Forall (fun r => priorityOf (objects st) r <= 1) before
    /\ Forall (fun r => 1 < priorityOf (objects st) r) behind.
Proof.
  intros st.
  apply (addTask_position 2%nat (sampleTask "urgent" 1 []) st).
  - reflexivity.
  - change (taskQueue st) with [0%nat; 1%nat].
    repeat constructor. vm_compute. discriminate.
Defined.

(** X15: a security alert of level [high] puts a task of priority 1 into the
    queue, before every waiting task of a larger priority value (so before
    every user request) and behind the others; it does not start the
    dispatcher.  An alert of another level changes nothing. *)
Theorem high_alert_overtakes_user_requests
  (alert : Alert) (random : string) (st : Coordinator) :
  Forall (fun r => (r < List.length (objects st))%nat) (taskQueue st) ->
  StronglySorted (fun a b => priorityOf (objects st) a <= priorityOf (objects st) b)
    (taskQueue st) ->
  let st' := after (handleSecurityAlert alert random) st in
  if String.eqb (level alert) "high" then
    let taskId := "task_" +:+ pretty (clock st) +:+ "_" +:+ random in
    let task := List.length (objects st) in
    exists before behind,
      taskQueue st = before ++ behind
      /\ taskQueue st' = before ++ task :: behind
      /\ Forall (fun r => priorityOf (objects st) r <= 1) before
      /\ Forall (fun r => 1 < priorityOf (objects st) r) behind
      /\ objects st' = objects st ++ [securityTask taskId alert (clock st)]
      /\ activeTasks st' = <[taskId := task]> (activeTasks st)
      /\ isProcessing st' = isProcessing st /\ log st' = log st
  else st' = st.
Proof.
  intros Hvalid Hsorted. cbv zeta. unfold after, handleSecurityAlert.
  destruct (String.eqb (level alert) "high"); [|reflexivity].
  set (taskId := "task_" +:+ pretty (clock st) +:+ "_" +:+ random).
  set (task := List.length (objects st)).
  set (new := securityTask taskId alert (clock st)).
  set (h := objects st ++ [new]).
  assert (Hold : forall r, r ∈ taskQueue st -> priorityOf h r = priorityOf (objects st) r).
  { intros r Hr. apply priorityOf_app_old.
    rewrite Forall_forall in Hvalid. apply Hvalid, Hr. }
  assert (Hsorted' : StronglySorted (fun a b => priorityOf h a <= priorityOf h b) (taskQueue st)).
  { eapply StronglySorted_weaken; [|exact Hsorted].
    intros a b Ha Hb Hab. cbv beta. rewrite (Hold a Ha), (Hold b Hb). exact Hab. }
  destruct (sort_push_position (priorityOf h) task (taskQueue st) Hsorted')
    as (before & behind & Hq & Hsort & Hbefore & Hbehind).
  assert (Hp : priorityOf h task = 1).
  { unfold priorityOf, h, task. rewrite list_lookup_middle by reflexivity. reflexivity. }
  rewrite Hp in Hbefore, Hbehind.
  exists before, behind. split; [exact Hq|].
  change ((let* id := generateTaskId random in
           let* now := gets clock in
           let* securityTask :=
             newObject (mkTask id "security" taskPriorities_security
                          ("Security alert: " +:+ alert_message alert) alertContext
                          alertPlan Pending now 10000 None None None None) in
           addTask securityTask) st).2
    with (after (submit new) st).
  rewrite submit_spec. cbn zeta. fold h. fold task.
  cbn [taskQueue set_taskQueue set_activeTasks set_objects objects activeTasks
       isProcessing log].
  rewrite Hsort.
  split; [reflexivity|]. rewrite Hq in Hold. split.
  { apply Forall_forall. intros r Hr. rewrite <- Hold by (apply elem_of_app; left; exact Hr).
    rewrite Forall_forall in Hbefore. apply Hbefore, Hr. }
  split.
  { apply Forall_forall. intros r Hr. rewrite <- Hold by (apply elem_of_app; right; exact Hr).
    rewrite Forall_forall in Hbehind. apply Hbehind, Hr. }
  repeat split; reflexivity.
Qed.

Lemma high_alert_overtakes_user_requests_witness :
  let st := history [Submit (sampleTask "a" 0 []); Submit (sampleTask "b" 2 [])]
              (newCoordinator 0) in
  let st' := after (handleSecurityAlert (mkAlert "high" "door forced") "x7") st in
  exists before behind,
    taskQueue st = before ++ behind
    /\ taskQueue st' = before ++ 2%nat :: behind
    /\ Forall (fun r => priorityOf (objects st) r <= 1) before
    /\ Forall (fun r => 1 < priorityOf (objects st) r) behind
    /\ objects st' = objects st ++ [securityTask "task_0_x7" (mkAlert "high" "door forced") 0]
    /\ activeTasks st' = <["task_0_x7" := 2%nat]> (activeTasks st)
    /\ isProcessing st' = isProcessing st /\ log st' = log st.
Proof.
  intros st.
  apply (high_alert_overtakes_user_requests (mkAlert "high" "door forced") "x7" st).
  - change (taskQueue st) with [0%nat; 1%nat]. change (List.length (objects st)) with 2%nat.
    repeat constructor.
  - change (taskQueue st) with [0%nat; 1%nat].
    repeat constructor. vm_compute. discriminate.
Defined.

(** ** The retention sweep, again *)

Lemma sweep_fold_none (now : Z) (st : Coordinator) (l : list (string * nat)) :
  Forall (fun entry => sweeps now st entry = false) l ->
  foldr (sweepEntry now) st l = st.
Proof.
  induction l as [|entry l IH]; intros Hl; [reflexivity|].
  apply Forall_cons in Hl as [He Hl]. cbn [foldr]. rewrite (IH Hl).
  unfold sweepEntry. unfold sweeps in He.
  destruct (objects st !! entry.2) as [t|]; [|reflexivity].
  rewrite He. reflexivity.
Qed.

(** X16: a second sweep at the same time removes nothing more: what the
    sweep leaves is exactly what is not due. *)
Theorem cleanup_twice_is_cleanup_once (st : Coordinator) :
  after cleanupCompletedTasks (after cleanupCompletedTasks st)
  = after cleanupCompletedTasks st.
Proof.
  set (st' := after cleanupCompletedTasks st).
  assert (Hst' : st' = foldr (sweepEntry (clock st)) st (map_to_list (activeTasks st)))
    by reflexivity.
  destruct (sweep_fold_frame (clock st) st (map_to_list (activeTasks st)))
    as (Hobj & _ & _ & _ & Hclock).
  rewrite <- Hst' in Hobj, Hclock.
  change (after cleanupCompletedTasks st')
    with (foldr (sweepEntry (clock st')) st' (map_to_list (activeTasks st'))).
  apply sweep_fold_none. apply Forall_forall. intros [id r] Hin.
  apply elem_of_map_to_list in Hin.
  destruct (sweep_fold_lookup (clock st) st (map_to_list (activeTasks st)) id) as [Hlook _].
  cbn zeta in Hlook. rewrite <- Hst' in Hlook. rewrite Hin in Hlook.
  destruct (existsb _ _) eqn:Hhit in Hlook; [discriminate Hlook|].
  symmetry in Hlook. rewrite (sweep_hit (clock st) st id r Hlook) in Hhit.
  unfold sweeps in *. rewrite Hobj, Hclock. exact Hhit.
Qed.

(** ** Shutdown *)

Lemma destroyed_stays_empty (op : QueueOp) (st : Coordinator) :
  submitted [op] = [] ->
  taskQueue st = [] -> activeTasks st = ∅ ->
  exists now, after (applyOp op) st = set_clock now st.
Proof.
  intros Hop Hq Ha. destruct op as [t| | | |id e|now]; cbn [applyOp].
  - discriminate Hop.
  - exists (clock st). unfold after, processTasks. rewrite Hq, orb_true_r.
    destruct st; reflexivity.
  - exists (clock st). unfold after, startDispatch. rewrite Hq, orb_true_r.
    destruct st; reflexivity.
  - exists (clock st). unfold after, cleanupCompletedTasks, modify. cbn [snd].
    rewrite Ha, map_to_list_empty. destruct st; reflexivity.
  - exists (clock st). unfold after, handleTaskFailure, bind, gets. cbn [fst snd].
    rewrite Ha, lookup_empty. destruct st; reflexivity.
  - exists (Z.max (clock st) now). reflexivity.
Qed.

(** X17: [destroy] empties the queue, the store and the results, and keeps
    the registry and the task objects; it stops neither timer, and with no
    dispatch in flight whatever the timers and the agents' events then run
    (anything but a new submission) finds nothing to do: only time
    passes. *)
Theorem destroyed_coordinator_stays_empty (st : Coordinator) (ops : list QueueOp) :
  isProcessing st = false ->
  submitted ops = [] ->
  let st' := history ops (after destroy st) in
  taskQueue st' = [] /\ activeTasks st' = ∅ /\ taskResults st' = ∅
  /\ agents st' = agents st /\ objects st' = objects st /\ log st' = log st
  /\ isProcessing st' = false.
Proof.
  intros Hidle Hops st'. subst st'.
  assert (H0 : let st0 := after destroy st in
               taskQueue st0 = [] /\ activeTasks st0 = ∅ /\ taskResults st0 = ∅
               /\ agents st0 = agents st /\ objects st0 = objects st /\ log st0 = log st
               /\ isProcessing st0 = false).
  { cbn. rewrite Hidle. tauto. }
  cbn zeta in H0. revert H0. generalize (after destroy st) as st0.
  induction ops as [|op ops IH]; intros st0 H0; [exact H0|].
  cbn [history fold_left].
  assert (Hop : submitted [op] = [] /\ submitted ops = []).
  { destruct op; cbn [submitted] in *; try discriminate Hops; auto. }
  destruct Hop as [Hop Hrest].
  destruct H0 as (Hq & Ha & Hr & Hg & Ho & Hl & Hp).
  destruct (destroyed_stays_empty op st0 Hop Hq Ha) as (now & ->).
  apply (IH Hrest). cbn. tauto.
Qed.

Lemma destroyed_coordinator_stays_empty_witness :
  let st' := history [Dispatch; Sweep; AgentFailed "t1" (mkError "late"); Tick 31000]
               (after destroy finishedStore) in
  taskQueue st' = [] /\ activeTasks st' = ∅ /\ taskResults st' = ∅
  /\ agents st' = agents finishedStore /\ objects st' = objects finishedStore
  /\ log st' = log finishedStore /\ isProcessing st' = false.
Proof.
  apply (destroyed_coordinator_stays_empty finishedStore
           [Dispatch; Sweep; AgentFailed "t1" (mkError "late"); Tick 31000]).
  - reflexivity.
  - reflexivity.
Defined.

(** ** Kinds found on [Object.prototype] *)

(** X18: [registerAgent] takes a kind that is the name of a member of
    [Object.prototype] (the test [!this.agentConfig[agentType]] finds that
    member), with [undefined] for capabilities; such an agent is never
    available: every step for it fails as busy, whatever the store. *)
Theorem inherited_kind_is_registered_but_never_available
  (kind : string) (handle : AgentHandle) (st : Coordinator) (task : nat) (step : Step) :
  In kind objectPrototypeKeys ->
  agent step = kind ->
  let st' := after (registerAgent kind handle) st in
  registerAgent kind handle st = (Returned tt, st')
  /\ agents st' !! kind = Some handle
  /\ agentCapabilities st' !! kind = Some None
  /\ executeTaskStep task step st'
     = (Thrown (mkError ("Agent " +:+ kind +:+ " is busy")), st').
Proof.
  intros Hkind Hstep st'. subst st'.
  assert (Hcfg : agentConfig kind = Inherited).
  { cbn [objectPrototypeKeys In] in Hkind.
    repeat (destruct Hkind as [<-|Hkind]; [reflexivity|]). destruct Hkind. }
  unfold after. rewrite registerAgent_known by (rewrite Hcfg; discriminate).
  rewrite Hcfg. cbn [snd capabilitiesOf agents agentCapabilities set_agents].
  split; [reflexivity|]. split; [apply lookup_insert_eq|].
  split; [apply lookup_insert_eq|].
  unfold executeTaskStep, bind, gets. cbn [fst snd agents set_agents].
  rewrite Hstep, lookup_insert_eq. unfold isAgentAvailable.
  cbn [agents set_agents]. rewrite lookup_insert_eq, Hcfg. reflexivity.
Qed.

Lemma inherited_kind_is_registered_but_never_available_witness :
  let st' := after (registerAgent "constructor" (sampleAgent "hello" 5 false))
               (newCoordinator 0) in
  registerAgent "constructor" (sampleAgent "hello" 5 false) (newCoordinator 0)
  = (Returned tt, st')
  /\ agents st' !! "constructor" = Some (sampleAgent "hello" 5 false)
  /\ agentCapabilities st' !! "constructor" = Some None
  /\ executeTaskStep 0 (mkStep "constructor" "greet" None false) st'
     = (Thrown (mkError "Agent constructor is busy"), st').
Proof.
  apply (inherited_kind_is_registered_but_never_available "constructor"
           (sampleAgent "hello" 5 false) (newCoordinator 0) 0%nat
           (mkStep "constructor" "greet" None false)).
  - left. reflexivity.
  - reflexivity.
Defined.

(** ** What never runs *)

(** X19: the task of a security alert is never handled: its only step is
    for the kind [security], which has one slot, and once the task is
    started the slot counts as taken by the task itself.  No agent is
    called, and the task ends failed, or completed without a success. *)
Theorem high_alert_is_never_handled (alert : Alert) (random : string) (st : Coordinator) :
  level alert = "high" ->
  let st1 := after (handleSecurityAlert alert random) st in
  let task := List.length (objects st) in
  let taskId := "task_" +:+ pretty (clock st) +:+ "_" +:+ random in
  exists st' t',
    dispatchNext task st1 = (Returned tt, st')
    /\ objects st' !! task = Some t'
    /\ ((status t' = Failed /\ log st' = log st ++ [Emitted_task_failed taskId])
        \/ (status t' = Completed
            /\ log st' = log st ++ [Emitted_task_completed taskId]
            /\ exists res,
                 task_result t' = Some res /\ res_success res = false
                 /\ Forall (fun r => success r = false) (allResults res)
                 /\ List.length (allResults res) = 1%nat)).
Proof.
  intros Hhigh st1 task taskId.
  set (new := securityTask taskId alert (clock st)).
  assert (Hst1 : st1 = after (submit new) st).
  { unfold st1, after, handleSecurityAlert. rewrite Hhigh. reflexivity. }
  rewrite submit_spec in Hst1. cbn zeta in Hst1. fold task in Hst1.
  assert (Hid : activeTasks st1 !! taskId = Some task)
    by (rewrite Hst1; apply lookup_insert_eq).
  assert (Ht : objects st1 !! task = Some new)
    by (rewrite Hst1; apply list_lookup_middle; reflexivity).
  assert (Hlog : log st1 = log st) by (rewrite Hst1; reflexivity).
  rewrite <- Hlog.
  apply (dispatchNext_nothing_runs task new st1 Ht).
  apply (single_slot_steps_fail task taskId new st1 Hid Ht).
  constructor; [vm_compute; discriminate|constructor].
Qed.

Lemma high_alert_is_never_handled_witness :
  let st := withAgents [("security", sampleAgent "handled" 5 true)] in
  let st1 := after (handleSecurityAlert (mkAlert "high" "door forced") "x7") st in
  exists st' t',
    dispatchNext 0 st1 = (Returned tt, st')
    /\ objects st' !! 0%nat = Some t'
    /\ ((status t' = Failed /\ log st' = log st ++ [Emitted_task_failed "task_0_x7"])
        \/ (status t' = Completed
            /\ log st' = log st ++ [Emitted_task_completed "task_0_x7"]
            /\ exists res,
                 task_result t' = Some res /\ res_success res = false
                 /\ Forall (fun r => success r = false) (allResults res)
                 /\ List.length (allResults res) = 1%nat)).
Proof.
  intros st.
  apply (high_alert_is_never_handled (mkAlert "high" "door forced") "x7" st).
  reflexivity.
Defined.

Lemma set_clock_same (st : Coordinator) : set_clock (Z.max (clock st) (clock st)) st = st.
Proof. rewrite Z.max_id. destruct st; reflexivity. Qed.

(** X20: after [initialize], every request is planned by the simulated
    reasoning agent, whatever the services; and a task with the plan made
    for a request that mentions neither lights nor temperature is one
    [voice] step that never runs: [voice] has one slot, which the task
    itself takes, so no agent is called and the task ends without a
    success. *)
Theorem after_initialize_voice_requests_reach_no_agent
  (services : gmap string AgentHandle) (st0 : Coordinator)
  (userInput : string) (ctx : Context)
  (st2 : Coordinator) (id : string) (task : nat) (t : Task) :
  let st := after (initialize services) st0 in
  includes (toLowerCase userInput) "lights" = false ->
  includes (toLowerCase userInput) "temperature" = false ->
  (createTaskPlan userInput ctx st).1 = Returned (plan t) ->
  activeTasks st2 !! id = Some task ->
  objects st2 !! task = Some t ->
  createTaskPlan userInput ctx st = (Returned (simulatedPlan userInput), st)
  /\ Forall (fun step => agent step = "voice") (steps (plan t))
  /\ exists st' t',
       dispatchNext task st2 = (Returned tt, st')
       /\ objects st' !! task = Some t'
       /\ ((status t' = Failed
            /\ log st' = log st2 ++ [Emitted_task_failed (task_id t)])
           \/ (status t' = Completed
               /\ log st' = log st2 ++ [Emitted_task_completed (task_id t)]
               /\ exists res,
                    task_result t' = Some res /\ res_success res = false
                    /\ Forall (fun r => success r = false) (allResults res))).
Proof.
  intros st Hlights Htemp Hplanned Hid Ht.
  assert (Hcreate : createTaskPlan userInput ctx st = (Returned (simulatedPlan userInput), st)).
  { destruct (initialize_spec services st0) as (st' & Hinit & Hagents & _).
    assert (st = st') as Hst by (unfold st, after; rewrite Hinit; reflexivity).
    assert (Hr : agents st !! "reasoning" = Some reasoningAgent).
    { rewrite Hst, Hagents. rewrite lookup_insert_ne by discriminate.
      apply lookup_insert_eq. }
    unfold createTaskPlan, bind, gets. rewrite Hr. cbn [fst snd].
    unfold await. cbn [analyzeIntent reasoningAgent settles_with settles_at].
    rewrite set_clock_same. reflexivity. }
  split; [exact Hcreate|].
  rewrite Hcreate in Hplanned. cbn [fst] in Hplanned. injection Hplanned as Hplan.
  assert (Hvoice : Forall (fun step => agent step = "voice") (steps (plan t))).
  { rewrite <- Hplan. unfold simulatedPlan, detectedIntent, intents. cbn [List.find fst snd].
    rewrite Hlights, Htemp.
    destruct (includes (toLowerCase userInput) "music"); [repeat constructor|].
    destruct (includes (toLowerCase userInput) "weather"); [repeat constructor|].
    destruct (includes (toLowerCase userInput) "time"); [repeat constructor|].
    destruct (includes (toLowerCase userInput) "help"); repeat constructor. }
  split; [exact Hvoice|].
  assert (Hsteps : Forall (fun step => capacity (agent step) <= 1) (steps (plan t))).
  { eapply Forall_impl; [exact Hvoice|]. intros step ->. vm_compute. discriminate. }
  destruct (dispatchNext_nothing_runs task t st2 Ht
              (single_slot_steps_fail task id t st2 Hid Ht Hsteps))
    as (st' & t' & Hd & Ht' & Hend).
  exists st', t'. split; [exact Hd|]. split; [exact Ht'|].
  destruct Hend as [Hfailed | (Hdone & Hlog & res & Hres & Hsucc & Hall & _)];
    [left; exact Hfailed|right].
  split; [exact Hdone|]. split; [exact Hlog|]. exists res. auto.
Qed.

Lemma after_initialize_voice_requests_reach_no_agent_witness :
  let services : gmap string AgentHandle := {[ "voice" := sampleAgent "spoken" 5 false ]} in
  let st := after (initialize services) (newCoordinator 0) in
  let t := mainTask "t1" "what time is it" plainContext (simulatedPlan "what time is it") 0 in
  let st2 := history [Submit t] st in
  createTaskPlan "what time is it" plainContext st
  = (Returned (simulatedPlan "what time is it"), st)
  /\ Forall (fun step => agent step = "voice") (steps (plan t))
  /\ exists st' t',
       dispatchNext 0 st2 = (Returned tt, st')
       /\ objects st' !! 0%nat = Some t'
       /\ ((status t' = Failed
            /\ log st' = log st2 ++ [Emitted_task_failed (task_id t)])
           \/ (status t' = Completed
               /\ log st' = log st2 ++ [Emitted_task_completed (task_id t)]
               /\ exists res,
                    task_result t' = Some res /\ res_success res = false
                    /\ Forall (fun r => success r = false) (allResults res))).
Proof.
  intros services st t st2.
  apply (after_initialize_voice_requests_reach_no_agent services (newCoordinator 0)
           "what time is it" plainContext st2 "t1" 0%nat t).
  - reflexivity.
  - reflexivity.
  - vm_compute. reflexivity.
  - vm_compute. reflexivity.
  - vm_compute. reflexivity.
Defined.

(** ** The limit of ten tasks *)

Lemma noneExecuting_lookup (st : Coordinator) :
  noneExecuting st <-> forall r t, objects st !! r = Some t -> status t <> Executing.
Proof. unfold noneExecuting. apply Forall_lookup. Qed.

Lemma filter_none {A : Type} (f : A -> bool) (l : list A) :
  Forall (fun x => f x = false) l -> List.filter f l = [].
Proof.
  induction l as [|x l IH]; intros Hl; [reflexivity|].
  apply Forall_cons in Hl as [Hx Hl]. cbn [List.filter]. rewrite Hx. apply IH, Hl.
Qed.

Lemma noneExecuting_count (st : Coordinator) :
  noneExecuting st -> getActiveTaskCount st = 0%nat.
Proof.
  intros Hnone. unfold getActiveTaskCount. rewrite filter_none; [reflexivity|].
  apply Forall_forall. intros t Ht. unfold storedTasks in Ht.
  apply list_elem_of_omap in Ht as ([id r] & _ & Hr). cbn [snd] in Hr.
  apply noneExecuting_lookup in Hr; [|exact Hnone].
  unfold isExecuting. apply bool_decide_eq_false_2. exact Hr.
Qed.

Lemma settled_not_executing (t : Task) : settled t -> status t <> Executing.
Proof. intros [[H|H] _]; rewrite H; discriminate. Qed.

Lemma dispatchNext_noneExecuting (task : nat) (st : Coordinator) :
  (task < List.length (objects st))%nat ->
  noneExecuting st -> noneExecuting (after (dispatchNext task) st).
Proof.
  intros Hvalid Hnone. apply noneExecuting_lookup. intros r t Ht.
  destruct (decide (r = task)) as [->|Hne].
  - destruct (dispatchNext_settles task st Hvalid) as (st' & Hd & t' & Ht' & Hs).
    unfold after in Ht. rewrite Hd in Ht. cbn [snd] in Ht.
    rewrite Ht' in Ht. injection Ht as <-. apply settled_not_executing, Hs.
  - unfold after in Ht. rewrite (Untouched_dispatchNext task st r Hne) in Ht.
    revert Ht. apply noneExecuting_lookup. exact Hnone.
Qed.

(** The dispatcher's flag is set and reset by [processTasks] only. *)
Lemma Quiet_flag_dispatchNext (task : nat) (st : Coordinator) :
  isProcessing (after (dispatchNext task) st) = isProcessing st.
Proof.
  assert (H : Keeps (fun a b => isProcessing b = isProcessing a) (dispatchNext task)).
  { assert (PreOrder (fun a b : Coordinator => isProcessing b = isProcessing a)).
    { split; [intros x; reflexivity|intros x y z H1 H2; congruence]. }
    assert (Hquiet : forall a b, quiet a b -> isProcessing b = isProcessing a).
    { intros a b (now & events & ->). reflexivity. }
    assert (Hmod : forall f, (forall a, isProcessing (f a) = isProcessing a) ->
                             Keeps (fun a b => isProcessing b = isProcessing a) (modify f)).
    { intros f Hf a. apply Hf. }
    unfold dispatchNext, executeTask, beginTask, handleTaskError, compileTaskResults,
      generateUnifiedResponse, updateTask, emit.
    keeps_steps;
      first [ apply Hmod; reflexivity
            | apply (Keeps_weaken quiet); [exact Hquiet|apply Quiet_runSteps] ]. }
  apply H.
Qed.

(** With no task executing, the loop goes on until the queue is empty. *)
Lemma dispatchLoop_drains (fuel : nat) :
  forall st,
    (List.length (taskQueue st) <= fuel)%nat ->
    Forall (fun r => (r < List.length (objects st))%nat) (taskQueue st) ->
    noneExecuting st ->
    exists st',
      dispatchLoop fuel st = (Returned tt, st')
      /\ taskQueue st' = [] /\ noneExecuting st'
      /\ List.length (objects st') = List.length (objects st)
      /\ isProcessing st' = isProcessing st
      /\ (forall r, settledAt st r -> settledAt st' r)
      /\ Forall (settledAt st') (taskQueue st).
Proof.
  induction fuel as [|fuel IH]; intros st Hlen Hvalid Hnone.
  - exists st. destruct (taskQueue st) as [|r q] eqn:Hq; [|simpl in Hlen; lia].
    cbn [dispatchLoop]. repeat split; auto.
  - cbn [dispatchLoop]. destruct (taskQueue st) as [|r q] eqn:Hq.
    { exists st. unfold canDispatch. rewrite Hq. cbn. repeat split; auto. }
    assert (Hcan : canDispatch st = true).
    { unfold canDispatch. rewrite Hq, (noneExecuting_count st Hnone). reflexivity. }
    rewrite Hcan. unfold bind, shift. rewrite Hq.
    set (st1 := set_taskQueue q st).
    apply Forall_cons in Hvalid as [Hr Hrest].
    destruct (dispatchNext_settles r st1 Hr) as (st2 & Hd & Hs).
    pose proof (dispatchNext_noneExecuting r st1 Hr Hnone) as Hnone2.
    pose proof (Steady_dispatchNext r st1) as (Hq2 & _ & Hlen2 & _).
    assert (Hflag2 : isProcessing (after (dispatchNext r) st1) = isProcessing st1).
    { pose proof (Quiet_flag_dispatchNext r st1) as H. exact H. }
    unfold after in Hnone2, Hflag2. rewrite Hd in *. cbn [snd] in *.
    destruct (IH st2) as (st' & Hloop & Hq' & Hnone' & Hlen' & Hflag' & Hkeep & Htaken).
    { rewrite Hq2. simpl. simpl in Hlen. lia. }
    { rewrite Hq2, Hlen2. exact Hrest. }
    { exact Hnone2. }
    exists st'. split; [exact Hloop|]. split; [exact Hq'|]. split; [exact Hnone'|].
    split; [rewrite Hlen', Hlen2; reflexivity|].
    split; [rewrite Hflag', Hflag2; reflexivity|].
    split.
    { intros r' Hr'. apply Hkeep.
      pose proof (dispatchNext_keeps_settled r r' st1 Hr) as Hk.
      unfold after in Hk. rewrite Hd in Hk. apply Hk. exact Hr'. }
    constructor; [apply Hkeep, Hs|].
    rewrite Hq2 in Htaken. exact Htaken.
Qed.

Lemma noneExecuting_alter (f : Task -> Task) (r : nat) (st : Coordinator) :
  (forall t, status (f t) <> Executing) ->
  noneExecuting st -> noneExecuting (set_objects (alter f r (objects st)) st).
Proof.
  intros Hf Hnone. apply noneExecuting_lookup. intros r' t Ht. cbn [objects set_objects] in Ht.
  rewrite list_lookup_alter in Ht. destruct (decide (r = r')) as [->|Hne].
  - destruct (objects st !! r') as [t0|]; [|discriminate Ht].
    injection Ht as <-. apply Hf.
  - revert Ht. apply noneExecuting_lookup. exact Hnone.
Qed.

Lemma sweep_fold_flag (now : Z) (st : Coordinator) (l : list (string * nat)) :
  isProcessing (foldr (sweepEntry now) st l) = isProcessing st.
Proof.
  induction l as [|entry l IH]; [reflexivity|]. cbn [foldr]. unfold sweepEntry at 1.
  destruct (objects _ !! entry.2) as [t|]; [|exact IH].
  destruct (expired now t); [exact IH|exact IH].
Qed.

Lemma processTasks_drains (st : Coordinator) :
  isProcessing st = false ->
  Forall (fun r => (r < List.length (objects st))%nat) (taskQueue st) ->
  noneExecuting st ->
  exists st',
    processTasks st = (Returned tt, st')
    /\ taskQueue st' = [] /\ noneExecuting st'
    /\ List.length (objects st') = List.length (objects st)
    /\ isProcessing st' = false
    /\ Forall (settledAt st') (taskQueue st).
Proof.
  intros Hflag Hvalid Hnone. unfold processTasks. rewrite Hflag. cbn [orb].
  destruct (taskQueue st) as [|r q] eqn:Hq.
  { exists st. cbn. repeat split; auto. }
  rewrite <- Hq in *.
  replace (List.length (taskQueue st) =? 0)%nat with false
    by (rewrite Hq; reflexivity).
  unfold bind at 1. unfold modify at 1. cbn [fst snd].
  set (st1 := set_isProcessing true st).
  destruct (dispatchLoop_drains (List.length (taskQueue st)) st1)
    as (st2 & Hloop & Hq2 & Hnone2 & Hlen2 & _ & _ & Htaken);
    [reflexivity|exact Hvalid|exact Hnone|].
  unfold bind. rewrite Hloop. unfold modify.
  exists (set_isProcessing false st2). split; [reflexivity|].
  split; [exact Hq2|]. split; [exact Hnone2|]. split; [exact Hlen2|].
  split; [reflexivity|exact Htaken].
Qed.

Lemma startDispatch_idle (st : Coordinator) (r : nat) (q : list nat) :
  isProcessing st = false -> taskQueue st = r :: q ->
  after startDispatch st
  = if canDispatch (set_isProcessing true st)
    then set_objects
           (alter (fun t => set_started (clock st) (set_status Executing t)) r (objects st))
           (set_taskQueue q (set_isProcessing true st))
    else set_isProcessing false (set_isProcessing true st).
Proof.
  intros Hflag Hq. unfold after, startDispatch. rewrite Hflag, Hq.
  cbn [orb List.length Nat.eqb]. unfold bind, modify. cbn [fst snd].
  destruct (canDispatch (set_isProcessing true st)); [|reflexivity].
  unfold shift. cbn [taskQueue set_isProcessing]. rewrite Hq.
  rewrite beginTask_spec. reflexivity.
Qed.

(** What every history keeps, when the tasks are submitted as pending:
    the queue holds references to task objects, and with no dispatch in
    flight no task object is executing. *)
Lemma idle_invariant (op : QueueOp) (st : Coordinator) :
  Forall (fun t => status t = Pending) (submitted [op]) ->
  Forall (fun r => (r < List.length (objects st))%nat) (taskQueue st) ->
  (isProcessing st = false -> noneExecuting st) ->
  let st' := after (applyOp op) st in
  Forall (fun r => (r < List.length (objects st'))%nat) (taskQueue st')
  /\ (isProcessing st' = false -> noneExecuting st').
Proof.
  intros Hpending Hvalid Hidle st'. subst st'.
  destruct op as [t| | | |id e|now]; cbn [applyOp].
  - rewrite submit_spec. cbn zeta.
    cbn [taskQueue set_taskQueue set_activeTasks set_objects objects isProcessing].
    split.
    + apply Forall_forall. intros r Hr. apply sort_push_elem in Hr.
      rewrite length_app. cbn [List.length].
      destruct Hr as [->|Hr]; [lia|].
      rewrite Forall_forall in Hvalid. specialize (Hvalid r Hr). lia.
    + intros Hflag. unfold noneExecuting. cbn [objects set_objects].
      apply Forall_app. split; [apply Hidle, Hflag|].
      cbn [submitted] in Hpending. apply Forall_cons in Hpending as [Ht _].
      constructor; [rewrite Ht; discriminate|constructor].
  - destruct (isProcessing st) eqn:Hflag.
    + unfold after, processTasks. rewrite Hflag. cbn [orb snd].
      split; [exact Hvalid|intros H; congruence].
    + destruct (processTasks_drains st Hflag Hvalid (Hidle eq_refl))
        as (st2 & Hrun & Hq2 & Hnone2 & _).
      unfold after. rewrite Hrun. cbn [snd]. rewrite Hq2.
      split; [constructor|]. intros _. exact Hnone2.
  - destruct (isProcessing st) eqn:Hflag.
    { unfold after, startDispatch. rewrite Hflag. cbn [orb snd].
      split; [exact Hvalid|intros H; congruence]. }
    destruct (taskQueue st) as [|r q] eqn:Hq.
    { unfold after, startDispatch. rewrite Hflag, Hq. cbn [orb List.length Nat.eqb snd].
      rewrite Hq. split; [exact Hvalid|intros _; apply (Hidle eq_refl)]. }
    rewrite (startDispatch_idle st r q Hflag Hq).
    destruct (canDispatch (set_isProcessing true st)).
    + cbn [taskQueue set_objects set_taskQueue objects isProcessing set_isProcessing].
      split; [|discriminate]. rewrite length_alter.
      apply Forall_cons in Hvalid as [_ Hrest]. exact Hrest.
    + cbn [taskQueue objects isProcessing set_isProcessing].
      rewrite Hq. split; [exact Hvalid|]. intros _. apply (Hidle eq_refl).
  - unfold after, cleanupCompletedTasks, modify. cbn [snd].
    destruct (sweep_fold_frame (clock st) st (map_to_list (activeTasks st)))
      as (Ho & Hq & _).
    rewrite Hq. unfold noneExecuting. rewrite Ho. split; [exact Hvalid|].
    intros Hflag. apply Hidle. rewrite <- Hflag. symmetry. apply sweep_fold_flag.
  - unfold after, handleTaskFailure, bind, gets. cbn [fst snd].
    destruct (activeTasks st !! id) as [task|]; [|split; auto].
    unfold updateTask, modify, emit, modify.
    cbn [snd taskQueue objects set_objects set_log isProcessing].
    rewrite length_alter. split; [exact Hvalid|].
    intros Hflag. apply (noneExecuting_alter _ task st); [|apply Hidle, Hflag].
    intros t. discriminate.
  - split; [exact Hvalid|exact Hidle].
Qed.

Lemma idle_history (ops : list QueueOp) :
  forall st,
    Forall (fun t => status t = Pending) (submitted ops) ->
    Forall (fun r => (r < List.length (objects st))%nat) (taskQueue st) ->
    (isProcessing st = false -> noneExecuting st) ->
    Forall (fun r => (r < List.length (objects (history ops st)))%nat)
      (taskQueue (history ops st))
    /\ (isProcessing (history ops st) = false -> noneExecuting (history ops st)).
Proof.
  induction ops as [|op ops IH]; intros st Hpending Hvalid Hidle; [auto|].
  cbn [history fold_left].
  assert (Hsplit : Forall (fun t => status t = Pending) (submitted [op])
                   /\ Forall (fun t => status t = Pending) (submitted ops)).
  { change (op :: ops) with ([op] ++ ops) in Hpending.
    rewrite submitted_app in Hpending. apply Forall_app in Hpending. exact Hpending. }
  destruct Hsplit as [Hop Hrest].
  destruct (idle_invariant op st Hop Hvalid Hidle) as [Hvalid' Hidle'].
  apply (IH (after (applyOp op) st) Hrest Hvalid' Hidle').
Qed.

(** X21: the limit of ten executing tasks never stops the dispatcher.  In
    every state that the handlers reach from a new coordinator, with tasks
    submitted as pending (as [processUserRequest] and [handleSecurityAlert]
    make them), no task is executing unless a dispatch is in flight; so
    [processTasks], started with none in flight, goes on until the queue
    is empty, and every task that was waiting is settled. *)
Theorem idle_dispatch_drains_the_queue (now : Z) (ops : list QueueOp) :
  Forall (fun t => status t = Pending) (submitted ops) ->
  let st := history ops (newCoordinator now) in
  isProcessing st = false ->
  getActiveTaskCount st = 0%nat
  /\ exists st',
       processTasks st = (Returned tt, st')
       /\ taskQueue st' = []
       /\ Forall (settledAt st') (taskQueue st)
       /\ isProcessing st' = false
       /\ getActiveTaskCount st' = 0%nat.
Proof.
  intros Hpending st Hflag.
  destruct (idle_history ops (newCoordinator now) Hpending) as [Hvalid Hidle].
  { constructor. }
  { intros _. constructor. }
  fold st in Hvalid, Hidle. specialize (Hidle Hflag).
  split; [apply noneExecuting_count, Hidle|].
  destruct (processTasks_drains st Hflag Hvalid Hidle)
    as (st' & Hrun & Hq & Hnone & _ & Hflag' & Htaken).
  exists st'. split; [exact Hrun|]. split; [exact Hq|]. split; [exact Htaken|].
  split; [exact Hflag'|apply noneExecuting_count, Hnone].
Qed.

Lemma idle_dispatch_drains_the_queue_witness :
  let ops := [Submit (sampleTask "a" 2 [lightsOn]); Submit (sampleTask "b" 1 [speak]);
              Dispatch; Submit (sampleTask "c" 2 [lightsOff]); Sweep] in
  let st := history ops (newCoordinator 0) in
  getActiveTaskCount st = 0%nat
  /\ exists st',
       processTasks st = (Returned tt, st')
       /\ taskQueue st' = []
       /\ Forall (settledAt st') (taskQueue st)
       /\ isProcessing st' = false
       /\ getActiveTaskCount st' = 0%nat.
Proof.
  intros ops st.
  apply (idle_dispatch_drains_the_queue 0 ops).
  - repeat constructor.
  - reflexivity.
Defined.

(** ** The tone of the response *)

Lemma generateUnifiedResponse_tone_thrown (task : nat) (rs : list StepOutcome)
  (st : Coordinator) (t : Task) (emo : AgentHandle) (e : Error) :
  objects st !! task = Some t ->
  agents st !! "emotion" = Some emo ->
  determineResponseTone emo (userEmotion (context t)) rs = Thrown e ->
  generateUnifiedResponse task rs st = (Thrown e, st).
Proof.
  intros Ht Hemo Htone. unfold generateUnifiedResponse, bind, gets.
  rewrite (deref_found _ _ _ Ht). cbn [fst snd]. rewrite Hemo, Htone. reflexivity.
Qed.

Lemma dispatchNext_results_on_failure (task : nat) (st st1 : Coordinator) (e : Error) :
  executeTask task st = (Thrown e, st1) ->
  taskResults (after (dispatchNext task) st) = taskResults st1.
Proof.
  intros He. unfold after, dispatchNext, try_catch, bind. rewrite He.
  unfold handleTaskError, bind, gets, updateTask, modify. cbn [fst snd].
  unfold deref. cbn [objects set_objects].
  destruct (alter _ task (objects st1) !! task); reflexivity.
Qed.

(** X22: the tone is asked of the emotion agent outside every [try]: when
    [determineResponseTone] throws (as it does for an agent that has no
    such method), the task fails after its steps have run, whatever they
    achieved, and no result is stored for it. *)
Theorem tone_failure_fails_the_task
  (task : nat) (t : Task) (st : Coordinator) (emo : AgentHandle) (e : Error) :
  objects st !! task = Some t ->
  agents st !! "emotion" = Some emo ->
  (forall emotion rs, determineResponseTone emo emotion rs = Thrown e) ->
  exists st' t' e',
    dispatchNext task st = (Returned tt, st')
    /\ objects st' !! task = Some t'
    /\ status t' = Failed /\ task_error t' = Some e' /\ task_result t' = task_result t
    /\ taskResults st' = taskResults st
    /\ (e' = e
        \/ exists st1, runSteps task (steps (plan t)) [] (after (beginTask task) st)
                       = (Thrown e', st1))
    /\ exists events,
         log st' = log st ++ events ++ [Emitted_task_failed (task_id t)].
Proof.
  intros Ht Hemo Htone.
  set (t1 := set_started (clock st) (set_status Executing t)).
  pose proof (begun_lookup task st t Ht) as Ht1. fold t1 in Ht1.
  remember (after (beginTask task) st) as st0 eqn:Hst0.
  assert (Hemo0 : agents st0 !! "emotion" = Some emo) by (rewrite Hst0; exact Hemo).
  assert (Hlog0 : log st0 = log st) by (rewrite Hst0; reflexivity).
  assert (Hres0 : taskResults st0 = taskResults st) by (rewrite Hst0; reflexivity).
  pose proof (Quiet_runSteps task (steps (plan t)) [] st0) as Hq.
  destruct (runSteps task (steps (plan t)) [] st0) as [[rs|e1] st1] eqn:Hrun;
    cbn [snd] in Hq; destruct Hq as (now & events & Hst1).
  - assert (Ht1' : objects st1 !! task = Some t1) by (rewrite Hst1; exact Ht1).
    assert (Hcomp : compileTaskResults task rs st1 = (Thrown e, st1)).
    { unfold compileTaskResults, bind.
      rewrite (generateUnifiedResponse_tone_thrown task rs st1 t1 emo e Ht1');
        [reflexivity|rewrite Hst1; exact Hemo0|apply Htone]. }
    assert (He : executeTask task st = (Thrown e, st1)).
    { unfold executeTask, bind. rewrite beginTask_spec.
      change (set_objects _ st) with (after (beginTask task) st). rewrite <- Hst0.
      rewrite (deref_found _ _ _ Ht1). cbn [plan t1 set_started set_status].
      rewrite Hrun, Hcomp. reflexivity. }
    destruct (dispatchNext_thrown task st st1 t1 e He Ht1') as (st3 & Hd & Ht3 & Hlog3).
    exists st3, (markFailed e (clock st1) t1), e.
    split; [exact Hd|]. split; [exact Ht3|].
    split; [reflexivity|]. split; [reflexivity|]. split; [reflexivity|].
    split.
    { pose proof (dispatchNext_results_on_failure task st st1 e He) as Hr.
      unfold after in Hr. rewrite Hd in Hr. cbn [snd] in Hr.
      rewrite Hr, Hst1. exact Hres0. }
    split; [left; reflexivity|].
    exists events. rewrite Hlog3, Hst1. cbn [log resumed set_log set_clock].
    rewrite Hlog0, <- app_assoc. reflexivity.
  - assert (Ht1' : objects st1 !! task = Some t1) by (rewrite Hst1; exact Ht1).
    assert (He : executeTask task st = (Thrown e1, st1)).
    { apply (executeTask_steps_thrown task st st1 t e1 Ht).
      rewrite <- Hst0. exact Hrun. }
    destruct (dispatchNext_thrown task st st1 t1 e1 He Ht1') as (st3 & Hd & Ht3 & Hlog3).
    exists st3, (markFailed e1 (clock st1) t1), e1.
    split; [exact Hd|]. split; [exact Ht3|].
    split; [reflexivity|]. split; [reflexivity|]. split; [reflexivity|].
    split.
    { pose proof (dispatchNext_results_on_failure task st st1 e1 He) as Hr.
      unfold after in Hr. rewrite Hd in Hr. cbn [snd] in Hr.
      rewrite Hr, Hst1. exact Hres0. }
    split; [right; exists st1; reflexivity|].
    exists events. rewrite Hlog3, Hst1. cbn [log resumed set_log set_clock].
    rewrite Hlog0, <- app_assoc. reflexivity.
Qed.

Lemma tone_failure_fails_the_task_witness :
  let st := history [Submit (sampleTask "t1" 2 [lightsOn])]
              (withAgents [("emotion", reasoningAgent);
                           ("smart_home", sampleAgent "done" 5 false)]) in
  let t := sampleTask "t1" 2 [lightsOn] in
  let e := notAFunction "emotionAgent.determineResponseTone" in
  exists st' t' e',
    dispatchNext 0 st = (Returned tt, st')
    /\ objects st' !! 0%nat = Some t'
    /\ status t' = Failed /\ task_error t' = Some e' /\ task_result t' = task_result t
    /\ taskResults st' = taskResults st
    /\ (e' = e
        \/ exists st1, runSteps 0 (steps (plan t)) [] (after (beginTask 0) st)
                       = (Thrown e', st1))
    /\ exists events,
         log st' = log st ++ events ++ [Emitted_task_failed (task_id t)].
Proof.
  intros st t e.
  apply (tone_failure_fails_the_task 0%nat t st reasoningAgent e).
  - reflexivity.
  - reflexivity.
  - intros emotion rs. reflexivity.
Defined.

(** ** A failure reported by an agent *)

(** X23: an agent's [task_failed] event marks the stored task failed
    whatever its status: a completed task becomes a failed one and keeps
    its result, a queued one stays in the queue; the completion time is
    set anew, so the retention period of five minutes starts again. *)
Theorem failure_event_overrides_any_status
  (agentType id : string) (e : Error) (sys : SystemState) (st : Coordinator)
  (task : nat) (t : Task) :
  activeTasks st !! id = Some task ->
  objects st !! task = Some t ->
  exists st' t',
    handleAgentTaskFailed agentType id e sys st
    = (Returned (updateSystemState agentType "failed" None sys), st')
    /\ objects st' !! task = Some t'
    /\ status t' = Failed /\ task_error t' = Some e /\ completed t' = Some (clock st)
    /\ task_result t' = task_result t /\ sameTask t t'
    /\ taskResults st' = taskResults st /\ activeTasks st' = activeTasks st
    /\ taskQueue st' = taskQueue st
    /\ log st' = log st ++ [Emitted_task_failed id]
    /\ (forall later, later <= clock st + maxAge -> expired later t' = false).
Proof.
  intros Hid Ht.
  assert (Hlt : (task < List.length (objects st))%nat)
    by (apply lookup_lt_is_Some; eexists; exact Ht).
  eexists _, (markFailed e (clock st) t). split.
  { unfold handleAgentTaskFailed, handleTaskFailure, bind, gets. cbn [fst snd].
    rewrite Hid. unfold updateTask, emit, modify, ret. cbn [fst snd]. reflexivity. }
  cbn [objects set_log set_objects taskResults activeTasks taskQueue log].
  split; [rewrite list_lookup_alter_eq, Ht; reflexivity|].
  do 4 (split; [reflexivity|]). split; [unfold sameTask; cbn; tauto|].
  do 4 (split; [reflexivity|]).
  intros later Hlater. unfold expired. cbn. apply Z.ltb_ge. lia.
Qed.

Lemma failure_event_overrides_any_status_witness :
  let st := history [Submit (sampleTask "t1" 2 [lightsOn]); Dispatch]
              (withAgents [("smart_home", sampleAgent "done" 5 false)]) in
  exists t st' t',
    objects st !! 0%nat = Some t /\ status t = Completed
    /\ handleAgentTaskFailed "smart_home" "t1" (mkError "device offline") newSystemState st
       = (Returned (updateSystemState "smart_home" "failed" None newSystemState), st')
    /\ objects st' !! 0%nat = Some t'
    /\ status t' = Failed /\ task_result t' = task_result t
    /\ taskResults st' = taskResults st.
Proof.
  intros st.
  destruct (objects st !! 0%nat) as [t|] eqn:Ht; [|vm_compute in Ht; discriminate Ht].
  destruct (failure_event_overrides_any_status "smart_home" "t1" (mkError "device offline")
              newSystemState st 0%nat t)
    as (st' & t' & Hrun & Ht' & Hs & _ & _ & Hr & _ & Hres & _).
  - reflexivity.
  - exact Ht.
  - exists t, st', t'. split; [reflexivity|]. split.
    + vm_compute in Ht. injection Ht as <-. reflexivity.
    + auto.
Defined.

(** ** The threat detector *)

Section ThreatDetection.
Import ThreatDetectionSystem.

Lemma test_fresh_none (p : Pattern) (input : string) :
  occurs p input 0 = None -> test (fresh p) input = (false, fresh p).
Proof.
  intros H. unfold test, fresh. cbn [lastIndex source].
  destruct (_ <? _)%nat; [reflexivity|]. rewrite H. reflexivity.
Qed.

Lemma test_fresh_some (p : Pattern) (input : string) (i : nat) :
  occurs p input 0 = Some i ->
  test (fresh p) input = (true, mkGlobal p (i + List.length p)).
Proof.
  intros H. unfold test, fresh. cbn [lastIndex source].
  change (String.length input <? 0)%nat with false. rewrite H. reflexivity.
Qed.

Lemma test_after (p : Pattern) (input : string) (from : nat) :
  occurs p input from = None -> test (mkGlobal p from) input = (false, fresh p).
Proof.
  intros H. unfold test, fresh. cbn [lastIndex source].
  destruct (_ <? _)%nat; [reflexivity|]. rewrite H. reflexivity.
Qed.

Lemma firstMatch_none (rs : list GlobalRegExp) (input : string) :
  Forall (fun r => test r input = (false, reset r)) rs ->
  firstMatch rs input = (false, map reset rs).
Proof.
  induction rs as [|r rs IH]; intros Hrs; [reflexivity|].
  apply Forall_cons in Hrs as [Hr Hrs]. cbn [firstMatch map].
  rewrite Hr, (IH Hrs). reflexivity.
Qed.

Lemma firstMatch_hit (pre post : list GlobalRegExp) (r r' : GlobalRegExp) (input : string) :
  Forall (fun r => test r input = (false, reset r)) pre ->
  test r input = (true, r') ->
  firstMatch (pre ++ r :: post) input = (true, map reset pre ++ r' :: post).
Proof.
  intros Hpre Hr. induction pre as [|q pre IH]; cbn [app firstMatch map].
  - rewrite Hr. reflexivity.
  - apply Forall_cons in Hpre as [Hq Hpre]. rewrite Hq, (IH Hpre). reflexivity.
Qed.

Lemma map_reset_fresh (ps : list Pattern) : map reset (map fresh ps) = map fresh ps.
Proof. induction ps as [|p ps IH]; [reflexivity|]. cbn [map]. rewrite IH. reflexivity. Qed.

Lemma fresh_fail (ps : list Pattern) (input : string) :
  Forall (fun p => occurs p input 0 = None) ps ->
  Forall (fun r => test r input = (false, reset r)) (map fresh ps).
Proof.
  intros Hps. apply Forall_map. eapply Forall_impl; [exact Hps|].
  intros p Hp. cbn. apply test_fresh_none, Hp.
Qed.

(** X24: the threat detector misses a threat that it has just found.  Its
    patterns carry the [g] flag, so a successful [test] leaves the pattern
    searching from the end of its match: for a request in which one threat
    pattern occurs, once, a new detector says [high], the same detector
    asked again about the same request does not, and asked a third time
    it says [high] again. *)
Theorem repeated_threat_is_missed
  (input : string) (k : nat) (p : Pattern) (i : nat) :
  threatPatterns !! k = Some p ->
  (forall j q, j <> k -> threatPatterns !! j = Some q ->
               occurs q input 0 = None) ->
  occurs p input 0 = Some i ->
  occurs p input (i + List.length p) = None ->
  let first := analyze newDetector input in
  let second := analyze first.2 input in
  let third := analyze second.2 input in
  first.1 = "high" /\ second.1 <> "high" /\ third.1 = "high"
  /\ threats second.2
     = threats newDetector.
Proof.
  intros Hk Hothers Hfirst Hnext.
  pose proof (take_drop_middle _ _ _ Hk) as Hsplit.
  set (pre := take k threatPatterns) in *.
  set (post := drop (S k) threatPatterns) in *.
  assert (Hlen : List.length pre = k).
  { unfold pre. rewrite length_take. apply lookup_lt_Some in Hk. lia. }
  assert (Hpre : Forall (fun q => occurs q input 0 = None) pre).
  { apply Forall_lookup. intros j q Hj. apply (Hothers j q).
    - apply lookup_lt_Some in Hj. lia.
    - rewrite <- Hsplit. rewrite lookup_app_l by (apply lookup_lt_Some in Hj; exact Hj).
      exact Hj. }
  assert (Hpost : Forall (fun q => occurs q input 0 = None) post).
  { apply Forall_lookup. intros j q Hj. apply (Hothers (S k + j)%nat q); [lia|].
    rewrite <- Hsplit. rewrite lookup_app_r by lia.
    rewrite Hlen. replace (S k + j - k)%nat with (S j) by lia. exact Hj. }
  assert (Hthreats : threats newDetector
                     = map fresh pre ++ fresh p :: map fresh post).
  { unfold newDetector. cbn [threats].
    rewrite <- Hsplit at 1. rewrite map_app. reflexivity. }
  assert (H1 : firstMatch (map fresh pre ++ fresh p :: map fresh post) input
               = (true, map fresh pre
                          ++ mkGlobal p (i + List.length p)
                          :: map fresh post)).
  { rewrite (firstMatch_hit _ _ _ _ input (fresh_fail pre input Hpre)
               (test_fresh_some p input i Hfirst)).
    rewrite map_reset_fresh. reflexivity. }
  assert (H2 : firstMatch
                 (map fresh pre ++ mkGlobal p (i + List.length p)
                    :: map fresh post) input
               = (false, map fresh pre ++ fresh p :: map fresh post)).
  { rewrite firstMatch_none.
    - rewrite map_app. cbn [map]. rewrite !map_reset_fresh. reflexivity.
    - apply Forall_app. split; [apply fresh_fail, Hpre|].
      constructor; [apply test_after, Hnext|apply fresh_fail, Hpost]. }
  intros first second third.
  assert (Efirst : first = ("high",
             mkDetector
               (map fresh pre ++ mkGlobal p (i + List.length p)
                  :: map fresh post)
               (suspicious newDetector))).
  { unfold first, analyze. rewrite Hthreats, H1. reflexivity. }
  assert (Esecond : second.1 <> "high"
                    /\ threats second.2
                       = map fresh pre ++ fresh p :: map fresh post).
  { unfold second. rewrite Efirst. unfold analyze.
    cbn [snd threats suspicious].
    rewrite H2.
    destruct (firstMatch (suspicious newDetector) input) as [[] suspicious'];
      cbv beta iota zeta; cbn [fst snd threats];
      (split; [intros H; discriminate H|reflexivity]). }
  destruct Esecond as [Hlevel Hreset].
  split; [rewrite Efirst; reflexivity|]. split; [exact Hlevel|].
  split; [|rewrite Hreset, Hthreats; reflexivity].
  unfold third, analyze. rewrite Hreset, H1. reflexivity.
Qed.

Lemma repeated_threat_is_missed_witness :
  let input := "open the System32 folder" in
  let first := analyze newDetector input in
  let second := analyze first.2 input in
  let third := analyze second.2 input in
  first.1 = "high" /\ second.1 <> "high" /\ third.1 = "high"
  /\ threats second.2
     = threats newDetector.
Proof.
  intros input.
  apply (repeated_threat_is_missed input 4%nat
           (chars_i "system32") 9%nat).
  - reflexivity.
  - intros j q Hj Hq.
    destruct j as [|[|[|[|[|[|j]]]]]]; try (injection Hq as <-; vm_compute; reflexivity).
    + congruence.
    + discriminate Hq.
  - vm_compute. reflexivity.
  - vm_compute. reflexivity.
Defined.

End ThreatDetection.

(** * The queue and the store along a history *)

(** ** What holds whenever a handler starts *)

(** A property of the store that each round of the dispatcher keeps is
    kept by the loop, by [processTasks] and by every state in which
    [processTasks] can be found waiting. *)
Section Rounds.
Variable P : Coordinator -> Prop.
Hypothesis P_flag : forall b st, P st -> P (set_isProcessing b st).
Hypothesis P_round :
  forall st r q, P st -> taskQueue st = r :: q ->
    P (after (dispatchNext r) (set_taskQueue q st)).

Lemma dispatchLoop_keeps (fuel : nat) : forall st, P st -> P (after (dispatchLoop fuel) st).
Proof.
  induction fuel as [|fuel IH]; intros st HP; [exact HP|].
  unfold after. cbn [dispatchLoop].
  destruct (canDispatch st); [|exact HP].
  unfold bind, shift. destruct (taskQueue st) as [|r q] eqn:Hq; [exact HP|].
  pose proof (P_round st r q HP Hq) as HP1. unfold after in HP1.
  destruct (dispatchNext r (set_taskQueue q st)) as [[[]|e] st1]; [|exact HP1].
  apply IH. exact HP1.
Qed.

Lemma processTasks_keeps (st : Coordinator) : P st -> P (after processTasks st).
Proof.
  intros HP. unfold after, processTasks.
  destruct (isProcessing st || _); [exact HP|].
  unfold bind, modify. cbn [fst snd].
  pose proof (dispatchLoop_keeps (List.length (taskQueue st)) _ (P_flag true st HP)) as H.
  unfold after in H.
  destruct (dispatchLoop _ (set_isProcessing true st)) as [[[]|e] st1];
    [apply P_flag; exact H|exact H].
Qed.

End Rounds.

(** ** Pending tasks wait in the queue *)

Lemma pendingQueued_round (st : Coordinator) (r : nat) (q : list nat) :
  pendingQueued st -> taskQueue st = r :: q ->
  pendingQueued (after (dispatchNext r) (set_taskQueue q st)).
Proof.
  intros [Hvalid Hpend] Hq. rewrite Hq in Hvalid.
  apply Forall_cons in Hvalid. destruct Hvalid as [Hr Hvalid].
  set (st1 := set_taskQueue q st).
  destruct (dispatchNext_settles r st1 Hr) as (st' & Hrun & (t' & Ht' & Hsettled)).
  pose proof (Untouched_dispatchNext r st1) as Hun.
  pose proof (Steady_dispatchNext r st1) as (Hq' & _ & Hlen & _).
  unfold after. rewrite Hrun in *. cbn [snd] in *.
  split.
  - rewrite Hq', Hlen. exact Hvalid.
  - intros r' t Ht Hs. rewrite Hq'. simpl.
    destruct (decide (r' = r)) as [->|Hne].
    + rewrite Ht' in Ht. injection Ht as <-.
      destruct Hsettled as [[H|H] _]; congruence.
    + rewrite (Hun r' Hne) in Ht. simpl in Ht.
      specialize (Hpend r' t Ht Hs). rewrite Hq in Hpend.
      apply elem_of_cons in Hpend. destruct Hpend as [->|Hin]; [contradiction|exact Hin].
Qed.

(** Marking a task, whatever the mark, makes no task pending. *)
Lemma pendingQueued_mark (f : Task -> Task) (r : nat) (q : list nat) (st : Coordinator) :
  (forall t, status (f t) <> Pending) ->
  pendingQueued st ->
  (forall r', r' ∈ taskQueue st -> r' <> r -> r' ∈ q) ->
  Forall (fun r' => r' ∈ taskQueue st) q ->
  pendingQueued (set_objects (alter f r (objects st)) (set_taskQueue q st)).
Proof.
  intros Hf [Hvalid Hpend] Hq Hsub. split; simpl.
  - rewrite length_alter. rewrite Forall_forall in *.
    intros r' Hr'. apply Hvalid, Hsub, Hr'.
  - intros r' t Ht Hs.
    destruct (decide (r = r')) as [<-|Hne].
    + rewrite list_lookup_alter_eq in Ht.
      destruct (objects st !! r) as [t0|]; [|discriminate Ht].
      injection Ht as <-. destruct (Hf t0 Hs).
    + rewrite list_lookup_alter_ne in Ht by exact Hne.
      apply Hq; [exact (Hpend r' t Ht Hs)|congruence].
Qed.

Lemma pendingQueued_applyOp (op : QueueOp) (st : Coordinator) :
  pendingQueued st -> pendingQueued (after (applyOp op) st).
Proof.
  intros H. destruct op as [t| | | |taskId error|now]; simpl.
  - destruct H as [Hvalid Hpend]. rewrite submit_spec. cbv zeta.
    split; simpl.
    + rewrite length_app. simpl. apply Forall_forall. intros z Hz.
      apply sort_push_elem in Hz. rewrite Forall_forall in Hvalid.
      destruct Hz as [->|Hz]; [lia|]. specialize (Hvalid z Hz). lia.
    + intros r t0 Ht0 Hs. apply sort_push_elem.
      destruct (Nat.lt_ge_cases r (List.length (objects st))) as [Hlt|Hge].
      * rewrite lookup_app_l in Ht0 by exact Hlt. right. exact (Hpend r t0 Ht0 Hs).
      * left. apply lookup_lt_Some in Ht0. rewrite length_app in Ht0. simpl in Ht0. lia.
  - apply processTasks_keeps; [intros b st0 H0; exact H0| |exact H].
    intros st0 r q. apply pendingQueued_round.
  - unfold after, startDispatch.
    destruct (isProcessing st || _); [exact H|].
    unfold bind, modify. cbn [fst snd].
    destruct (canDispatch (set_isProcessing true st)); [|exact H].
    unfold shift. cbn [taskQueue set_isProcessing].
    destruct (taskQueue st) as [|r q] eqn:Hq; [exact H|].
    rewrite beginTask_spec. cbn [snd].
    apply (pendingQueued_mark _ r q (set_isProcessing true st)).
    + intros t. simpl. discriminate.
    + exact H.
    + simpl. rewrite Hq. intros r' Hr' Hne.
      apply elem_of_cons in Hr'. destruct Hr' as [->|Hr']; [contradiction|exact Hr'].
    + simpl. rewrite Hq. apply Forall_forall. intros r' Hr'. apply elem_of_cons. auto.
  - destruct (sweep_fold_frame (clock st) st (map_to_list (activeTasks st)))
      as (Ho & Hq & _).
    unfold after, cleanupCompletedTasks, modify. cbn [snd].
    unfold pendingQueued. rewrite Ho, Hq. exact H.
  - unfold after, handleTaskFailure, bind, gets. cbn [fst snd].
    destruct (activeTasks st !! taskId) as [r|]; [|exact H].
    unfold updateTask, emit, modify. cbn [fst snd].
    pose proof (pendingQueued_mark (markFailed error (clock st)) r (taskQueue st) st) as Hm.
    apply Hm; [intros t; simpl; discriminate|exact H|auto|].
    apply Forall_forall. auto.
  - exact H.
Qed.

Lemma pendingQueued_history (ops : list QueueOp) :
  forall st, pendingQueued st -> pendingQueued (history ops st).
Proof.
  induction ops as [|op ops IH]; intros st H; [exact H|].
  change (history (op :: ops) st) with (history ops (after (applyOp op) st)).
  apply IH, pendingQueued_applyOp, H.
Qed.

Lemma keyedBefore_asym (key : nat -> Z) (a b : nat) :
  keyedBefore key a b -> keyedBefore key b a -> False.
Proof. unfold keyedBefore. lia. Qed.

(** A task that goes before another one of the queue leaves the queue no
    later than the other, whatever is submitted and whatever runs. *)
Lemma served_order_kept (ops : list QueueOp) :
  forall tasks st a b,
    ordered tasks st ->
    (a < List.length tasks)%nat -> (b < List.length tasks)%nat ->
    servedBefore tasks a b ->
    (a ∈ taskQueue st -> b ∈ taskQueue st) ->
    a ∈ taskQueue (history ops st) -> b ∈ taskQueue (history ops st).
Proof.
  induction ops as [|op ops IH]; intros tasks st a b Hord Ha Hb Hab Hst; [exact Hst|].
  change (history (op :: ops) st) with (history ops (after (applyOp op) st)).
  assert (Hab' : servedBefore (tasks ++ submitted [op]) a b).
  { destruct op; simpl; rewrite ?app_nil_r; try exact Hab.
    unfold servedBefore, keyedBefore in *.
    rewrite !priorityOf_app_old by assumption. exact Hab. }
  apply (IH (tasks ++ submitted [op])).
  - apply ordered_applyOp. exact Hord.
  - rewrite length_app. lia.
  - rewrite length_app. lia.
  - exact Hab'.
  - destruct Hord as (Hlen & _ & Hvalid & Hsorted).
    assert (Hdrop : forall n, a ∈ drop n (taskQueue st) -> b ∈ drop n (taskQueue st)).
    { intros n Han.
      assert (Hbq : b ∈ taskQueue st).
      { apply Hst. rewrite <- (take_drop n (taskQueue st)). apply elem_of_app. auto. }
      rewrite <- (take_drop n (taskQueue st)) in Hbq, Hsorted.
      apply elem_of_app in Hbq. destruct Hbq as [Hbt|Hbd]; [|exact Hbd].
      destruct (keyedBefore_asym _ a b Hab).
      exact (StronglySorted_app_1_elem_of _ _ _ _ _ Hsorted Hbt Han). }
    assert (Hother : forall op' : QueueOp,
              (forall t, op' <> Submit t) ->
              a ∈ taskQueue (after (applyOp op') st) ->
              b ∈ taskQueue (after (applyOp op') st)).
    { intros op' Hop'. unfold after.
      destruct (Drained_handler op' Hop' st) as ((n & Hd) & _).
      rewrite Hd. apply Hdrop. }
    destruct op as [t| | | |taskId error|now]; try (apply Hother; discriminate).
    simpl. rewrite submit_spec. cbv zeta. simpl.
    rewrite !sort_push_elem. intros [->|Haq]; [lia|]. right. apply Hst, Haq.
Qed.

(** C3.  From a coordinator that holds no task yet, whatever tasks are
    submitted and whatever the event loop runs in between (the dispatcher,
    to its end or up to its first wait, the sweep, failure reports of
    agents):
    - every submitted task that is still pending is in the queue, and the
      queue holds submitted tasks only;
    - the queue is in ascending order of priority, tasks of equal priority
      in the order of their submission;
    - [shift], by which the dispatcher dequeues, hands out the head of the
      queue, which goes before every other pending task: it has a lower
      priority value, or the same and was submitted earlier;
    - of two waiting tasks, the one that goes before the other leaves the
      queue no later than the other, whatever happens afterwards.
    Tasks are named by their position in the sequence of submissions. *)
Theorem pending_queue_order (st0 : Coordinator) (ops : list QueueOp) :
  objects st0 = [] -> taskQueue st0 = [] ->
  let st := history ops st0 in
  let tasks := submitted ops in
  List.length (objects st) = List.length tasks
  /\ (forall r, priorityOf (objects st) r = priorityOf tasks r)
  /\ Forall (fun r => (r < List.length tasks)%nat) (taskQueue st)
  /\ (forall r t, objects st !! r = Some t -> status t = Pending -> r ∈ taskQueue st)
  /\ StronglySorted (fun a b => priorityOf tasks a <= priorityOf tasks b) (taskQueue st)
  /\ StronglySorted (servedBefore tasks) (taskQueue st)
  /\ match taskQueue st with
     | [] => shift st = (Returned None, st)
     | r :: q =>
         shift st = (Returned (Some r), set_taskQueue q st)
         /\ Forall (servedBefore tasks r) q
         /\ forall r' t,
              objects st !! r' = Some t -> status t = Pending -> r' <> r ->
              servedBefore tasks r r'
     end
  /\ (forall a b,
        a ∈ taskQueue st -> b ∈ taskQueue st -> servedBefore tasks a b ->
        forall later,
          a ∈ taskQueue (history later st) -> b ∈ taskQueue (history later st)).
Proof.
  intros Hobjects Hqueue st tasks.
  assert (Hord0 : ordered [] st0).
  { unfold ordered. rewrite Hobjects, Hqueue.
    split; [reflexivity|]. split; [reflexivity|]. split; constructor. }
  pose proof (ordered_history ops [] st0 Hord0) as Hord.
  simpl in Hord. fold st tasks in Hord.
  assert (Hpend : pendingQueued st).
  { apply pendingQueued_history. unfold pendingQueued. rewrite Hobjects, Hqueue.
    split; [constructor|].
    intros r t Ht. rewrite lookup_nil in Ht. discriminate Ht. }
  pose proof Hord as (Hlen & Hp & Hvalid & Hs).
  destruct Hpend as [_ Hpend].
  split; [exact Hlen|]. split; [exact Hp|]. split; [exact Hvalid|].
  split; [exact Hpend|]. split; [|split; [exact Hs|split]].
  - apply (StronglySorted_weaken (servedBefore tasks)); [|exact Hs].
    intros a b _ _. unfold servedBefore, keyedBefore. lia.
  - unfold shift. destruct (taskQueue st) as [|r q] eqn:Hq; [reflexivity|].
    apply StronglySorted_inv in Hs. destruct Hs as [_ Hs].
    split; [reflexivity|]. split; [exact Hs|]. intros r' t Ht Hst Hne.
    specialize (Hpend r' t Ht Hst).
    apply elem_of_cons in Hpend. destruct Hpend as [->|Hin]; [contradiction|].
    rewrite Forall_forall in Hs. apply Hs, Hin.
  - intros a b Ha Hb Hab later.
    rewrite Forall_forall in Hvalid.
    apply (served_order_kept later tasks st a b Hord); auto.
Qed.

Lemma pending_queue_order_witness :
  let ops := [Submit (sampleTask "a" 2 []); Submit (sampleTask "b" 1 []);
              Submit (sampleTask "c" 2 []); Submit (sampleTask "d" 1 [])] in
  let st := history ops (withAgents [("voice", sampleAgent "spoken" 5 false)]) in
  taskQueue st = [1; 3; 0; 2]%nat
  /\ StronglySorted (servedBefore (submitted ops)) (taskQueue st)
  /\ (0%nat ∈ taskQueue (history [StartDispatch] st) ->
      2%nat ∈ taskQueue (history [StartDispatch] st)).
Proof.
  intros ops st.
  destruct (pending_queue_order (withAgents [("voice", sampleAgent "spoken" 5 false)]) ops)
    as (_ & _ & _ & _ & _ & Hsorted & _ & Hlater); [reflexivity|reflexivity|].
  split; [vm_compute; reflexivity|]. split; [exact Hsorted|].
  apply (Hlater 0%nat 2%nat).
  - vm_compute. do 2 right. left.
  - vm_compute. do 3 right. left.
  - right. split; [reflexivity|lia].
Defined.

(** ** Completion times along a history *)











